(** * The assembler engine of the playground: a shallow embedding

    The embedded code is the "Assembler V2 Engine" (types [CPU], [Operand],
    [Instruction], [Program]; functions [reset], [parseOperand], [assemble],
    [resolveOperand], [setFlags], [step], [run]).

    Conventions of the embedding.
    - A JavaScript [number] that holds an integer is a [Z].  JavaScript
      numbers are IEEE doubles, so [+], [-] and [*] deliver the exact result
      rounded to 53 significant bits ([fl]); the values [Infinity] and [NaN]
      (magnitudes of 2^1024 and beyond) are outside the model.
    - [undefined] (a missing table entry, a register slot that does not
      exist) is [None].
    - [Int32Array] is a vector of eight integers; a store into it applies
      [toInt32].
    - [DataView] is a list of bytes; its accessors raise [RangeError]
      ([None]) outside the view.
    - The statements of [step] mutate the CPU in place and may throw
      afterwards: every completion carries the CPU and the memory as they
      are when it happens. *)

From Stdlib Require Import ZArith String Ascii Lia Bool Sorted.
From stdpp Require Import base numbers option list vector strings gmap pretty.

Local Open Scope Z_scope.

(** ** Numbers *)

Module Num.

(** [ToInt32]: reduction modulo 2^32 into the signed range. *)
Definition toInt32 (z : Z) : Z := (z + 2 ^ 31) `mod` 2 ^ 32 - 2 ^ 31.

(** Nearest integer to [n / d] (for [0 <= n], [0 < d]), ties to even. *)
Definition rne (n d : Z) : Z :=
  let q := n `div` d in
  let r := n `mod` d in
  if 2 * r <? d then q
  else if d <? 2 * r then q + 1
  else if Z.even q then q else q + 1.

(** The double nearest to the integer [z] (round to nearest, ties to even,
    53-bit significand). *)
Definition fl (z : Z) : Z :=
  let a := Z.abs z in
  let e := Z.log2 a - 52 in
  if e <=? 0 then z else Z.sgn z * (rne a (2 ^ e) * 2 ^ e).

Definition add (a b : Z) : Z := fl (a + b).
Definition sub (a b : Z) : Z := fl (a - b).
Definition mul (a b : Z) : Z := fl (a * b).

(** [Math.floor(a / b)] for [b <> 0]: the quotient is rounded to a double
    with significand [m] and exponent [e], then floored. *)
Definition floor_div (a b : Z) : Z :=
  let n := Z.abs a in
  let d := Z.abs b in
  let s := Z.sgn a * Z.sgn b in
  if n =? 0 then 0 else
  let e1 := Z.log2 n - Z.log2 d - 52 in
  let scaled (e : Z) := (n * 2 ^ Z.max (- e) 0) `div` (d * 2 ^ Z.max e 0) in
  let e := if scaled e1 <? 2 ^ 52 then e1 - 1 else e1 in
  let m := rne (n * 2 ^ Z.max (- e) 0) (d * 2 ^ Z.max e 0) in
  if 0 <=? e then s * m * 2 ^ e else (s * m) `div` 2 ^ (- e).

End Num.

(** ** Memory: a [DataView] over a byte buffer *)

Definition RAM_SIZE : Z := 4096.

Module DataView.

Abbreviation t := (list Z).

(** [ToIndex]: [undefined] and [NaN] become 0, a negative index is a
    [RangeError]. *)
Definition ToIndex (requestIndex : option Z) : option Z :=
  match requestIndex with
  | None => Some 0
  | Some i => if i <? 0 then None else Some i
  end.

Definition byteLength (ram : t) : Z := Z.of_nat (length ram).

Definition getUint8 (ram : t) (byteOffset : option Z) : option Z :=
  i ← ToIndex byteOffset;
  if byteLength ram <? i + 1 then None else ram !! Z.to_nat i.

(** Little-endian signed word at [byteOffset]. *)
Definition getInt32 (ram : t) (byteOffset : option Z) : option Z :=
  i ← ToIndex byteOffset;
  if byteLength ram <? i + 4 then None else
  b0 ← ram !! Z.to_nat i;
  b1 ← ram !! Z.to_nat (i + 1);
  b2 ← ram !! Z.to_nat (i + 2);
  b3 ← ram !! Z.to_nat (i + 3);
  Some (Num.toInt32 (b0 + b1 * 2 ^ 8 + b2 * 2 ^ 16 + b3 * 2 ^ 24)).

Definition byte_of (value : Z) (k : Z) : Z := (value `div` 2 ^ (8 * k)) `mod` 256.

(** Little-endian store of [ToInt32 value] at [byteOffset]. *)
Definition setInt32 (ram : t) (byteOffset : option Z) (value : Z) : option t :=
  i ← ToIndex byteOffset;
  if byteLength ram <? i + 4 then None else
  let v := Num.toInt32 value in
  Some (<[Z.to_nat (i + 3) := byte_of v 3]>
       (<[Z.to_nat (i + 2) := byte_of v 2]>
       (<[Z.to_nat (i + 1) := byte_of v 1]>
       (<[Z.to_nat i := byte_of v 0]> ram)))).

End DataView.

(** ** CPU state, operands, instructions, programs *)

Record Flags := mkFlags { ZF : bool; NF : bool; CF : bool; OF : bool }.

Record CPU := mkCPU {
  R : vec Z 8;      (* Int32Array: R0-R7 *)
  SP : Z;
  BP : Z;
  IP : Z;
  F : Flags;
  halted : bool
}.

(** The values of the table [REGISTERS]: 0..7 for R0..R7, -1 for SP, -2 for
    BP. *)
Inductive Register := GP (k : fin 8) | RegSP | RegBP.

Definition reg_index (r : Register) : Z :=
  match r with
  | GP k => Z.of_nat (fin_to_nat k)
  | RegSP => -1
  | RegBP => -2
  end.

(** [Operand]: the tag [type] with the shapes of [value] that
    [parseOperand] builds. *)
Inductive Operand :=
  | OReg (value : Register)
  | OImm (value : Z)
  | OMem (value : Z) (offset : option Z)
  | OMemLabel (value : string)
  | OLabel (value : string).

Record Instruction := mkInstruction {
  op : string;
  operands : list Operand;
  line : Z;
  source : string
}.

Record Program := mkProgram {
  lines : list string;
  ast : list Instruction;
  labels : gmap string Z;
  dataSection : list Z;
  textStart : Z
}.

Definition reset : CPU :=
  {| R := vreplicate 8 0;
     SP := RAM_SIZE - 4;
     BP := RAM_SIZE - 4;
     IP := 0;
     F := mkFlags false false false false;
     halted := false |}.

(** Field updates. *)
Definition set_R (cpu : CPU) (k : fin 8) (v : Z) : CPU :=
  mkCPU (vinsert k (Num.toInt32 v) (R cpu)) (SP cpu) (BP cpu) (IP cpu) (F cpu) (halted cpu).
Definition set_SP (cpu : CPU) (v : Z) : CPU :=
  mkCPU (R cpu) v (BP cpu) (IP cpu) (F cpu) (halted cpu).
Definition set_BP (cpu : CPU) (v : Z) : CPU :=
  mkCPU (R cpu) (SP cpu) v (IP cpu) (F cpu) (halted cpu).
Definition set_IP (cpu : CPU) (v : Z) : CPU :=
  mkCPU (R cpu) (SP cpu) (BP cpu) v (F cpu) (halted cpu).
Definition set_F (cpu : CPU) (f : Flags) : CPU :=
  mkCPU (R cpu) (SP cpu) (BP cpu) (IP cpu) f (halted cpu).
Definition set_halted (cpu : CPU) (h : bool) : CPU :=
  mkCPU (R cpu) (SP cpu) (BP cpu) (IP cpu) (F cpu) h.

(** [regIndex === -1 ? cpu.SP : regIndex === -2 ? cpu.BP : cpu.R[regIndex]] *)
Definition read_reg (cpu : CPU) (r : Register) : Z :=
  match r with
  | RegSP => SP cpu
  | RegBP => BP cpu
  | GP k => R cpu !!! k
  end.

(** [if (regIndex === -1) cpu.SP = v; else if (regIndex === -2) cpu.BP = v;
    else cpu.R[regIndex] = v] *)
Definition write_reg (cpu : CPU) (r : Register) (v : Z) : CPU :=
  match r with
  | RegSP => set_SP cpu v
  | RegBP => set_BP cpu v
  | GP k => set_R cpu k v
  end.

(** ** Errors *)

(** The messages of the errors thrown inside [step]'s [try] block. *)
Inductive Message :=
  | RequiresOperands (opname : string) (n : nat)   (* "MOV requires 2 operands" *)
  | UndefinedLabel (name : string)
  | MemoryAccessOutOfBounds (addr : Z)
  | MemoryStoreOutOfBounds (addr : Z)
  | DestinationMustBeRegister (opname : string)
  | StoreDestinationMustBeMemory
  | DivisionByZero
  | UnknownSyscall (code : Z)
  | StackOverflow
  | StackUnderflow
  | UnknownInstruction (opname : string)
  | RangeError                                     (* thrown by a DataView accessor *)
  | TypeError                                      (* property read on [undefined] *)
  | InvalidImmediateValue (token : string)         (* the assembler's messages *)
  | OrgRequiresAddress
  | InvalidOrgAddress
  | InvalidWordValue
  | InvalidByteValue.

(** What [assemble], [step] and [run] throw: an [AsmError], or a
    [TypeError] of the host raised outside [step]'s [try] block (the fetch of
    [step], the assignment [ast[astIndex].operands = ...] of pass 2). *)
Inductive Exception :=
  | AsmError (line : Z) (message : Message)
  | HostTypeError.

(** ** Operand resolution *)

Section Engine.

Context (program : Program).

(** The address computed for a ['mem'] operand with a numeric [value]:
    a negative [value] is taken as a register index, of which only -1 and -2
    name a register ([cpu.R[regIndex]] is [undefined] for the others). *)
Definition mem_address (cpu : CPU) (value : Z) (offset : option Z) : option Z :=
  if value <? 0 then
    let base :=
      if value =? -1 then Some (SP cpu)
      else if value =? -2 then Some (BP cpu)
      else None in
    match offset with
    | Some o => if o =? 0 then base else a ← base; Some (Num.add a o)
    | None => base
    end
  else Some value.

(** [addr < 0 || addr >= RAM_SIZE - 3]; false when [addr] is [undefined]. *)
Definition out_of_bounds (addr : option Z) : bool :=
  match addr with
  | Some a => (a <? 0) || (RAM_SIZE - 3 <=? a)
  | None => false
  end.

Definition resolveOperand (operand : Operand) (cpu : CPU) (ram : DataView.t)
  : Message + Z :=
  match operand with
  | OImm v => inr v
  | OReg r => inr (read_reg cpu r)
  | OMem v off =>
      let addr := mem_address cpu v off in
      if out_of_bounds addr then inl (MemoryAccessOutOfBounds (default 0 addr))
      else from_option inr (inl RangeError) (DataView.getInt32 ram addr)
  | OMemLabel name =>
      match labels program !! name with
      | None => inl (UndefinedLabel name)
      | Some a =>
          if out_of_bounds (Some a) then inl (MemoryAccessOutOfBounds a)
          else from_option inr (inl RangeError) (DataView.getInt32 ram (Some a))
      end
  | OLabel name =>
      match labels program !! name with
      | None => inl (UndefinedLabel name)
      | Some a => inr a
      end
  end.

(** [resolveOperand(operands[i], ...)]: a missing operand is [undefined],
    whose [type] cannot be read. *)
Definition resolveAt (ops : list Operand) (i : nat) (cpu : CPU) (ram : DataView.t)
  : Message + Z :=
  match ops !! i with
  | None => inl TypeError
  | Some o => resolveOperand o cpu ram
  end.

(** ** Flags *)

Inductive Operation := op_add | op_sub | op_mul | op_div | op_cmp | op_logic.

Definition setFlags (cpu : CPU) (result : Z) (operation : Operation) : CPU :=
  let f := F cpu in
  let zf := result =? 0 in
  let nf := result <? 0 in
  match operation with
  | op_add | op_sub =>
      set_F cpu (mkFlags zf nf
                   (0x7FFFFFFF <? Z.abs result)
                   ((0x7FFFFFFF <? result) || (result <? - 0x80000000)))
  | _ => set_F cpu (mkFlags zf nf (CF f) (OF f))
  end.

(** ** One instruction *)

(** The [case] labels of the [switch (op)] in [step]. *)
Inductive Opcode :=
  | NOP | HALT | MOV | LOAD | STORE | ADD | SUB | MUL | DIV | CMP
  | JMP | JZ | JNZ | JC | JNC | JG | JGE | JL | JLE
  | INC | DEC | LEA | SYS | PUSH | POP | CALL | RET.

Definition opcode_table : list (string * Opcode) :=
  [("NOP", NOP); ("HALT", HALT); ("MOV", MOV); ("LOAD", LOAD); ("STORE", STORE);
   ("ADD", ADD); ("SUB", SUB); ("MUL", MUL); ("DIV", DIV); ("CMP", CMP);
   ("JMP", JMP); ("JZ", JZ); ("JNZ", JNZ); ("JC", JC); ("JNC", JNC);
   ("JG", JG); ("JGE", JGE); ("JL", JL); ("JLE", JLE);
   ("INC", INC); ("DEC", DEC); ("LEA", LEA); ("SYS", SYS);
   ("PUSH", PUSH); ("POP", POP); ("CALL", CALL); ("RET", RET)]%string.

(** Which [case] the string [op] selects; [None] is the [default] clause. *)
Definition decode (opname : string) : option Opcode :=
  snd <$> find (fun p => String.eqb (fst p) opname) opcode_table.

(** How the body of the [switch] ends: [break] (the pointer is then
    incremented), [return], or a thrown error.  [NonNumeric] stands for the
    one place where a string would be stored into the CPU ([LEA] with a
    bracketed label), which the integer model does not follow. *)
Inductive Completion :=
  | Break (cpu : CPU) (ram : DataView.t)
  | Return (cpu : CPU) (ram : DataView.t)
  | Throw (message : Message) (cpu : CPU) (ram : DataView.t)
  | NonNumeric.

(** [dst := dst OP src] for ADD, SUB, MUL. *)
Definition binary (opname : string) (f : Z -> Z -> Z) (operation : Operation)
    (ops : list Operand) (cpu : CPU) (ram : DataView.t) : Completion :=
  if negb (length ops =? 2)%nat then Throw (RequiresOperands opname 2) cpu ram else
  match resolveAt ops 1 cpu ram with
  | inl e => Throw e cpu ram
  | inr src =>
      match ops !! 0%nat with
      | Some (OReg r) =>
          let result := f (read_reg cpu r) src in
          Break (setFlags (write_reg cpu r result) result operation) ram
      | _ => Throw (DestinationMustBeRegister opname) cpu ram
      end
  end.

(** INC and DEC. *)
Definition unary (opname : string) (f : Z -> Z) (operation : Operation)
    (ops : list Operand) (cpu : CPU) (ram : DataView.t) : Completion :=
  if negb (length ops =? 1)%nat then Throw (RequiresOperands opname 1) cpu ram else
  match ops !! 0%nat with
  | Some (OReg r) =>
      let result := f (read_reg cpu r) in
      Break (setFlags (write_reg cpu r result) result operation) ram
  | _ => Throw (DestinationMustBeRegister opname) cpu ram
  end.

(** The conditional jumps: no arity check, the target is resolved only when
    the jump is taken. *)
Definition jump_if (cond : bool) (ops : list Operand) (cpu : CPU) (ram : DataView.t)
  : Completion :=
  if cond then
    match resolveAt ops 0 cpu ram with
    | inl e => Throw e cpu ram
    | inr target => Return (set_IP cpu target) ram
    end
  else Break cpu ram.

(** [SYS 2]: up to 256 bytes are read from [strAddr] until a zero byte;
    [false] when a read leaves the view.  The text goes to the console. *)
Fixpoint print_str (ram : DataView.t) (strAddr : Z) (i : Z) (n : nat) : bool :=
  match n with
  | O => true
  | S n' =>
      match DataView.getUint8 ram (Some (Num.add strAddr i)) with
      | None => false
      | Some byte => if byte =? 0 then true else print_str ram strAddr (i + 1) n'
      end
  end.

Definition exec (o : Opcode) (ops : list Operand) (cpu : CPU) (ram : DataView.t)
  : Completion :=
  match o with
  | NOP => Break cpu ram
  | HALT => Return (set_halted cpu true) ram
  | MOV =>
      if negb (length ops =? 2)%nat then Throw (RequiresOperands "MOV" 2) cpu ram else
      match resolveAt ops 1 cpu ram with
      | inl e => Throw e cpu ram
      | inr src =>
          match ops !! 0%nat with
          | Some (OReg r) => Break (write_reg cpu r src) ram
          | _ => Throw (DestinationMustBeRegister "MOV") cpu ram
          end
      end
  | LOAD =>
      if negb (length ops =? 2)%nat then Throw (RequiresOperands "LOAD" 2) cpu ram else
      match resolveAt ops 1 cpu ram with
      | inl e => Throw e cpu ram
      | inr value =>
          match ops !! 0%nat with
          | Some (OReg r) => Break (write_reg cpu r value) ram
          | _ => Throw (DestinationMustBeRegister "LOAD") cpu ram
          end
      end
  | STORE =>
      if negb (length ops =? 2)%nat then Throw (RequiresOperands "STORE" 2) cpu ram else
      match resolveAt ops 1 cpu ram with
      | inl e => Throw e cpu ram
      | inr value =>
          let store (addr : option Z) :=
            if out_of_bounds addr then Throw (MemoryStoreOutOfBounds (default 0 addr)) cpu ram
            else match DataView.setInt32 ram addr value with
                 | None => Throw RangeError cpu ram
                 | Some ram' => Break cpu ram'
                 end in
          match ops !! 0%nat with
          | Some (OMemLabel name) => store (labels program !! name)
          | Some (OMem v off) => store (mem_address cpu v off)
          | _ => Throw StoreDestinationMustBeMemory cpu ram
          end
      end
  | ADD => binary "ADD" Num.add op_add ops cpu ram
  | SUB => binary "SUB" Num.sub op_sub ops cpu ram
  | MUL => binary "MUL" Num.mul op_mul ops cpu ram
  | DIV =>
      if negb (length ops =? 2)%nat then Throw (RequiresOperands "DIV" 2) cpu ram else
      match resolveAt ops 1 cpu ram with
      | inl e => Throw e cpu ram
      | inr src =>
          if src =? 0 then
            let f := F cpu in
            Throw DivisionByZero (set_F cpu (mkFlags (ZF f) (NF f) true (OF f))) ram
          else
          match ops !! 0%nat with
          | Some (OReg r) =>
              let result := Num.floor_div (read_reg cpu r) src in
              Break (setFlags (write_reg cpu r result) result op_div) ram
          | _ => Throw (DestinationMustBeRegister "DIV") cpu ram
          end
      end
  | CMP =>
      if negb (length ops =? 2)%nat then Throw (RequiresOperands "CMP" 2) cpu ram else
      match resolveAt ops 0 cpu ram with
      | inl e => Throw e cpu ram
      | inr a =>
          match resolveAt ops 1 cpu ram with
          | inl e => Throw e cpu ram
          | inr b => Break (setFlags cpu (Num.sub a b) op_cmp) ram
          end
      end
  | JMP =>
      if negb (length ops =? 1)%nat then Throw (RequiresOperands "JMP" 1) cpu ram else
      jump_if true ops cpu ram
  | JZ => jump_if (ZF (F cpu)) ops cpu ram
  | JNZ => jump_if (negb (ZF (F cpu))) ops cpu ram
  | JC => jump_if (CF (F cpu)) ops cpu ram
  | JNC => jump_if (negb (CF (F cpu))) ops cpu ram
  | JG => jump_if (negb (ZF (F cpu)) && Bool.eqb (NF (F cpu)) (OF (F cpu))) ops cpu ram
  | JGE => jump_if (Bool.eqb (NF (F cpu)) (OF (F cpu))) ops cpu ram
  | JL => jump_if (negb (Bool.eqb (NF (F cpu)) (OF (F cpu)))) ops cpu ram
  | JLE => jump_if (ZF (F cpu) || negb (Bool.eqb (NF (F cpu)) (OF (F cpu)))) ops cpu ram
  | INC => unary "INC" (fun current => Num.add current 1) op_add ops cpu ram
  | DEC => unary "DEC" (fun current => Num.sub current 1) op_sub ops cpu ram
  | LEA =>
      if negb (length ops =? 2)%nat then Throw (RequiresOperands "LEA" 2) cpu ram else
      match ops !! 0%nat with
      | Some (OReg r) =>
          match ops !! 1%nat with
          | Some (OLabel name) =>
              match labels program !! name with
              | None => Throw (UndefinedLabel name) cpu ram
              | Some addr => Break (write_reg cpu r addr) ram
              end
          | Some (OReg r') => Break (write_reg cpu r (reg_index r')) ram
          | Some (OImm v) => Break (write_reg cpu r v) ram
          | Some (OMem v _) => Break (write_reg cpu r v) ram
          | Some (OMemLabel _) => NonNumeric
          | None => Throw TypeError cpu ram
          end
      | _ => Throw (DestinationMustBeRegister "LEA") cpu ram
      end
  | SYS =>
      if negb (length ops =? 1)%nat then Throw (RequiresOperands "SYS" 1) cpu ram else
      match resolveAt ops 0 cpu ram with
      | inl e => Throw e cpu ram
      | inr syscall =>
          if syscall =? 1 then Break cpu ram
          else if syscall =? 2 then
            if print_str ram (R cpu !!! 1%fin) 0 256 then Break cpu ram
            else Throw RangeError cpu ram
          else if syscall =? 3 then Break (set_halted cpu true) ram
          else Throw (UnknownSyscall syscall) cpu ram
      end
  | PUSH =>
      if negb (length ops =? 1)%nat then Throw (RequiresOperands "PUSH" 1) cpu ram else
      match resolveAt ops 0 cpu ram with
      | inl e => Throw e cpu ram
      | inr value =>
          let cpu1 := set_SP cpu (Num.sub (SP cpu) 4) in
          if SP cpu1 <? 0 then Throw StackOverflow cpu1 ram else
          match DataView.setInt32 ram (Some (SP cpu1)) value with
          | None => Throw RangeError cpu1 ram
          | Some ram' => Break cpu1 ram'
          end
      end
  | POP =>
      if negb (length ops =? 1)%nat then Throw (RequiresOperands "POP" 1) cpu ram else
      if RAM_SIZE - 4 <=? SP cpu then Throw StackUnderflow cpu ram else
      match DataView.getInt32 ram (Some (SP cpu)) with
      | None => Throw RangeError cpu ram
      | Some value =>
          let cpu1 := set_SP cpu (Num.add (SP cpu) 4) in
          match ops !! 0%nat with
          | Some (OReg r) => Break (write_reg cpu1 r value) ram
          | _ => Throw (DestinationMustBeRegister "POP") cpu1 ram
          end
      end
  | CALL =>
      if negb (length ops =? 1)%nat then Throw (RequiresOperands "CALL" 1) cpu ram else
      match resolveAt ops 0 cpu ram with
      | inl e => Throw e cpu ram
      | inr target =>
          let cpu1 := set_SP cpu (Num.sub (SP cpu) 4) in
          if SP cpu1 <? 0 then Throw StackOverflow cpu1 ram else
          match DataView.setInt32 ram (Some (SP cpu1)) (Num.add (IP cpu1) 1) with
          | None => Throw RangeError cpu1 ram
          | Some ram' => Return (set_IP cpu1 target) ram'
          end
      end
  | RET =>
      if RAM_SIZE - 4 <=? SP cpu then Throw StackUnderflow cpu ram else
      match DataView.getInt32 ram (Some (SP cpu)) with
      | None => Throw RangeError cpu ram
      | Some ip =>
          Return (set_SP (set_IP cpu ip) (Num.add (SP cpu) 4)) ram
      end
  end.

(** ** [step] and [run] *)

Inductive Outcome :=
  | Ok (cpu : CPU) (ram : DataView.t)
  | Raise (e : Exception) (cpu : CPU) (ram : DataView.t)
  | Unmodelled.

(** [program.ast[cpu.IP]]; [undefined] for a negative index. *)
Definition fetch (cpu : CPU) : option Instruction :=
  if IP cpu <? 0 then None else ast program !! Z.to_nat (IP cpu).

(** The [switch]: an [op] without a [case] reaches the [default] clause. *)
Definition dispatch (instruction : Instruction) (cpu : CPU) (ram : DataView.t)
  : Completion :=
  match decode (op instruction) with
  | Some o => exec o (operands instruction) cpu ram
  | None => Throw (UnknownInstruction (op instruction)) cpu ram
  end.

(** After the [switch]: [cpu.IP++] on [break], nothing more on [return],
    and the [catch] clause wraps an error with the instruction's line. *)
Definition conclude (instruction : Instruction) (completion : Completion) : Outcome :=
  match completion with
  | Break cpu' ram' => Ok (set_IP cpu' (Num.add (IP cpu') 1)) ram'
  | Return cpu' ram' => Ok cpu' ram'
  | Throw m cpu' ram' => Raise (AsmError (line instruction) m) cpu' ram'
  | NonNumeric => Unmodelled
  end.

Definition step (cpu : CPU) (ram : DataView.t) : Outcome :=
  if halted cpu || (Z.of_nat (length (ast program)) <=? IP cpu)
  then Ok (set_halted cpu true) ram
  else
    match fetch cpu with
    | None => Raise HostTypeError cpu ram
    | Some instruction => conclude instruction (dispatch instruction cpu ram)
    end.

(** What [run] delivers: the count [steps] with the CPU and memory it leaves
    behind, or the exception of the failing [step]. *)
Inductive RunResult :=
  | Stopped (steps : Z) (cpu : CPU) (ram : DataView.t)
  | Thrown (e : Exception) (steps : Z) (cpu : CPU) (ram : DataView.t)
  | RunUnmodelled.

(** The [while] loop of [run]; [fuel] is [maxSteps - steps].  The second
    component records, in order, the CPU states on which [step] was called. *)
Fixpoint run_loop (breakpoints : gset Z) (fuel : nat) (steps : Z)
    (cpu : CPU) (ram : DataView.t) : RunResult * list CPU :=
  match fuel with
  | O => (Stopped steps cpu ram, [])
  | S fuel' =>
      if halted cpu then (Stopped steps cpu ram, [])
      else if decide (IP cpu ∈ breakpoints) then (Stopped steps cpu ram, [])
      else
        match step cpu ram with
        | Ok cpu' ram' =>
            let '(r, log) := run_loop breakpoints fuel' (steps + 1) cpu' ram' in
            (r, cpu :: log)
        | Raise e cpu' ram' => (Thrown e steps cpu' ram', [cpu])
        | Unmodelled => (RunUnmodelled, [cpu])
        end
  end.

Definition run (cpu : CPU) (ram : DataView.t) (maxSteps : Z) (breakpoints : gset Z)
  : RunResult :=
  fst (run_loop breakpoints (Z.to_nat maxSteps) 0 cpu ram).

Definition run_executed (cpu : CPU) (ram : DataView.t) (maxSteps : Z)
    (breakpoints : gset Z) : list CPU :=
  snd (run_loop breakpoints (Z.to_nat maxSteps) 0 cpu ram).

End Engine.

(** A memory of [RAM_SIZE] zero bytes, as [createRAM] builds it. *)
Definition createRAM : DataView.t := replicate (Z.to_nat RAM_SIZE) 0.

Definition instr (opname : string) (ops : list Operand) (ln : Z) : Instruction :=
  mkInstruction opname ops ln opname.

Definition program_of (code : list Instruction) : Program :=
  mkProgram [] code ∅ [] 0.

(** ** Strings, as the assembler uses them (ASCII source text) *)

Module Str.

Local Open Scope char_scope.

(** White space of [trim] and of [\s]. *)
Definition is_space (c : ascii) : bool :=
  let n := nat_of_ascii c in
  ((9 <=? n) && (n <=? 13))%nat || (n =? 32)%nat.

Definition is_digit (c : ascii) : bool :=
  let n := nat_of_ascii c in ((48 <=? n) && (n <=? 57))%nat.

Definition upper (c : ascii) : ascii :=
  let n := nat_of_ascii c in
  if ((97 <=? n) && (n <=? 122))%nat then ascii_of_nat (n - 32) else c.

Fixpoint toUpperCase (s : string) : string :=
  match s with
  | EmptyString => EmptyString
  | String c s' => String (upper c) (toUpperCase s')
  end.

Fixpoint trimStart (s : string) : string :=
  match s with
  | String c s' => if is_space c then trimStart s' else s
  | EmptyString => EmptyString
  end.

Definition reverse (s : string) : string :=
  string_of_list_ascii (rev (list_ascii_of_string s)).

Definition trim (s : string) : string :=
  reverse (trimStart (reverse (trimStart s))).

Definition startsWith (s p : string) : bool := String.prefix p s.

Definition endsWith (s p : string) : bool := String.prefix (reverse p) (reverse s).

(** [s.split(c)] for a one-character separator. *)
Fixpoint split (c : ascii) (s : string) : list string :=
  match s with
  | EmptyString => [EmptyString]
  | String a s' =>
      if Ascii.eqb a c then EmptyString :: split c s'
      else match split c s' with
           | w :: ws => String a w :: ws
           | [] => [String a EmptyString]
           end
  end.

(** [s.split(/\s+/)] for a trimmed, non-empty [s]: the maximal runs of
    characters that are not white space. *)
Fixpoint words_aux (s : string) (cur : string) : list string :=
  match s with
  | EmptyString => if String.eqb cur EmptyString then [] else [reverse cur]
  | String a s' =>
      if is_space a
      then (if String.eqb cur EmptyString then words_aux s' EmptyString
            else reverse cur :: words_aux s' EmptyString)
      else words_aux s' (String a cur)
  end.

Definition splitWhitespace (s : string) : list string := words_aux s EmptyString.

(** [parts.join(' ')] *)
Fixpoint join (parts : list string) : string :=
  match parts with
  | [] => EmptyString
  | [w] => w
  | w :: ws => w ++ String " " (join ws)
  end.

(** [s.indexOf(':')] with the two slices around it: [None] when [s] has no
    colon. *)
Fixpoint cutAtColon (s : string) : option (string * string) :=
  match s with
  | EmptyString => None
  | String a s' =>
      if Ascii.eqb a ":" then Some (EmptyString, s')
      else match cutAtColon s' with
           | Some (before, after) => Some (String a before, after)
           | None => None
           end
  end.

(** The decimal digits at the head of [s]: their value and their count. *)
Fixpoint digits (s : string) (acc : Z) (count : nat) : Z * nat :=
  match s with
  | String c s' =>
      if is_digit c
      then digits s' (10 * acc + (Z.of_nat (nat_of_ascii c) - 48)) (S count)
      else (acc, count)
  | EmptyString => (acc, count)
  end.

(** [parseInt(s, 10)]: leading white space, an optional sign, then the
    longest run of digits; [None] is [NaN]. *)
Definition parseInt (s : string) : option Z :=
  let s := trimStart s in
  let '(neg, body) :=
    match s with
    | String "-" s' => (true, s')
    | String "+" s' => (false, s')
    | _ => (false, s)
    end in
  let '(v, count) := digits body 0 0 in
  if (count =? 0)%nat then None
  else Some (Num.fl (if neg then - v else v)).

(** Removes the first [n] characters. *)
Fixpoint drop (n : nat) (s : string) : string :=
  match n, s with
  | S n', String _ s' => drop n' s'
  | _, _ => s
  end.

Fixpoint all_digits (s : string) : bool :=
  match s with
  | EmptyString => true
  | String c s' => is_digit c && all_digits s'
  end.

End Str.

(** ** The assembler *)

(** The table [REGISTERS]. *)
Definition REGISTERS (name : string) : option Register :=
  (if String.eqb name "R0" then Some (GP 0%fin)
   else if String.eqb name "R1" then Some (GP 1%fin)
   else if String.eqb name "R2" then Some (GP 2%fin)
   else if String.eqb name "R3" then Some (GP 3%fin)
   else if String.eqb name "R4" then Some (GP 4%fin)
   else if String.eqb name "R5" then Some (GP 5%fin)
   else if String.eqb name "R6" then Some (GP 6%fin)
   else if String.eqb name "R7" then Some (GP 7%fin)
   else if String.eqb name "SP" then Some RegSP
   else if String.eqb name "BP" then Some RegBP
   else None)%string.

(** [inner.match(/^(R[0-7]|SP|BP)\s*([+-])\s*(\d+)$/i)]: the register, and
    the signed offset [parseInt(digits) * (sign === '+' ? 1 : -1)]. *)
Definition offsetMatch (inner : string) : option (Register * Z) :=
  match REGISTERS (Str.toUpperCase (String.substring 0 2 inner)) with
  | None => None
  | Some reg =>
      if (String.length inner <? 2)%nat then None else
      match Str.trimStart (Str.drop 2 inner) with
      | String sign rest =>
          let rest := Str.trimStart rest in
          if (Ascii.eqb sign "+" || Ascii.eqb sign "-")
             && negb (String.eqb rest EmptyString) && Str.all_digits rest
          then match Str.parseInt rest with
               | Some n => Some (reg, Num.mul n (if Ascii.eqb sign "+" then 1 else -1))
               | None => None
               end
          else None
      | EmptyString => None
      end
  end.

Definition parseOperand (token : string) (lineNum : Z) : Exception + Operand :=
  let token := if Str.endsWith token "," then Str.reverse (Str.drop 1 (Str.reverse token))
               else token in
  if Str.startsWith token "#" then
    match Str.parseInt (Str.drop 1 token) with
    | None => inl (AsmError lineNum (InvalidImmediateValue token))
    | Some value => inr (OImm value)
    end
  else if Str.startsWith token "[" && Str.endsWith token "]" then
    let inner := Str.reverse (Str.drop 1 (Str.reverse (Str.drop 1 token))) in
    match offsetMatch inner with
    | Some (reg, offset) => inr (OMem (reg_index reg) (Some offset))
    | None =>
        match REGISTERS (Str.toUpperCase inner) with
        | Some reg => inr (OMem (reg_index reg) None)
        | None =>
            match Str.parseInt inner with
            | Some addr => inr (OMem addr None)
            | None => inr (OMemLabel inner)
            end
        end
    end
  else
    match REGISTERS (Str.toUpperCase token) with
    | Some reg => inr (OReg reg)
    | None =>
        match Str.parseInt token with
        | Some num => inr (OImm num)
        | None => inr (OLabel token)
        end
    end.

(** The local variables of [assemble]. *)
Record AsmState := mkAsmState {
  st_ast : list Instruction;
  st_labels : gmap string Z;
  st_dataSection : list Z;          (* Uint8Array(1024) *)
  currentAddress : Z;
  inDataSection : bool;
  dataPtr : Z;
  st_textStart : Z
}.

Definition initial_state : AsmState :=
  mkAsmState [] ∅ (replicate 1024 0) 0 false 0 0.

(** [directive.slice(1).join(' ').split(',').map(v => parseInt(v.trim(), 10))] *)
Definition directive_values (directive : list string) : list (option Z) :=
  (fun v => Str.parseInt (Str.trim v)) <$> Str.split "," (Str.join (tail directive)).

(** [dataSection[dataPtr++] = b]: a write past the end of the typed array
    is dropped. *)
Definition emit_byte (b : Z) (st : AsmState) : AsmState :=
  mkAsmState (st_ast st) (st_labels st)
    (<[Z.to_nat (dataPtr st) := b `mod` 256]> (st_dataSection st))
    (currentAddress st) (inDataSection st) (Num.add (dataPtr st) 1) (st_textStart st).

(** The loop over the values of a [.WORD] ([width = 4]) or [.BYTE]
    ([width = 1]) directive; [None] when a value is [NaN]. *)
Fixpoint emit_values (width : nat) (values : list (option Z)) (st : AsmState)
  : option AsmState :=
  match values with
  | [] => Some st
  | None :: _ => None
  | Some val :: rest =>
      let v := Num.toInt32 val in
      let st' :=
        match width with
        | 1%nat => emit_byte v st
        | _ => emit_byte (v `div` 2 ^ 24)
                 (emit_byte (v `div` 2 ^ 16)
                    (emit_byte (v `div` 2 ^ 8) (emit_byte v st)))
        end in
      emit_values width rest st'
  end.

Definition set_section (data : bool) (st : AsmState) : AsmState :=
  mkAsmState (st_ast st) (st_labels st) (st_dataSection st) (currentAddress st)
    data (dataPtr st) (if data then st_textStart st else currentAddress st).

Definition set_currentAddress (a : Z) (st : AsmState) : AsmState :=
  mkAsmState (st_ast st) (st_labels st) (st_dataSection st) a
    (inDataSection st) (dataPtr st) (st_textStart st).

Definition set_label (name : string) (st : AsmState) : AsmState :=
  mkAsmState (st_ast st)
    (<[name := if inDataSection st then dataPtr st else currentAddress st]> (st_labels st))
    (st_dataSection st) (currentAddress st) (inDataSection st) (dataPtr st)
    (st_textStart st).

Definition push_instruction (i : Instruction) (st : AsmState) : AsmState :=
  mkAsmState (st_ast st ++ [i]) (st_labels st) (st_dataSection st)
    (Num.add (currentAddress st) 1) (inDataSection st) (dataPtr st) (st_textStart st).

(** The [switch (cmd)] of pass 1 on a line that starts with a dot: [None]
    when no [case] matches, so that control falls out of the [if]. *)
Definition pass1_directive (lineNum : Z) (trimmed : string) (st : AsmState)
  : option (Exception + AsmState) :=
  let directive := Str.splitWhitespace trimmed in
  let cmd := Str.toUpperCase (default EmptyString (head directive)) in
  if String.eqb cmd ".DATA" then Some (inr (set_section true st))
  else if String.eqb cmd ".TEXT" then Some (inr (set_section false st))
  else if String.eqb cmd ".ORG" then
    match directive !! 1%nat with
    | None => Some (inl (AsmError lineNum OrgRequiresAddress))
    | Some a =>
        match Str.parseInt a with
        | None => Some (inl (AsmError lineNum InvalidOrgAddress))
        | Some addr => Some (inr (set_currentAddress addr st))
        end
    end
  else if String.eqb cmd ".WORD" then
    if inDataSection st then
      match emit_values 4 (directive_values directive) st with
      | None => Some (inl (AsmError lineNum InvalidWordValue))
      | Some st' => Some (inr st')
      end
    else Some (inr st)
  else if String.eqb cmd ".BYTE" then
    if inDataSection st then
      match emit_values 1 (directive_values directive) st with
      | None => Some (inl (AsmError lineNum InvalidByteValue))
      | Some st' => Some (inr st')
      end
    else Some (inr st)
  else None.

(** The part of the pass-1 loop body after the directives: a line with a
    colon defines a label (and emits the words of a [.WORD] that follows
    it); any other line of the text section becomes an instruction. *)
Definition pass1_label_or_instruction (lineNum : Z) (trimmed : string) (st : AsmState)
  : Exception + AsmState :=
  match Str.cutAtColon trimmed with
  | Some (before, after) =>
      let st1 := set_label (Str.trim before) st in
      let afterColon := Str.trim after in
      if Str.startsWith afterColon "." then
        let directive := Str.splitWhitespace afterColon in
        let cmd := Str.toUpperCase (default EmptyString (head directive)) in
        if String.eqb cmd ".WORD" then
          match emit_values 4 (directive_values directive) st1 with
          | None => inl (AsmError lineNum InvalidWordValue)
          | Some st' => inr st'
          end
        else inr st1
      else inr st1
  | None =>
      if inDataSection st then inr st
      else
        let tokens := Str.splitWhitespace trimmed in
        let opname := Str.toUpperCase (default EmptyString (head tokens)) in
        inr (push_instruction (mkInstruction opname [] lineNum trimmed) st)
  end.

Definition is_blank_or_comment (trimmed : string) : bool :=
  String.eqb trimmed EmptyString || Str.startsWith trimmed ";" || Str.startsWith trimmed "//".

Definition pass1_line (lineNum : Z) (line : string) (st : AsmState)
  : Exception + AsmState :=
  let trimmed := Str.trim line in
  if is_blank_or_comment trimmed then inr st
  else
    match (if Str.startsWith trimmed "." then pass1_directive lineNum trimmed st
           else None) with
    | Some r => r
    | None => pass1_label_or_instruction lineNum trimmed st
    end.

Fixpoint pass1 (ls : list string) (lineNum : Z) (st : AsmState) : Exception + AsmState :=
  match ls with
  | [] => inr st
  | l :: rest =>
      match pass1_line lineNum l st with
      | inl e => inl e
      | inr st' => pass1 rest (lineNum + 1) st'
      end
  end.

(** The test of pass 2 that decides which lines are skipped. *)
Definition pass2_skips (trimmed : string) : bool :=
  is_blank_or_comment trimmed || Str.startsWith trimmed "." || Str.endsWith trimmed ":".

Fixpoint parseOperands (tokens : list string) (lineNum : Z) : Exception + list Operand :=
  match tokens with
  | [] => inr []
  | t :: rest =>
      match parseOperand t lineNum with
      | inl e => inl e
      | inr o =>
          match parseOperands rest lineNum with
          | inl e => inl e
          | inr os => inr (o :: os)
          end
      end
  end.

(** [ast[astIndex].operands = operands] *)
Definition set_operands (a : list Instruction) (astIndex : nat) (ops : list Operand)
  : option (list Instruction) :=
  match a !! astIndex with
  | None => None
  | Some i => Some (<[astIndex := mkInstruction (op i) ops (line i) (source i)]> a)
  end.

Fixpoint pass2 (ls : list string) (lineNum : Z) (astIndex : nat) (a : list Instruction)
  : Exception + list Instruction :=
  match ls with
  | [] => inr a
  | l :: rest =>
      let trimmed := Str.trim l in
      if pass2_skips trimmed then pass2 rest (lineNum + 1) astIndex a
      else
        match parseOperands (tail (Str.splitWhitespace trimmed)) lineNum with
        | inl e => inl e
        | inr ops =>
            match set_operands a astIndex ops with
            | None => inl HostTypeError
            | Some a' => pass2 rest (lineNum + 1) (S astIndex) a'
            end
        end
  end.

Definition assemble (source : string) : Exception + Program :=
  let ls := Str.split "010" source in
  match pass1 ls 1 initial_state with
  | inl e => inl e
  | inr st =>
      match pass2 ls 1 0 (st_ast st) with
      | inl e => inl e
      | inr a =>
          inr (mkProgram ls a (st_labels st) (st_dataSection st) (st_textStart st))
      end
  end.

(** ** Memory utilities: [checkBounds], [writeString], [readString],
    [getStackView] *)

Module Memory.

(** [checkBounds(addr, size, ramSize)]: [false] when it throws. *)
Definition checkBounds (addr size ramSize : Z) : bool :=
  negb ((addr <? 0) || (ramSize <? Num.add addr size)).

(** [ram.setUint8(byteOffset, value)]: [None] is a [RangeError]. *)
Definition setUint8 (ram : list Z) (byteOffset : option Z) (value : Z) : option (list Z) :=
  i ← DataView.ToIndex byteOffset;
  if DataView.byteLength ram <? i + 1 then None
  else Some (<[Z.to_nat i := value `mod` 256]> ram).

(** How [writeString] ends: normally, by the error of [checkBounds] (before
    any write), or by a [RangeError] of the view with the memory as the
    writes so far left it. *)
Inductive WriteResult :=
  | Written (ram : list Z)
  | OutOfBounds (addr size : Z)
  | ViewRangeError (ram : list Z).

(** The loop [for (i = 0; i < str.length; i++) ram.setUint8(addr + i, ...)]
    from index [i] on, then the null terminator. *)
Fixpoint writeChars (ram : list Z) (addr : Z) (i : Z) (codes : list Z) : WriteResult :=
  match codes with
  | [] =>
      match setUint8 ram (Some (Num.add addr i)) 0 with
      | Some ram' => Written ram'
      | None => ViewRangeError ram
      end
  | c :: rest =>
      match setUint8 ram (Some (Num.add addr i)) c with
      | Some ram' => writeChars ram' addr (i + 1) rest
      | None => ViewRangeError ram
      end
  end.

(** [writeString(ram, addr, str)]; [str] is the list of the character codes
    [str.charCodeAt(i)]. *)
Definition writeString (ram : list Z) (addr : Z) (str : list Z) : WriteResult :=
  let size := Num.add (Z.of_nat (length str)) 1 in
  if checkBounds addr size RAM_SIZE then writeChars ram addr 0 str
  else OutOfBounds addr size.

(** The loop of [readString] from index [i] on, with [n] turns left before
    [i] reaches [maxLength]; [None] is a [RangeError]. *)
Fixpoint readChars (ram : list Z) (addr : Z) (i : Z) (n : nat) : option (list Z) :=
  match n with
  | O => Some []
  | S n' =>
      if Num.add addr i <? DataView.byteLength ram then
        byte ← DataView.getUint8 ram (Some (Num.add addr i));
        if byte =? 0 then Some []
        else rest ← readChars ram addr (i + 1) n'; Some (byte :: rest)
      else Some []
  end.

(** [readString(ram, addr, maxLength)], as the list of character codes. *)
Definition readString (ram : list Z) (addr : Z) (maxLength : Z) : option (list Z) :=
  readChars ram addr 0 (Z.to_nat maxLength).

(** The loop of [getStackView] from index [i] on, with [n] turns left. *)
Fixpoint stackEntries (ram : list Z) (sp : Z) (i : Z) (n : nat) : list (Z * Z) :=
  match n with
  | O => []
  | S n' =>
      let addr := Num.add sp (Num.mul i 4) in
      if DataView.byteLength ram <=? addr then []
      else match DataView.getInt32 ram (Some addr) with
           | Some value => (addr, value) :: stackEntries ram sp (i + 1) n'
           | None => []
           end
  end.

(** [getStackView(ram, sp, count)]: the list of [{addr, value}]. *)
Definition getStackView (ram : list Z) (sp : Z) (count : Z) : list (Z * Z) :=
  stackEntries ram sp 0 (Z.to_nat count).

(** ** The memory dump: [toHex], [toHex8], [getMemoryDump] *)

(** One digit of [Number.prototype.toString(16)]. *)
Definition hex_digit (d : Z) : ascii :=
  if d <? 10 then ascii_of_nat (48 + Z.to_nat d) else ascii_of_nat (87 + Z.to_nat d).

(** The base-16 digits of a natural number, most significant first, put in
    front of [acc]; [fuel] bounds the number of digits. *)
Fixpoint digits16 (fuel : nat) (n : Z) (acc : string) : string :=
  match fuel with
  | O => acc
  | S fuel' =>
      let acc' := String (hex_digit (n `mod` 16)) acc in
      if n `div` 16 =? 0 then acc' else digits16 fuel' (n `div` 16) acc'
  end.

(** [value.toString(16)] for an integer [value]: a minus sign and the
    digits of the magnitude when [value] is negative. *)
Definition toString16 (value : Z) : string :=
  let magnitude := Z.abs value in
  let digits := digits16 (S (Z.to_nat (Z.log2 magnitude))) magnitude EmptyString in
  if value <? 0 then String "-" digits else digits.

Fixpoint repeat_char (n : nat) (c : ascii) : string :=
  match n with
  | O => EmptyString
  | S n' => String c (repeat_char n' c)
  end.

(** [s.padStart(targetLength, '0')] *)
Definition padStart (s : string) (targetLength : nat) : string :=
  (repeat_char (targetLength - String.length s) "0" ++ s)%string.

(** [toHex(value, padding)] *)
Definition toHex (value : Z) (padding : nat) : string :=
  ("0x" ++ padStart (Str.toUpperCase (toString16 value)) padding)%string.

(** [toHex8(value)] *)
Definition toHex8 (value : Z) : string :=
  padStart (Str.toUpperCase (toString16 value)) 2.

(** [(byte >= 32 && byte <= 126) ? String.fromCharCode(byte) : '.'] *)
Definition printable (byte : Z) : string :=
  if (32 <=? byte) && (byte <=? 126)
  then String (ascii_of_nat (Z.to_nat byte)) EmptyString
  else ".".

(** The inner loop of [getMemoryDump] from index [j] on, with [n] turns
    left before [j] reaches [bytesPerLine]; it returns [line] and [ascii],
    and [None] is a [RangeError]. *)
Fixpoint dumpRow (ram : list Z) (addr : Z) (j : Z) (n : nat) (line ascii : string)
  : option (string * string) :=
  match n with
  | O => Some (line, ascii)
  | S n' =>
      if Num.add addr j <? DataView.byteLength ram then
        byte ← DataView.getUint8 ram (Some (Num.add addr j));
        dumpRow ram addr (j + 1) n'
          (line ++ (toHex8 byte ++ " "))%string (ascii ++ printable byte)%string
      else Some (line, ascii)
  end.

(** [while (line.length < 7 + bytesPerLine * 3) line += ' '] *)
Definition padHex (line : string) : string :=
  (line ++ repeat_char (55 - String.length line) " ")%string.

(** The outer loop of [getMemoryDump] from [i] on; [fuel] bounds the number
    of turns. *)
Fixpoint dumpLines (ram : list Z) (start length : Z) (i : Z) (fuel : nat)
  : option (list string) :=
  match fuel with
  | O => Some []
  | S fuel' =>
      if i <? length then
        let addr := Num.add start i in
        if DataView.byteLength ram <=? addr then Some []
        else
          row ← dumpRow ram addr 0 16 (toHex addr 4 ++ ": ")%string EmptyString;
          rest ← dumpLines ram start length (Num.add i 16) fuel';
          Some ((padHex row.1 ++ " |" ++ row.2 ++ "|")%string :: rest)
      else Some []
  end.

(** [getMemoryDump(ram, start, length)]: the lines, or [None] for a
    [RangeError].  The loop makes at most [length] turns. *)
Definition getMemoryDump (ram : list Z) (start length : Z) : option (list string) :=
  dumpLines ram start length 0 (Z.to_nat length).

End Memory.

(** ** The runner component: loading the data image, selecting the line of
    an error *)

Module AsmRunner.

(** The loop of [handleAssemble] from index [i] on:
    [for (i = 0; i < dataSection.length; i++) newRam.setUint8(i, dataSection[i])];
    [bytes] is what is left of [dataSection]. *)
Fixpoint copyData (ram : list Z) (i : Z) (bytes : list Z) : option (list Z) :=
  match bytes with
  | [] => Some ram
  | b :: rest => ram' ← Memory.setUint8 ram (Some i) b; copyData ram' (i + 1) rest
  end.

(** The memory that [handleAssemble] builds for an assembled program. *)
Definition initialRAM (p : Program) : option (list Z) :=
  copyData createRAM 0 (dataSection p).

(** The loop of [highlightErrorLine]:
    [for (i = 0; i < lineNum - 1 && i < lines.length; i++) charPos += lines[i].length + 1],
    with [n] turns left.  String lengths and their sums are far below 2^53,
    so the additions are exact. *)
Fixpoint lineOffset (lines : list string) (n : nat) (charPos : Z) : Z :=
  match n, lines with
  | S n', l :: rest => lineOffset rest n' (charPos + Z.of_nat (String.length l) + 1)
  | _, _ => charPos
  end.

(** The two arguments of [setSelectionRange] in [highlightErrorLine]:
    [charPos] and [charPos + (lines[lineNum - 1]?.length || 0)]. *)
Definition errorSelection (code : string) (lineNum : Z) : Z * Z :=
  let lines := Str.split "010" code in
  let charPos := lineOffset lines (Z.to_nat (lineNum - 1)) 0 in
  let len :=
    if lineNum - 1 <? 0 then 0
    else from_option (fun l => Z.of_nat (String.length l)) 0
           (lines !! Z.to_nat (lineNum - 1)) in
  (charPos, charPos + len).

End AsmRunner.

(** ** Deep equality of test results: [deepEqual] *)

Module Deep.

(** The values compared: the JSON-like results of test runs.  A number is
    an integer or [NaN]; an array is the list of its elements; an object is
    the list of its own enumerable properties in insertion order (keys
    without repetition).  Two arrays or objects are always distinct
    references: [===] between them is [false]. *)
Local Unset Elimination Schemes.
Inductive Value :=
  | Undefined
  | Null
  | Boolean (b : bool)
  | Number (n : Z)
  | NaN
  | Text (s : string)
  | Array (items : list Value)
  | Object (props : list (string * Value)).
Local Set Elimination Schemes.

Inductive Typeof := t_undefined | t_object | t_boolean | t_number | t_string.

Definition typeof (v : Value) : Typeof :=
  match v with
  | Undefined => t_undefined
  | Null | Array _ | Object _ => t_object
  | Boolean _ => t_boolean
  | Number _ | NaN => t_number
  | Text _ => t_string
  end.

Definition typeof_eqb (s t : Typeof) : bool :=
  match s, t with
  | t_undefined, t_undefined | t_object, t_object | t_boolean, t_boolean
  | t_number, t_number | t_string, t_string => true
  | _, _ => false
  end.

(** [Number.isNaN(v)] *)
Definition isNaN (v : Value) : bool :=
  match v with NaN => true | _ => false end.

(** [a === b] *)
Definition strictEquals (a b : Value) : bool :=
  match a, b with
  | Undefined, Undefined | Null, Null => true
  | Boolean x, Boolean y => Bool.eqb x y
  | Number x, Number y => x =? y
  | Text x, Text y => String.eqb x y
  | _, _ => false
  end.

(** [v == null] *)
Definition nullish (v : Value) : bool :=
  match v with Undefined | Null => true | _ => false end.

(** The own enumerable properties: for an array, its elements under their
    indices written in decimal. *)
Definition properties (v : Value) : list (string * Value) :=
  match v with
  | Array items => imap (fun i x => (pretty i, x)) items
  | Object props => props
  | _ => []
  end.

(** [Object.keys(v)] *)
Definition keys (v : Value) : list string := fst <$> properties v.

(** [v[key]] *)
Definition get (v : Value) (key : string) : Value :=
  default Undefined (snd <$> find (fun p => String.eqb (fst p) key) (properties v)).

(** [keysB.includes(key)] *)
Definition includes (ks : list string) (key : string) : bool :=
  existsb (String.eqb key) ks.

(** [deepEqual(a, b)]; [nanAware] tells whether the copy starts with the
    line [if (Number.isNaN(a) && Number.isNaN(b)) return true]: the copy of
    the utility module does, the copies inside the runners do not.  The
    object loop visits the properties of [a] in order; [a[key]] is the value
    stored with the key. *)
Fixpoint deepEqualWith (nanAware : bool) (a b : Value) {struct a} : bool :=
  if nanAware && isNaN a && isNaN b then true
  else if strictEquals a b then true
  else if nullish a || nullish b then strictEquals a b
  else if negb (typeof_eqb (typeof a) (typeof b)) then false
  else
    match a, b with
    | Array xs, Array ys =>
        if negb (length xs =? length ys)%nat then false
        else
          (fix loop (xs ys : list Value) {struct xs} : bool :=
             match xs, ys with
             | x :: xs', y :: ys' =>
                 if negb (deepEqualWith nanAware x y) then false else loop xs' ys'
             | x :: xs', [] =>
                 if negb (deepEqualWith nanAware x Undefined) then false else loop xs' []
             | [], _ => true
             end) xs ys
    | Array xs, Object _ =>
        let keysB := keys b in
        if negb (length xs =? length keysB)%nat then false
        else
          (fix loop (i : nat) (xs : list Value) {struct xs} : bool :=
             match xs with
             | [] => true
             | x :: xs' =>
                 if negb (includes keysB (pretty i)) then false
                 else if negb (deepEqualWith nanAware x (get b (pretty i))) then false
                 else loop (S i) xs'
             end) 0%nat xs
    | Object ps, (Array _ | Object _) =>
        let keysB := keys b in
        if negb (length ps =? length keysB)%nat then false
        else
          (fix loop (ps : list (string * Value)) {struct ps} : bool :=
             match ps with
             | [] => true
             | (key, x) :: ps' =>
                 if negb (includes keysB key) then false
                 else if negb (deepEqualWith nanAware x (get b key)) then false
                 else loop ps'
             end) ps
    | _, _ => false
    end.

(** [deepEqual] of the utility module. *)
Definition deepEqual : Value -> Value -> bool := deepEqualWith true.

(** [deepEqual] as the runners (JavaScript worker, JavaScript runner,
    Python runner) define it. *)
Definition deepEqualWorker : Value -> Value -> bool := deepEqualWith false.



(** Objects hold each key once, at every depth. *)
Fixpoint well_formed (v : Value) : Prop :=
  match v with
  | Array xs =>
      (fix all (xs : list Value) : Prop :=
         match xs with [] => True | x :: xs' => well_formed x /\ all xs' end) xs
  | Object ps =>
      NoDup (fst <$> ps)
      /\ (fix all (ps : list (string * Value)) : Prop :=
            match ps with [] => True | p :: ps' => well_formed (snd p) /\ all ps' end) ps
  | _ => True
  end.

(** No [NaN] at any depth. *)
Fixpoint nan_free (v : Value) : Prop :=
  match v with
  | NaN => False
  | Array xs =>
      (fix all (xs : list Value) : Prop :=
         match xs with [] => True | x :: xs' => nan_free x /\ all xs' end) xs
  | Object ps =>
      (fix all (ps : list (string * Value)) : Prop :=
         match ps with [] => True | p :: ps' => nan_free (snd p) /\ all ps' end) ps
  | _ => True
  end.

(** No object at any depth: primitives and arrays of such. *)
Fixpoint object_free (v : Value) : Prop :=
  match v with
  | Object _ => False
  | Array xs =>
      (fix all (xs : list Value) : Prop :=
         match xs with [] => True | x :: xs' => object_free x /\ all xs' end) xs
  | _ => True
  end.

Section ValueInduction.
Context (P : Value -> Prop).
Context (H_undefined : P Undefined) (H_null : P Null)
        (H_boolean : forall b, P (Boolean b)) (H_number : forall n, P (Number n))
        (H_nan : P NaN) (H_text : forall s, P (Text s))
        (H_array : forall xs, Forall P xs -> P (Array xs))
        (H_object : forall ps, Forall (fun p => P (snd p)) ps -> P (Object ps)).

Fixpoint Value_induction (v : Value) : P v :=
  match v with
  | Undefined => H_undefined
  | Null => H_null
  | Boolean b => H_boolean b
  | Number n => H_number n
  | NaN => H_nan
  | Text s => H_text s
  | Array xs =>
      H_array xs
        ((fix all (xs : list Value) : Forall P xs :=
            match xs with
            | [] => @List.Forall_nil _ P
            | x :: xs' => @List.Forall_cons _ P x xs' (Value_induction x) (all xs')
            end) xs)
  | Object ps =>
      H_object ps
        ((fix all (ps : list (string * Value)) : Forall (fun p => P (snd p)) ps :=
            match ps with
            | [] => @List.Forall_nil _ (fun p => P (snd p))
            | p :: ps' => @List.Forall_cons _ (fun p => P (snd p)) p ps' (Value_induction (snd p)) (all ps')
            end) ps)
  end.
End ValueInduction.

Definition composite (v : Value) : bool :=
  match v with Array _ | Object _ => true | _ => false end.

Definition both_arrays (a b : Value) : bool :=
  match a, b with Array _, Array _ => true | _, _ => false end.

(** The test of one property of [a] against [b] in the object loop. *)
Definition property_matches (f : bool) (b : Value) (p : string * Value) : bool :=
  includes (keys b) p.1 && deepEqualWith f p.2 (get b p.1).

(** What the induction gives for the parts of a value. *)
Definition symmetric_at (f : bool) (x : Value) : Prop :=
  forall y, well_formed x -> well_formed y ->
            deepEqualWith f x y = true -> deepEqualWith f y x = true.

End Deep.

(** * Notions used in the statements *)

Definition logic_opcodes : list string := ["AND"; "OR"; "XOR"; "NOT"; "SHL"; "SHR"]%string.

(** The address at which a memory operand is accessed, as [resolveOperand]
    and the STORE case compute it. *)
Definition effective_address (program : Program) (cpu : CPU) (operand : Operand)
  : option Z :=
  match operand with
  | OMem v off => mem_address cpu v off
  | OMemLabel name => labels program !! name
  | _ => None
  end.

(** The little-endian signed word made of the bytes at [a .. a+3]. *)
Definition word_at (ram : list Z) (a : Z) : Z :=
  Num.toInt32 (ram !!! Z.to_nat a + ram !!! Z.to_nat (a + 1) * 2 ^ 8
               + ram !!! Z.to_nat (a + 2) * 2 ^ 16 + ram !!! Z.to_nat (a + 3) * 2 ^ 24).

(** The exact integer that an arithmetic instruction computes, before any
    rounding or reduction: sum, difference, product, floored quotient. *)
Definition exact_result (program : Program) (o : Opcode) (ops : list Operand)
    (cpu : CPU) (ram : list Z) : option Z :=
  match o, ops with
  | INC, [OReg r] => Some (read_reg cpu r + 1)
  | DEC, [OReg r] => Some (read_reg cpu r - 1)
  | (ADD | SUB | MUL | DIV), [OReg r; s] =>
      match resolveOperand program s cpu ram with
      | inr src =>
          match o with
          | ADD => Some (read_reg cpu r + src)
          | SUB => Some (read_reg cpu r - src)
          | MUL => Some (read_reg cpu r * src)
          | _ => if src =? 0 then None else Some (read_reg cpu r `div` src)
          end
      | inl _ => None
      end
  | _, _ => None
  end.

Definition fits_int32 (x : Z) : Prop := - 2 ^ 31 <= x <= 2 ^ 31 - 1.

Definition arithmetic_opcodes : list Opcode := [ADD; SUB; MUL; DIV; INC; DEC].

(** The part of the state that no throwing instruction touches. *)
Definition same_but_SP_CF (cpu cpu' : CPU) : Prop :=
  R cpu' = R cpu /\ BP cpu' = BP cpu /\ IP cpu' = IP cpu /\ halted cpu' = halted cpu
  /\ ZF (F cpu') = ZF (F cpu) /\ NF (F cpu') = NF (F cpu) /\ OF (F cpu') = OF (F cpu).

(** How far SP may have moved when the instruction [o] throws. *)
Definition SP_after_throw (o : option Opcode) (cpu cpu' : CPU) : Prop :=
  match o with
  | Some PUSH | Some CALL => SP cpu' = SP cpu \/ SP cpu' = Num.sub (SP cpu) 4
  | Some POP => True
  | _ => SP cpu' = SP cpu
  end.

(** [iterates n cpu ram c m]: [n] turns of the loop of [run], started on
    [cpu] and [ram], lead to the loop head with [c] and [m]. *)
Inductive iterates (program : Program) (breakpoints : gset Z)
  : nat -> CPU -> list Z -> CPU -> list Z -> Prop :=
  | iterates_O cpu ram : iterates program breakpoints 0 cpu ram cpu ram
  | iterates_S n cpu ram cpu1 ram1 c m :
      halted cpu = false ->
      IP cpu ∉ breakpoints ->
      step program cpu ram = Ok cpu1 ram1 ->
      iterates program breakpoints n cpu1 ram1 c m ->
      iterates program breakpoints (S n) cpu ram c m.

(** POP with one operand, and RET. *)
Definition pops (i : Instruction) : Prop :=
  op i = "RET"%string \/ (op i = "POP"%string /\ length (operands i) = 1%nat).

Definition newline : string := String "010" EmptyString.

(** A data section with a labelled [.WORD] line, and a text section with
    one instruction and a directive that pass 1 does not know. *)
Definition labelled_data_source : string :=
  ".DATA" ++ newline ++
  "nums: .WORD 1, 2, 3" ++ newline ++
  ".TEXT" ++ newline ++
  "HALT" ++ newline ++
  ".END".

(** The first lines of the sum-array sample, cut after its first
    instruction. *)
Definition sum_array_head : string :=
  ".DATA" ++ newline ++
  "array: .WORD 1, 2, 3, 4, 5" ++ newline ++
  "count: .WORD 5" ++ newline ++
  ".TEXT" ++ newline ++
  "    MOV R1, array".

(** The relation that each conditional jump is meant to test after
    [CMP a, b]. *)
Definition branch_relation (o : Opcode) (a b : Z) : bool :=
  match o with
  | JZ => a =? b
  | JNZ => negb (a =? b)
  | JG => b <? a
  | JGE => b <=? a
  | JL => a <? b
  | JLE => a <=? b
  | _ => false
  end.

Definition compare_jumps : list Opcode := [JZ; JNZ; JG; JGE; JL; JLE].

Definition all_jumps : list Opcode := [JMP; JZ; JNZ; JC; JNC; JG; JGE; JL; JLE].

(** The token [[Rk]]. *)
Definition bracketed_register (k : fin 8) : string :=
  String "[" (String "R" (String (ascii_of_nat (48 + fin_to_nat k)) (String "]" EmptyString))).

Definition move_opcodes : list Opcode := [MOV; LOAD].

(** What pass 1 records in a skeleton made from the line numbered
    [lineNum]. *)
Definition skeleton_of (lineNum : Z) (l : string) : Instruction :=
  mkInstruction
    (Str.toUpperCase (default EmptyString (head (Str.splitWhitespace (Str.trim l)))))
    [] lineNum (Str.trim l).

(** The messages that [assemble] itself writes. *)
Definition assembler_message (m : Message) : Prop :=
  match m with
  | InvalidImmediateValue _ | OrgRequiresAddress | InvalidOrgAddress
  | InvalidWordValue | InvalidByteValue => True
  | _ => False
  end.

(** PUSH and CALL with one operand. *)
Definition pushes (i : Instruction) : Prop :=
  (op i = "PUSH"%string \/ op i = "CALL"%string) /\ length (operands i) = 1%nat.

(** What a [DataView] or a [Uint8Array] holds. *)
Definition is_byte (b : Z) : Prop := 0 <= b < 256.

Definition hex_digit_value (c : ascii) : option Z :=
  let n := nat_of_ascii c in
  if ((48 <=? n) && (n <=? 57))%nat then Some (Z.of_nat n - 48)
  else if ((65 <=? n) && (n <=? 70))%nat then Some (Z.of_nat n - 55)
  else None.

Fixpoint hex_value_from (s : string) (acc : Z) : option Z :=
  match s with
  | EmptyString => Some acc
  | String c s' => d ← hex_digit_value c; hex_value_from s' (16 * acc + d)
  end.

(** The number that an upper-case hexadecimal numeral denotes; [None] for
    the empty string and for a string with any other character. *)
Definition hex_value (s : string) : option Z :=
  match s with
  | EmptyString => None
  | _ => hex_value_from s 0
  end.

(** The hexadecimal and the character column of a row of the dump. *)
Fixpoint hex_column (bytes : list Z) : string :=
  match bytes with
  | [] => EmptyString
  | b :: rest => ((Memory.toHex8 b ++ " ") ++ hex_column rest)%string
  end.

Fixpoint char_column (bytes : list Z) : string :=
  match bytes with
  | [] => EmptyString
  | b :: rest => (Memory.printable b ++ char_column rest)%string
  end.

(** The line of the dump that shows [bytes] at [addr]. *)
Definition dump_line (addr : Z) (bytes : list Z) : string :=
  (Memory.padHex ((Memory.toHex addr 4 ++ ": ") ++ hex_column bytes)
   ++ " |" ++ char_column bytes ++ "|")%string.

(** * Properties *)

Arguments Num.fl : simpl never.
Arguments Num.toInt32 : simpl never.
Arguments Num.floor_div : simpl never.
Arguments DataView.getInt32 : simpl never.
Arguments DataView.setInt32 : simpl never.
Arguments DataView.getUint8 : simpl never.

(** ** Arithmetic of the number model *)

Lemma toInt32_range z : - 2 ^ 31 <= Num.toInt32 z < 2 ^ 31.
Proof. unfold Num.toInt32. pose proof (Z.mod_pos_bound (z + 2 ^ 31) (2 ^ 32)). lia. Qed.

Lemma toInt32_id z : - 2 ^ 31 <= z < 2 ^ 31 -> Num.toInt32 z = z.
Proof. intros H. unfold Num.toInt32. rewrite Z.mod_small; lia. Qed.

(** Integers of magnitude below 2^53 are doubles. *)
Lemma fl_small z : Z.abs z < 2 ^ 53 -> Num.fl z = z.
Proof.
  intros H. unfold Num.fl.
  destruct (Z.eq_dec z 0) as [->|Hz]; [reflexivity|].
  assert (Z.log2 (Z.abs z) < 53) by (apply Z.log2_lt_pow2; lia).
  destruct (Z.leb_spec (Z.log2 (Z.abs z) - 52) 0); [reflexivity | lia].
Qed.

Lemma rne_lower n d : 0 <= n -> 0 < d -> n `div` d <= Num.rne n d.
Proof. intros. unfold Num.rne. repeat case_match; lia. Qed.

(** Rounding keeps the sign and does not bring a large number below 2^53. *)
Lemma fl_large z : 2 ^ 53 <= Z.abs z -> 2 ^ 53 <= Z.sgn z * Num.fl z.
Proof.
  intros H. unfold Num.fl.
  set (a := Z.abs z) in *.
  assert (Ha : 0 < a) by lia.
  assert (Hl : 53 <= Z.log2 a) by (apply Z.log2_le_pow2; lia).
  destruct (Z.leb_spec (Z.log2 a - 52) 0); [lia|].
  set (e := Z.log2 a - 52) in *.
  pose proof (Z.log2_spec a Ha) as [Hlo _].
  assert (Hp : 2 ^ Z.log2 a = 2 ^ 52 * 2 ^ e).
  { rewrite <- Z.pow_add_r by lia. f_equal. lia. }
  assert (He : 0 < 2 ^ e) by (apply Z.pow_pos_nonneg; lia).
  assert (2 ^ 52 <= a `div` 2 ^ e).
  { apply Z.div_le_lower_bound; lia. }
  pose proof (rne_lower a (2 ^ e) ltac:(lia) He).
  assert (2 <= 2 ^ e).
  { change 2 with (2 ^ 1) at 1. apply Z.pow_le_mono_r; lia. }
  assert (Hs : Z.sgn z * Z.sgn z = 1) by (subst a; lia).
  replace (Z.sgn z * (Z.sgn z * (Num.rne a (2 ^ e) * 2 ^ e)))
    with ((Z.sgn z * Z.sgn z) * (Num.rne a (2 ^ e) * 2 ^ e)) by lia.
  rewrite Hs. nia.
Qed.

(** Comparisons with a bound below 2^53 see through the rounding. *)
Lemma fl_lt_iff z c : Z.abs c < 2 ^ 53 -> (Num.fl z < c <-> z < c).
Proof.
  intros Hc. destruct (Z.lt_ge_cases (Z.abs z) (2 ^ 53)) as [Hz|Hz].
  - rewrite fl_small by lia. reflexivity.
  - pose proof (fl_large z Hz). split; intros; destruct (Z.sgn_spec z) as [[? Hs]|[[? Hs]|[? Hs]]];
      rewrite Hs in *; lia.
Qed.

Lemma fl_gt_iff z c : Z.abs c < 2 ^ 53 -> (c < Num.fl z <-> c < z).
Proof.
  intros Hc. destruct (Z.lt_ge_cases (Z.abs z) (2 ^ 53)) as [Hz|Hz].
  - rewrite fl_small by lia. reflexivity.
  - pose proof (fl_large z Hz). split; intros; destruct (Z.sgn_spec z) as [[? Hs]|[[? Hs]|[? Hs]]];
      rewrite Hs in *; lia.
Qed.

(** ** Words in memory *)

Lemma bytes_compose w :
  DataView.byte_of w 0 + DataView.byte_of w 1 * 2 ^ 8
  + DataView.byte_of w 2 * 2 ^ 16 + DataView.byte_of w 3 * 2 ^ 24 = w `mod` 2 ^ 32.
Proof.
  unfold DataView.byte_of. simpl Z.mul.
  change (2 ^ 0) with 1. change (2 ^ 8) with 256. change (2 ^ 16) with 65536.
  change (2 ^ 24) with 16777216. change (2 ^ 32) with 4294967296.
  Z.div_mod_to_equations. lia.
Qed.

Lemma toInt32_mod w : Num.toInt32 (w `mod` 2 ^ 32) = Num.toInt32 w.
Proof.
  unfold Num.toInt32.
  rewrite Z.add_mod_idemp_l by lia. reflexivity.
Qed.

Lemma setInt32_length ram a v ram' :
  DataView.setInt32 ram a v = Some ram' -> length ram' = length ram.
Proof.
  unfold DataView.setInt32. cbv zeta. intros H.
  destruct (DataView.ToIndex a); simpl in H; [|discriminate].
  case_match; simplify_eq. by rewrite !length_insert.
Qed.

(** A store succeeds exactly inside the view. *)
Lemma setInt32_in_view ram a v :
  0 <= a -> a + 4 <= DataView.byteLength ram ->
  exists ram', DataView.setInt32 ram (Some a) v = Some ram'.
Proof.
  intros H0 H1. unfold DataView.setInt32, DataView.ToIndex.
  destruct (Z.ltb_spec a 0); [lia|]. simpl.
  destruct (Z.ltb_spec (DataView.byteLength ram) (a + 4)); [lia|]. eauto.
Qed.

(** The four bytes of a store, least significant first. *)
Lemma setInt32_bytes ram a v ram' (k : Z) :
  DataView.setInt32 ram (Some a) v = Some ram' -> 0 <= k < 4 ->
  ram' !! Z.to_nat (a + k) = Some (DataView.byte_of (Num.toInt32 v) k).
Proof.
  unfold DataView.setInt32, DataView.ToIndex, DataView.byteLength. cbv zeta. intros H Hk.
  destruct (Z.ltb_spec a 0); [discriminate|]. simpl in H.
  destruct (Z.ltb_spec (Z.of_nat (length ram)) (a + 4)); simplify_eq.
  assert (k = 0 \/ k = 1 \/ k = 2 \/ k = 3) as [-> | [-> | [-> | ->]]] by lia;
    rewrite ?Z.add_0_r;
    repeat (rewrite list_lookup_insert_ne by lia);
    rewrite list_lookup_insert_eq by (rewrite ?length_insert; lia); reflexivity.
Qed.

(** A word read at the place of a store gives the stored word. *)
Lemma getInt32_setInt32 ram a v ram' :
  DataView.setInt32 ram (Some a) v = Some ram' ->
  DataView.getInt32 ram' (Some a) = Some (Num.toInt32 v).
Proof.
  intros H. pose proof (setInt32_length _ _ _ _ H) as Hlen.
  pose proof (setInt32_bytes _ _ _ _ 0 H ltac:(lia)) as E0.
  pose proof (setInt32_bytes _ _ _ _ 1 H ltac:(lia)) as E1.
  pose proof (setInt32_bytes _ _ _ _ 2 H ltac:(lia)) as E2.
  pose proof (setInt32_bytes _ _ _ _ 3 H ltac:(lia)) as E3.
  rewrite Z.add_0_r in E0.
  unfold DataView.setInt32, DataView.getInt32, DataView.ToIndex in *.
  destruct (Z.ltb_spec a 0); [discriminate|]. simpl in *.
  unfold DataView.byteLength in *. rewrite Hlen.
  destruct (Z.ltb_spec (Z.of_nat (length ram)) (a + 4)); [discriminate|].
  rewrite E0, E1, E2, E3. simpl.
  rewrite bytes_compose, toInt32_mod.
  f_equal. apply toInt32_id, toInt32_range.
Qed.

(** A store changes no byte outside its four. *)
Lemma setInt32_other ram a v ram' (j : nat) :
  DataView.setInt32 ram (Some a) v = Some ram' ->
  (Z.of_nat j < a \/ a + 4 <= Z.of_nat j) -> ram' !! j = ram !! j.
Proof.
  unfold DataView.setInt32, DataView.ToIndex. cbv zeta. intros H Hj.
  destruct (Z.ltb_spec a 0); [discriminate|]. simpl in H.
  case_match; simplify_eq.
  do 4 (rewrite list_lookup_insert_ne by lia). reflexivity.
Qed.

(** ** Reaching the [switch] *)

Lemma fetch_in_range program cpu i :
  fetch program cpu = Some i -> 0 <= IP cpu < Z.of_nat (length (ast program)).
Proof.
  unfold fetch. destruct (Z.ltb_spec (IP cpu) 0); [discriminate|].
  intros Hlt%lookup_lt_Some. lia.
Qed.

Lemma step_running program cpu ram i :
  halted cpu = false -> fetch program cpu = Some i ->
  step program cpu ram = conclude i (dispatch program i cpu ram).
Proof.
  intros Hh Hf. pose proof (fetch_in_range _ _ _ Hf). unfold step.
  rewrite Hh, Hf. simpl.
  destruct (Z.leb_spec (Z.of_nat (length (ast program))) (IP cpu)); [lia | reflexivity].
Qed.

(** ** The logic opcodes *)

(** C2 (refuted on the code): an instruction whose opcode is AND, OR, XOR,
    NOT, SHL or SHR has no [case] in [step]; executing it performs no logic
    operation and raises the unknown-instruction error, with the CPU and the
    memory as they were. *)
Theorem logic_opcode_is_unknown program cpu ram i :
  halted cpu = false ->
  fetch program cpu = Some i ->
  In (op i) logic_opcodes ->
  step program cpu ram = Raise (AsmError (line i) (UnknownInstruction (op i))) cpu ram.
Proof.
  intros Hh Hf Hop. rewrite (step_running _ _ _ _ Hh Hf).
  unfold dispatch.
  simpl in Hop.
  destruct Hop as [<-|[<-|[<-|[<-|[<-|[<-|[]]]]]]]; reflexivity.
Qed.

(** The masking instruction of the reverse-string sample, [AND R2, #255]. *)
Lemma logic_opcode_is_unknown_witness :
  step (program_of [instr "AND" [OReg (GP 2%fin); OImm 255] 12]) reset createRAM
  = Raise (AsmError 12 (UnknownInstruction "AND")) reset createRAM.
Proof.
  apply (logic_opcode_is_unknown
           (program_of [instr "AND" [OReg (GP 2%fin); OImm 255] 12]) reset createRAM
           (instr "AND" [OReg (GP 2%fin); OImm 255] 12)).
  - reflexivity.
  - reflexivity.
  - simpl. left. reflexivity.
Defined.

(** ** The store at 4090 *)

(** C3 (counterexample): on the 4096-byte memory, [STORE [4090], R0] with
    R0 = 0x01020304 raises nothing; it completes and writes the bytes
    4, 3, 2, 1 at 4090..4093. *)
Lemma store_4090_counterexample :
  let program := program_of [instr "STORE" [OMem 4090 None; OReg (GP 0%fin)] 1] in
  let cpu := set_R reset 0%fin 0x01020304 in
  (exists ram', step program cpu createRAM = Ok (set_IP cpu 1) ram'
                /\ take 4 (drop 4090 ram') = [4; 3; 2; 1]
                /\ ram' <> createRAM)
  /\ ~ (exists e cpu', step program cpu createRAM = Raise e cpu' createRAM).
Proof.
  intros program cpu.
  assert (E : exists ram', step program cpu createRAM = Ok (set_IP cpu 1) ram'
                /\ take 4 (drop 4090 ram') = [4; 3; 2; 1]).
  { eexists. split; [vm_compute; reflexivity | vm_compute; reflexivity]. }
  destruct E as (ram' & E & Hb). split.
  - exists ram'. repeat split; try assumption.
    intros ->. vm_compute in Hb. discriminate.
  - intros (e & cpu' & H). rewrite E in H. discriminate.
Qed.

(** C3 (as amended): on a 4096-byte memory, [STORE [4090], Rk] passes the
    bounds check (4090 + 4 = 4094 <= 4096): the step completes, the word of
    the source register is in memory at 4090, the memory keeps its size and
    the instruction pointer advances. *)
Theorem store_4090_in_bounds program cpu ram i r :
  halted cpu = false ->
  fetch program cpu = Some i ->
  op i = "STORE"%string ->
  operands i = [OMem 4090 None; OReg r] ->
  DataView.byteLength ram = RAM_SIZE ->
  exists ram',
    step program cpu ram = Ok (set_IP cpu (Num.add (IP cpu) 1)) ram'
    /\ DataView.getInt32 ram' (Some 4090) = Some (Num.toInt32 (read_reg cpu r))
    /\ (forall k, 0 <= k < 4 ->
          ram' !! Z.to_nat (4090 + k) = Some (DataView.byte_of (Num.toInt32 (read_reg cpu r)) k))
    /\ (forall j : nat, (j < 4090 \/ 4094 <= j)%nat -> ram' !! j = ram !! j)
    /\ length ram' = length ram.
Proof.
  intros Hh Hf Hop Hops Hlen.
  pose proof (fetch_in_range _ _ _ Hf) as Hip.
  destruct (setInt32_in_view ram 4090 (read_reg cpu r)) as [ram' Hset];
    [lia | rewrite Hlen; unfold RAM_SIZE; lia |].
  exists ram'. split; [|split; [|split; [|split]]].
  - rewrite (step_running _ _ _ _ Hh Hf). unfold dispatch.
    rewrite Hop, Hops. simpl.
    change (mem_address cpu 4090 None) with (Some 4090).
    rewrite Hset. reflexivity.
  - eapply getInt32_setInt32; eassumption.
  - intros k Hk. eapply setInt32_bytes; eassumption.
  - intros j Hj. eapply setInt32_other; [eassumption | lia].
  - eapply setInt32_length; eassumption.
Qed.

Lemma store_4090_in_bounds_witness :
  exists ram',
    step (program_of [instr "STORE" [OMem 4090 None; OReg (GP 0%fin)] 1])
         (set_R reset 0%fin 0x01020304) createRAM
    = Ok (set_IP (set_R reset 0%fin 0x01020304) 1) ram'
    /\ DataView.getInt32 ram' (Some 4090) = Some (Num.toInt32 0x01020304).
Proof.
  destruct (store_4090_in_bounds
              (program_of [instr "STORE" [OMem 4090 None; OReg (GP 0%fin)] 1])
              (set_R reset 0%fin 0x01020304) createRAM
              (instr "STORE" [OMem 4090 None; OReg (GP 0%fin)] 1) (GP 0%fin))
    as (ram' & H1 & H2 & _); try reflexivity.
  exists ram'. split; [exact H1 | exact H2].
Defined.

(** ** Bounds of word accesses *)

Lemma getInt32_word_at ram a :
  0 <= a -> a + 4 <= DataView.byteLength ram ->
  DataView.getInt32 ram (Some a) = Some (word_at ram a).
Proof.
  intros H0 H1. unfold DataView.getInt32, DataView.ToIndex, DataView.byteLength, word_at in *.
  destruct (Z.ltb_spec a 0); [lia|]. simpl.
  destruct (Z.ltb_spec (Z.of_nat (length ram)) (a + 4)); [lia|].
  destruct (lookup_lt_is_Some_2 ram (Z.to_nat a) ltac:(lia)) as [b0 E0].
  destruct (lookup_lt_is_Some_2 ram (Z.to_nat (a + 1)) ltac:(lia)) as [b1 E1].
  destruct (lookup_lt_is_Some_2 ram (Z.to_nat (a + 2)) ltac:(lia)) as [b2 E2].
  destruct (lookup_lt_is_Some_2 ram (Z.to_nat (a + 3)) ltac:(lia)) as [b3 E3].
  rewrite (list_lookup_total_correct _ _ _ E0), (list_lookup_total_correct _ _ _ E1),
    (list_lookup_total_correct _ _ _ E2), (list_lookup_total_correct _ _ _ E3).
  rewrite E0, E1, E2, E3. reflexivity.
Qed.

Lemma out_of_bounds_spec a :
  out_of_bounds (Some a) = true <-> a < 0 \/ a + 4 > RAM_SIZE.
Proof.
  unfold out_of_bounds, RAM_SIZE.
  destruct (Z.ltb_spec a 0), (Z.leb_spec (4096 - 3) a); simpl; split; intros; try lia;
    try reflexivity; discriminate.
Qed.

(** The read of a memory operand whose address is [a]. *)
Lemma resolveOperand_mem program cpu ram operand a :
  effective_address program cpu operand = Some a ->
  resolveOperand program operand cpu ram =
    if out_of_bounds (Some a) then inl (MemoryAccessOutOfBounds a)
    else from_option inr (inl RangeError) (DataView.getInt32 ram (Some a)).
Proof.
  destruct operand; simpl; try discriminate; intros ->; reflexivity.
Qed.

(** The write of STORE through a memory operand whose address is [a]. *)
Lemma exec_store_mem program cpu ram operand a src value :
  effective_address program cpu operand = Some a ->
  resolveOperand program src cpu ram = inr value ->
  exec program STORE [operand; src] cpu ram =
    if out_of_bounds (Some a) then Throw (MemoryStoreOutOfBounds a) cpu ram
    else match DataView.setInt32 ram (Some a) value with
         | None => Throw RangeError cpu ram
         | Some ram' => Break cpu ram'
         end.
Proof.
  intros Ha Hv. unfold exec, resolveAt. cbn -[resolveOperand out_of_bounds].
  rewrite Hv.
  destruct operand; simpl in Ha; try discriminate; rewrite Ha; reflexivity.
Qed.

(** The guard on a numeric address: where the code computes a number [a]
    as the address of a word access of the 4096-byte memory (the read of a
    memory operand, the write of STORE), the access raises the out-of-bounds
    error exactly when [a < 0] or [a + 4 > 4096]; otherwise the read delivers
    the word made of the bytes [a .. a+3], and the write puts the four bytes
    of the value at [a .. a+3], changes no other byte and keeps the size of
    the memory.  Operands for which the code computes [undefined] are the
    subject of the next theorem. *)
Theorem word_access_bounds program cpu ram operand a :
  DataView.byteLength ram = RAM_SIZE ->
  effective_address program cpu operand = Some a ->
  (resolveOperand program operand cpu ram = inl (MemoryAccessOutOfBounds a)
     <-> a < 0 \/ a + 4 > RAM_SIZE)
  /\ (~ (a < 0 \/ a + 4 > RAM_SIZE) ->
        resolveOperand program operand cpu ram = inr (word_at ram a))
  /\ forall src value,
       resolveOperand program src cpu ram = inr value ->
       (exec program STORE [operand; src] cpu ram = Throw (MemoryStoreOutOfBounds a) cpu ram
          <-> a < 0 \/ a + 4 > RAM_SIZE)
       /\ (~ (a < 0 \/ a + 4 > RAM_SIZE) ->
             exists ram',
               exec program STORE [operand; src] cpu ram = Break cpu ram'
               /\ length ram' = length ram
               /\ (forall k, 0 <= k < 4 ->
                     ram' !! Z.to_nat (a + k) = Some (DataView.byte_of (Num.toInt32 value) k))
               /\ (forall j : nat, Z.of_nat j < a \/ a + 4 <= Z.of_nat j ->
                     ram' !! j = ram !! j)).
Proof.
  intros Hlen Ha.
  pose proof (out_of_bounds_spec a) as Hb.
  rewrite (resolveOperand_mem _ _ _ _ _ Ha).
  split; [|split].
  - destruct (out_of_bounds (Some a)) eqn:E.
    + split; [intros _; apply Hb; reflexivity | reflexivity].
    + split; [|intros H; apply Hb in H; discriminate].
      rewrite getInt32_word_at; [discriminate | |];
        destruct (Z.lt_ge_cases a 0), (Z.lt_ge_cases RAM_SIZE (a + 4)); try lia;
        exfalso; assert (true = false) by (rewrite <- E; apply Hb; lia); discriminate.
  - intros Hin. destruct (out_of_bounds (Some a)) eqn:E.
    + exfalso. apply Hin, Hb. reflexivity.
    + rewrite getInt32_word_at by lia. reflexivity.
  - intros src value Hv. rewrite (exec_store_mem _ _ _ _ _ _ _ Ha Hv).
    split.
    + destruct (out_of_bounds (Some a)) eqn:E.
      * split; [intros _; apply Hb; reflexivity | reflexivity].
      * split; [|intros H; apply Hb in H; discriminate].
        destruct (DataView.setInt32 ram (Some a) value); discriminate.
    + intros Hin. destruct (out_of_bounds (Some a)) eqn:E.
      * exfalso. apply Hin, Hb. reflexivity.
      * destruct (setInt32_in_view ram a value) as [ram' Hset]; [lia | lia |].
        rewrite Hset. exists ram'. split; [reflexivity|]. split; [|split].
        -- eapply setInt32_length; eassumption.
        -- intros k Hk. eapply setInt32_bytes; eassumption.
        -- intros j Hj. eapply setInt32_other; eassumption.
Qed.

Lemma word_access_bounds_witness :
  resolveOperand (program_of []) (OMem 4093 None) reset createRAM
    = inl (MemoryAccessOutOfBounds 4093)
  <-> 4093 < 0 \/ 4093 + 4 > RAM_SIZE.
Proof.
  destruct (word_access_bounds (program_of []) reset createRAM (OMem 4093 None) 4093)
    as [H _]; [reflexivity | reflexivity | exact H].
Defined.

(** ** Operands without a numeric address *)

Lemma mem_address_undefined cpu v off : v < -2 -> mem_address cpu v off = None.
Proof.
  intros Hv. unfold mem_address.
  destruct (Z.ltb_spec v 0); [|lia].
  destruct (Z.eqb_spec v (-1)); [lia|]. destruct (Z.eqb_spec v (-2)); [lia|].
  destruct off as [o|]; [destruct (o =? 0)|]; reflexivity.
Qed.

(** The write of STORE when the address is [undefined]. *)
Lemma exec_store_undefined program cpu ram dst src value :
  effective_address program cpu dst = None ->
  (exists v off, dst = OMem v off) \/ (exists name, dst = OMemLabel name) ->
  resolveOperand program src cpu ram = inr value ->
  exec program STORE [dst; src] cpu ram =
    match DataView.setInt32 ram (Some 0) value with
    | None => Throw RangeError cpu ram
    | Some ram' => Break cpu ram'
    end.
Proof.
  intros Ha Hd Hv. unfold exec, resolveAt. cbn -[resolveOperand out_of_bounds].
  rewrite Hv.
  destruct Hd as [(v & off & ->) | (name & ->)]; simpl in Ha; rewrite Ha; reflexivity.
Qed.

(** C4 (refuted on the code): a memory operand whose base is a negative
    literal other than -1 and -2 (as [[-5]] parses), and the destination of
    a STORE through a label that is not defined, give the code the address
    [undefined].  Both comparisons of the guard are false for it and the
    view takes it as index 0: the read raises nothing and delivers the word
    at address 0, the STORE raises nothing and writes its value over the
    bytes 0..3.  The read through an undefined label does raise (the check
    that the STORE case omits). *)
Theorem undefined_address_reaches_zero program cpu ram v off name src value :
  DataView.byteLength ram = RAM_SIZE ->
  v < -2 ->
  labels program !! name = None ->
  resolveOperand program src cpu ram = inr value ->
  resolveOperand program (OMem v off) cpu ram = inr (word_at ram 0)
  /\ resolveOperand program (OMemLabel name) cpu ram = inl (UndefinedLabel name)
  /\ forall dst, dst = OMem v off \/ dst = OMemLabel name ->
       exists ram',
         exec program STORE [dst; src] cpu ram = Break cpu ram'
         /\ DataView.getInt32 ram' (Some 0) = Some (Num.toInt32 value)
         /\ forall j : nat, 4 <= Z.of_nat j -> ram' !! j = ram !! j.
Proof.
  intros Hlen Hv Hname Hsrc. unfold RAM_SIZE in Hlen. split; [|split].
  - simpl. rewrite (mem_address_undefined cpu v off Hv). simpl.
    change (DataView.getInt32 ram None) with (DataView.getInt32 ram (Some 0)).
    rewrite getInt32_word_at by lia. reflexivity.
  - simpl. rewrite Hname. reflexivity.
  - intros dst Hdst.
    destruct (setInt32_in_view ram 0 value) as [ram' Hset]; [lia | lia |].
    exists ram'. split; [|split].
    + rewrite (exec_store_undefined program cpu ram dst src value); [rewrite Hset; reflexivity | | | exact Hsrc].
      * destruct Hdst as [-> | ->]; simpl; [apply mem_address_undefined, Hv | exact Hname].
      * destruct Hdst as [-> | ->]; eauto.
    + eapply getInt32_setInt32, Hset.
    + intros j Hj. eapply setInt32_other; [exact Hset | lia].
Qed.

Lemma undefined_address_reaches_zero_witness :
  parseOperand "[-5]" 1 = inr (OMem (-5) None)
  /\ parseOperand "[nowhere]" 1 = inr (OMemLabel "nowhere")
  /\ resolveOperand (program_of []) (OMem (-5) None) reset (<[0%nat := 17]> createRAM)
     = inr (word_at (<[0%nat := 17]> createRAM) 0)
  /\ word_at (<[0%nat := 17]> createRAM) 0 = 17
  /\ exists ram',
       exec (program_of []) STORE [OMemLabel "nowhere"; OImm 258] reset
         (<[0%nat := 17]> createRAM) = Break reset ram'
       /\ DataView.getInt32 ram' (Some 0) = Some (Num.toInt32 258).
Proof.
  destruct (undefined_address_reaches_zero (program_of []) reset (<[0%nat := 17]> createRAM)
              (-5) None "nowhere" (OImm 258) 258)
    as (H1 & _ & H2); [reflexivity | lia | reflexivity | reflexivity |].
  destruct (H2 (OMemLabel "nowhere")) as (ram' & E1 & E2 & _); [right; reflexivity|].
  split; [vm_compute; reflexivity|]. split; [vm_compute; reflexivity|].
  split; [exact H1|]. split; [vm_compute; reflexivity|].
  exists ram'. split; [exact E1 | exact E2].
Defined.

(** ** Carry and overflow *)

Lemma fl_abs_gt_iff z c : 0 <= c < 2 ^ 53 -> (c < Z.abs (Num.fl z) <-> c < Z.abs z).
Proof.
  intros Hc. destruct (Z.lt_ge_cases (Z.abs z) (2 ^ 53)) as [Hz|Hz].
  - rewrite fl_small by lia. reflexivity.
  - pose proof (fl_large z Hz). split; intros; [lia|].
    destruct (Z.sgn_spec z) as [[? Hs]|[[? Hs]|[? Hs]]]; rewrite Hs in *; lia.
Qed.

Lemma F_write_reg cpu r v : F (write_reg cpu r v) = F cpu.
Proof. destruct r; reflexivity. Qed.

(** [setFlags] with 'add' or 'sub' on the rounded value of [x]. *)
Lemma setFlags_add_sub cpu x operation :
  operation = op_add \/ operation = op_sub ->
  let f := F (setFlags cpu (Num.fl x) operation) in
  (OF f = true <-> ~ fits_int32 x) /\ (CF f = true <-> 2 ^ 31 - 1 < Z.abs x).
Proof.
  intros Hop f. subst f. unfold fits_int32.
  assert (E : setFlags cpu (Num.fl x) operation =
              set_F cpu (mkFlags (Num.fl x =? 0) (Num.fl x <? 0)
                           (0x7FFFFFFF <? Z.abs (Num.fl x))
                           ((0x7FFFFFFF <? Num.fl x) || (Num.fl x <? - 0x80000000)))).
  { destruct Hop as [-> | ->]; reflexivity. }
  rewrite E. simpl. split.
  - rewrite orb_true_iff, !Z.ltb_lt.
    rewrite (fl_gt_iff x 2147483647) by lia.
    rewrite (fl_lt_iff x (-2147483648)) by lia. lia.
  - rewrite Z.ltb_lt. rewrite (fl_abs_gt_iff x 2147483647) by lia. lia.
Qed.

(** C5 (counterexample): [MUL R0, R1] with R0 = R1 = 65536: the exact
    product 2^32 does not fit in 32 bits, yet carry and overflow are false
    after the instruction. *)
Lemma mul_flags_counterexample :
  let program := program_of [instr "MUL" [OReg (GP 0%fin); OReg (GP 1%fin)] 1] in
  let cpu := set_R (set_R reset 0%fin 65536) 1%fin 65536 in
  exists cpu' ram',
    step program cpu createRAM = Ok cpu' ram'
    /\ exact_result program MUL [OReg (GP 0%fin); OReg (GP 1%fin)] cpu createRAM
       = Some (2 ^ 32)
    /\ ~ fits_int32 (2 ^ 32)
    /\ CF (F cpu') = false /\ OF (F cpu') = false.
Proof.
  do 2 eexists. split; [vm_compute; reflexivity|].
  split; [reflexivity|]. split; [unfold fits_int32; lia|]. split; reflexivity.
Qed.

Lemma conclude_Ok i completion cpu' ram' :
  conclude i completion = Ok cpu' ram' ->
  (exists c, completion = Break c ram' /\ cpu' = set_IP c (Num.add (IP c) 1))
  \/ completion = Return cpu' ram'.
Proof.
  destruct completion; simpl; intros H; simplify_eq; eauto.
Qed.

Lemma binary_Break program name f operation ops cpu ram c m :
  binary program name f operation ops cpu ram = Break c m ->
  exists r s src,
    ops = [OReg r; s] /\ resolveOperand program s cpu ram = inr src
    /\ c = setFlags (write_reg cpu r (f (read_reg cpu r) src))
                    (f (read_reg cpu r) src) operation
    /\ m = ram.
Proof.
  unfold binary, resolveAt. intros H.
  destruct ops as [|o1 [|o2 [|o3 ops]]]; simpl in H; try discriminate.
  destruct (resolveOperand program o2 cpu ram) as [e|src] eqn:E; [discriminate|].
  destruct o1; try discriminate. simplify_eq. eauto 10.
Qed.

Lemma unary_Break name f operation ops cpu ram c m :
  unary name f operation ops cpu ram = Break c m ->
  exists r,
    ops = [OReg r]
    /\ c = setFlags (write_reg cpu r (f (read_reg cpu r))) (f (read_reg cpu r)) operation
    /\ m = ram.
Proof.
  unfold unary. intros H.
  destruct ops as [|o1 [|o2 ops]]; simpl in H; try discriminate.
  destruct o1; try discriminate. simplify_eq. eauto.
Qed.

Lemma binary_not_Return program name f operation ops cpu ram c m :
  binary program name f operation ops cpu ram <> Return c m.
Proof. unfold binary. repeat case_match; discriminate. Qed.

Lemma unary_not_Return name f operation ops cpu ram c m :
  unary name f operation ops cpu ram <> Return c m.
Proof. unfold unary. repeat case_match; discriminate. Qed.

(** The completions of the instructions that never call [setFlags] with
    'add' or 'sub' keep carry and overflow. *)
Lemma exec_keeps_carry_overflow program o ops cpu ram c m :
  o <> ADD -> o <> SUB -> o <> INC -> o <> DEC ->
  exec program o ops cpu ram = Break c m \/ exec program o ops cpu ram = Return c m ->
  CF (F c) = CF (F cpu) /\ OF (F c) = OF (F cpu).
Proof.
  intros H1 H2 H3 H4 H.
  destruct o; try congruence; clear H1 H2 H3 H4;
    unfold exec, binary, jump_if, resolveAt in H;
    destruct H as [H|H];
    repeat case_match; simplify_eq; simpl; rewrite ?F_write_reg; auto.
Qed.

(** C5 (as amended): after a completed ADD, SUB, INC or DEC the overflow
    flag is set exactly when the exact result does not fit in the signed
    32-bit range, and the carry flag exactly when its magnitude exceeds
    2^31 - 1 (which includes the result -2^31, that does fit); every other
    completed instruction except CMP (MUL, DIV, the moves and the rest)
    leaves carry and overflow as they were before it.  Nothing is stated
    about CMP. *)
Theorem carry_overflow_after_step program cpu ram i o cpu' ram' :
  halted cpu = false ->
  fetch program cpu = Some i ->
  decode (op i) = Some o ->
  o <> CMP ->
  step program cpu ram = Ok cpu' ram' ->
  match o with
  | ADD | SUB | INC | DEC =>
      exists x, exact_result program o (operands i) cpu ram = Some x
                /\ (OF (F cpu') = true <-> ~ fits_int32 x)
                /\ (CF (F cpu') = true <-> 2 ^ 31 - 1 < Z.abs x)
  | _ => CF (F cpu') = CF (F cpu) /\ OF (F cpu') = OF (F cpu)
  end.
Proof.
  intros Hh Hf Hd _ H. rewrite (step_running _ _ _ _ Hh Hf) in H.
  unfold dispatch in H. rewrite Hd in H.
  apply conclude_Ok in H as [(c & Hc & ->)|Hc].
  - assert (Hflags : F (set_IP c (Num.add (IP c) 1)) = F c) by reflexivity.
    rewrite Hflags.
    destruct o;
      try (eapply exec_keeps_carry_overflow; [..|left; exact Hc]; discriminate).
    + apply binary_Break in Hc as (r & s & src & Hops & Hs & -> & ->).
      rewrite Hops. simpl. rewrite Hs. eexists; split; [reflexivity|].
      exact (setFlags_add_sub (write_reg cpu r (Num.fl (read_reg cpu r + src))) (read_reg cpu r + src) op_add (or_introl eq_refl)).
    + apply binary_Break in Hc as (r & s & src & Hops & Hs & -> & ->).
      rewrite Hops. simpl. rewrite Hs. eexists; split; [reflexivity|].
      exact (setFlags_add_sub (write_reg cpu r (Num.fl (read_reg cpu r - src))) (read_reg cpu r - src) op_sub (or_intror eq_refl)).
    + apply unary_Break in Hc as (r & Hops & -> & ->).
      rewrite Hops. simpl. eexists; split; [reflexivity|].
      exact (setFlags_add_sub (write_reg cpu r (Num.fl (read_reg cpu r + 1))) (read_reg cpu r + 1) op_add (or_introl eq_refl)).
    + apply unary_Break in Hc as (r & Hops & -> & ->).
      rewrite Hops. simpl. eexists; split; [reflexivity|].
      exact (setFlags_add_sub (write_reg cpu r (Num.fl (read_reg cpu r - 1))) (read_reg cpu r - 1) op_sub (or_intror eq_refl)).
  - destruct o;
      try (eapply exec_keeps_carry_overflow; [..|right; exact Hc]; discriminate);
      exfalso; simpl in Hc;
      first [ eapply binary_not_Return; exact Hc | eapply unary_not_Return; exact Hc ].
Qed.

Lemma carry_overflow_after_step_witness :
  exists cpu' ram',
    step (program_of [instr "ADD" [OReg (GP 0%fin); OImm 1] 1])
         (set_R reset 0%fin 2147483647) createRAM = Ok cpu' ram'
    /\ exists x,
         exact_result (program_of [instr "ADD" [OReg (GP 0%fin); OImm 1] 1]) ADD
           [OReg (GP 0%fin); OImm 1] (set_R reset 0%fin 2147483647) createRAM = Some x
         /\ (OF (F cpu') = true <-> ~ fits_int32 x)
         /\ (CF (F cpu') = true <-> 2 ^ 31 - 1 < Z.abs x).
Proof.
  eexists _, _. split; [vm_compute; reflexivity|].
  eapply (carry_overflow_after_step
           (program_of [instr "ADD" [OReg (GP 0%fin); OImm 1] 1])
           (set_R reset 0%fin 2147483647) createRAM
           (instr "ADD" [OReg (GP 0%fin); OImm 1] 1) ADD);
    [reflexivity | reflexivity | reflexivity | discriminate | vm_compute; reflexivity].
Defined.

(** ** Stored results of the arithmetic instructions *)

Lemma rne_cases n d : 0 <= n -> 0 < d ->
  exists q r delta, n = d * q + r /\ 0 <= r < d /\ Num.rne n d = q + delta
    /\ (delta = 0 /\ 2 * r <= d \/ delta = 1 /\ d <= 2 * r).
Proof.
  intros Hn Hd. exists (n `div` d), (n `mod` d).
  pose proof (Z.div_mod n d ltac:(lia)). pose proof (Z.mod_pos_bound n d Hd).
  unfold Num.rne.
  destruct (Z.ltb_spec (2 * (n `mod` d)) d); [exists 0; lia|].
  destruct (Z.ltb_spec d (2 * (n `mod` d))); [exists 1; lia|].
  destruct (Z.even (n `div` d)); [exists 0 | exists 1]; lia.
Qed.

(** The scaled and rounded quotient still has the floor of [n / d] as its
    integer part, provided the scale [T] exceeds the divisor. *)
Lemma scaled_quotient_bounds n d T :
  0 < n -> 0 < d -> d < T ->
  let m := Num.rne (n * T) d in
  let k := n `div` d in
  k * T <= m < (k + 1) * T /\ (0 < n `mod` d -> k * T < m).
Proof.
  intros Hn Hd HT m k.
  destruct (rne_cases (n * T) d ltac:(nia) Hd) as (q & rho & delta & Hq & Hrho & Hm & Hdelta).
  fold m in Hm.
  pose proof (Z.div_mod n d ltac:(lia)) as Hk. fold k in Hk.
  pose proof (Z.mod_pos_bound n d Hd) as Hr.
  set (r := n `mod` d) in *.
  assert (Hk0 : 0 <= k) by (apply Z.div_pos; lia).
  assert (E : d * q + rho = d * (k * T) + r * T) by nia.
  assert (HrT : 0 <= r * T <= d * T - T) by nia.
  assert (Hlow : k * T <= q) by nia.
  assert (Hup : q < (k + 1) * T) by nia.
  split; [split|].
  - lia.
  - destruct Hdelta as [[-> _]|[-> H2]]; [lia|].
    assert (q <> (k + 1) * T - 1) by nia. lia.
  - intros Hpos. assert (d < r * T) by nia. assert (k * T < q) by nia. lia.
Qed.

Lemma floor_div_scaled n d s T :
  0 < n -> 0 < d -> d < T -> s = 1 \/ s = -1 ->
  (s * Num.rne (n * T) d) `div` T = (s * n) `div` d.
Proof.
  intros Hn Hd HT Hs.
  destruct (scaled_quotient_bounds n d T Hn Hd HT) as [[Hlo Hhi] Hpos].
  set (m := Num.rne (n * T) d) in *. set (k := n `div` d) in *.
  pose proof (Z.div_mod n d ltac:(lia)) as Hk. fold k in Hk.
  pose proof (Z.mod_pos_bound n d Hd) as Hr.
  set (r := n `mod` d) in *.
  destruct Hs as [-> | ->].
  - rewrite !Z.mul_1_l. fold k.
    symmetry. apply (Z.div_unique_pos m T k (m - k * T)); lia.
  - destruct (Z.eq_dec r 0) as [Hr0|Hr0].
    + assert (Hm : m = k * T).
      { destruct (rne_cases (n * T) d ltac:(nia) Hd) as (q & rho & delta & Hq & Hrho & Hm & Hdelta).
        fold m in Hm.
        assert (d * q + rho = d * (k * T)) by nia.
        assert (q = k * T) by nia. assert (rho = 0) by nia.
        destruct Hdelta as [[-> _]|[-> ?]]; lia. }
      rewrite Hm.
      transitivity (- k).
      * symmetry. apply (Z.div_unique_pos (-1 * (k * T)) T (- k) 0); lia.
      * apply (Z.div_unique_pos (-1 * n) d (- k) 0); lia.
    + specialize (Hpos ltac:(lia)).
      transitivity (- (k + 1)).
      * symmetry. apply (Z.div_unique_pos (-1 * m) T (- (k + 1)) ((k + 1) * T - m)); lia.
      * apply (Z.div_unique_pos (-1 * n) d (- (k + 1)) (d - r)); lia.
Qed.

(** [Math.floor(a / b)] is the floored quotient whenever the dividend is
    below 2^52 in magnitude. *)
Lemma floor_div_exact a b :
  b <> 0 -> Z.abs a < 2 ^ 52 -> Num.floor_div a b = a `div` b.
Proof.
  intros Hb Ha. unfold Num.floor_div.
  destruct (Z.eqb_spec (Z.abs a) 0) as [H0|H0].
  { assert (a = 0) by lia. subst. reflexivity. }
  set (n := Z.abs a) in *. set (d := Z.abs b) in *.
  assert (Hn : 0 < n) by lia. assert (Hd : 0 < d) by lia.
  pose proof (Z.log2_spec n Hn) as [Hn1 Hn2].
  pose proof (Z.log2_spec d Hd) as [Hd1 Hd2].
  pose proof (Z.log2_nonneg n). pose proof (Z.log2_nonneg d).
  assert (Hln : Z.log2 n < 52) by (apply Z.log2_lt_pow2; lia).
  set (e1 := Z.log2 n - Z.log2 d - 52).
  match goal with |- context [if ?c then e1 - 1 else e1] => set (e := if c then e1 - 1 else e1) end.
  assert (He : e <= e1) by (subst e; case_match; lia).
  assert (He1 : e1 < 0) by (subst e1; lia).
  rewrite (Z.max_l (- e) 0) by lia. rewrite (Z.max_r e 0) by lia.
  destruct (Z.leb_spec 0 e); [lia|].
  change (2 ^ 0) with 1. rewrite Z.mul_1_r.
  assert (HT : d < 2 ^ (- e)).
  { eapply Z.lt_le_trans; [exact Hd2|]. apply Z.pow_le_mono_r; lia. }
  assert (Hs : Z.sgn a * Z.sgn b = 1 \/ Z.sgn a * Z.sgn b = -1) by lia.
  rewrite (floor_div_scaled n d _ _ Hn Hd HT Hs).
  subst n d. destruct (Z.abs_spec a) as [[? Ea]|[? Ea]], (Z.abs_spec b) as [[? Eb]|[? Eb]];
    rewrite Ea, Eb.
  - replace (Z.sgn a * Z.sgn b * a) with a by lia. reflexivity.
  - replace (Z.sgn a * Z.sgn b * a) with (- a) by lia.
    rewrite Z.div_opp_opp by lia. reflexivity.
  - replace (Z.sgn a * Z.sgn b * - a) with a by lia. reflexivity.
  - replace (Z.sgn a * Z.sgn b * - a) with (- a) by lia.
    rewrite Z.div_opp_opp by lia. reflexivity.
Qed.

Lemma read_write_reg cpu r v :
  read_reg (write_reg cpu r v) r = match r with GP _ => Num.toInt32 v | _ => v end.
Proof. destruct r; simpl; [apply vlookup_insert | reflexivity | reflexivity]. Qed.

Lemma read_reg_setFlags cpu result operation r :
  read_reg (setFlags cpu result operation) r = read_reg cpu r.
Proof. destruct operation, r; reflexivity. Qed.

Lemma read_reg_set_IP cpu ip r : read_reg (set_IP cpu ip) r = read_reg cpu r.
Proof. destruct r; reflexivity. Qed.

Lemma div_Break program ops cpu ram c m :
  exec program DIV ops cpu ram = Break c m ->
  exists r s src,
    ops = [OReg r; s] /\ resolveOperand program s cpu ram = inr src /\ src <> 0
    /\ c = setFlags (write_reg cpu r (Num.floor_div (read_reg cpu r) src))
                    (Num.floor_div (read_reg cpu r) src) op_div
    /\ m = ram.
Proof.
  unfold exec, resolveAt. intros H.
  destruct ops as [|o1 [|o2 [|o3 ops]]]; simpl in H; try discriminate.
  destruct (resolveOperand program o2 cpu ram) as [e|src] eqn:E; [discriminate|].
  destruct (Z.eqb_spec src 0); [discriminate|].
  destruct o1; try discriminate. simplify_eq. eauto 10.
Qed.

(** C6 (counterexample): [ADD SP, #1] with SP = 2147483647 leaves
    SP = 2147483648, which is not the sum reduced to 32 bits
    (-2147483648). *)
Lemma sp_not_reduced_counterexample :
  let program := program_of [instr "ADD" [OReg RegSP; OImm 1] 1] in
  let cpu := set_SP reset 2147483647 in
  exists cpu' ram',
    step program cpu createRAM = Ok cpu' ram'
    /\ exact_result program ADD [OReg RegSP; OImm 1] cpu createRAM = Some 2147483648
    /\ SP cpu' = 2147483648
    /\ SP cpu' <> Num.toInt32 2147483648.
Proof.
  do 2 eexists. split; [vm_compute; reflexivity|].
  split; [reflexivity|]. split; [reflexivity|]. vm_compute. discriminate.
Qed.

(** C6 (as amended): for a completed ADD, SUB, MUL, DIV, INC or DEC whose
    destination value and exact result are below 2^52 in magnitude (the range
    in which the arithmetic of doubles is exact), a destination among R0-R7
    receives the exact result reduced to 32-bit signed, and the destination
    SP or BP receives the exact result itself, not reduced. *)
Theorem arithmetic_result_stored program cpu ram i o cpu' ram' :
  halted cpu = false ->
  fetch program cpu = Some i ->
  decode (op i) = Some o ->
  In o arithmetic_opcodes ->
  step program cpu ram = Ok cpu' ram' ->
  exists r x,
    operands i !! 0%nat = Some (OReg r)
    /\ exact_result program o (operands i) cpu ram = Some x
    /\ (Z.abs (read_reg cpu r) < 2 ^ 52 -> Z.abs x < 2 ^ 52 ->
        read_reg cpu' r = match r with GP _ => Num.toInt32 x | _ => x end).
Proof.
  intros Hh Hf Hd Ho H. rewrite (step_running _ _ _ _ Hh Hf) in H.
  unfold dispatch in H. rewrite Hd in H.
  assert (Hc : exists c, exec program o (operands i) cpu ram = Break c ram'
                         /\ cpu' = set_IP c (Num.add (IP c) 1)).
  { apply conclude_Ok in H as [Hc|Hc]; [exact Hc|]. exfalso.
    simpl in Ho. destruct Ho as [<-|[<-|[<-|[<-|[<-|[<-|[]]]]]]]; simpl in Hc;
      try (eapply binary_not_Return; exact Hc);
      try (eapply unary_not_Return; exact Hc).
    unfold resolveAt in Hc. repeat case_match; discriminate. }
  destruct Hc as (c & Hc & ->).
  simpl in Ho. destruct Ho as [<-|[<-|[<-|[<-|[<-|[<-|[]]]]]]]; simpl in Hc.
  - apply binary_Break in Hc as (r & s & src & Hops & Hs & -> & ->).
    exists r, (read_reg cpu r + src). 
    split; [rewrite Hops; reflexivity|].
    split; [rewrite Hops; simpl; rewrite Hs; reflexivity|]. intros _ Hx.
    rewrite read_reg_set_IP, read_reg_setFlags, read_write_reg.
    unfold Num.add. rewrite fl_small by lia. reflexivity.
  - apply binary_Break in Hc as (r & s & src & Hops & Hs & -> & ->).
    exists r, (read_reg cpu r - src). 
    split; [rewrite Hops; reflexivity|].
    split; [rewrite Hops; simpl; rewrite Hs; reflexivity|]. intros _ Hx.
    rewrite read_reg_set_IP, read_reg_setFlags, read_write_reg.
    unfold Num.sub. rewrite fl_small by lia. reflexivity.
  - apply binary_Break in Hc as (r & s & src & Hops & Hs & -> & ->).
    exists r, (read_reg cpu r * src). 
    split; [rewrite Hops; reflexivity|].
    split; [rewrite Hops; simpl; rewrite Hs; reflexivity|]. intros _ Hx.
    rewrite read_reg_set_IP, read_reg_setFlags, read_write_reg.
    unfold Num.mul. rewrite fl_small by lia. reflexivity.
  - apply div_Break in Hc as (r & s & src & Hops & Hs & Hsrc & -> & ->).
    exists r, (read_reg cpu r `div` src). 
    split; [rewrite Hops; reflexivity|].
    split; [rewrite Hops; simpl; rewrite Hs;
            destruct (Z.eqb_spec src 0); [contradiction | reflexivity]|].
    intros Hcur _.
    rewrite read_reg_set_IP, read_reg_setFlags, read_write_reg.
    rewrite floor_div_exact by assumption. reflexivity.
  - apply unary_Break in Hc as (r & Hops & -> & ->).
    exists r, (read_reg cpu r + 1). 
    split; [rewrite Hops; reflexivity|].
    split; [rewrite Hops; reflexivity|]. intros _ Hx.
    rewrite read_reg_set_IP, read_reg_setFlags, read_write_reg.
    unfold Num.add. rewrite fl_small by lia. reflexivity.
  - apply unary_Break in Hc as (r & Hops & -> & ->).
    exists r, (read_reg cpu r - 1). 
    split; [rewrite Hops; reflexivity|].
    split; [rewrite Hops; reflexivity|]. intros _ Hx.
    rewrite read_reg_set_IP, read_reg_setFlags, read_write_reg.
    unfold Num.sub. rewrite fl_small by lia. reflexivity.
Qed.

Lemma arithmetic_result_stored_witness :
  exists cpu' ram',
    step (program_of [instr "MUL" [OReg (GP 0%fin); OImm 65536] 1])
         (set_R reset 0%fin 65536) createRAM = Ok cpu' ram'
    /\ exists r x,
         [OReg (GP 0%fin); OImm 65536] !! 0%nat = Some (OReg r)
         /\ exact_result (program_of [instr "MUL" [OReg (GP 0%fin); OImm 65536] 1]) MUL
              [OReg (GP 0%fin); OImm 65536] (set_R reset 0%fin 65536) createRAM = Some x
         /\ (Z.abs (read_reg (set_R reset 0%fin 65536) r) < 2 ^ 52 -> Z.abs x < 2 ^ 52 ->
             read_reg cpu' r = match r with GP _ => Num.toInt32 x | _ => x end).
Proof.
  eexists _, _. split; [vm_compute; reflexivity|].
  eapply (arithmetic_result_stored
            (program_of [instr "MUL" [OReg (GP 0%fin); OImm 65536] 1])
            (set_R reset 0%fin 65536) createRAM
            (instr "MUL" [OReg (GP 0%fin); OImm 65536] 1) MUL);
    [reflexivity | reflexivity | reflexivity | simpl; tauto | vm_compute; reflexivity].
Defined.

(** ** What a failed step leaves behind *)

(** C7 (counterexample): [PUSH #1] with SP = 0 raises the stack-overflow
    error and leaves SP at -4. *)
Lemma push_overflow_counterexample :
  let program := program_of [instr "PUSH" [OImm 1] 1] in
  let cpu := set_SP reset 0 in
  exists cpu',
    step program cpu createRAM = Raise (AsmError 1 StackOverflow) cpu' createRAM
    /\ SP cpu = 0 /\ SP cpu' = -4.
Proof.
  eexists. split; [vm_compute; reflexivity|]. split; reflexivity.
Qed.

Lemma conclude_Raise i completion ln msg cpu' ram' :
  conclude i completion = Raise (AsmError ln msg) cpu' ram' ->
  completion = Throw msg cpu' ram' /\ ln = line i.
Proof. destruct completion; simpl; intros H; simplify_eq; auto. Qed.

Lemma exec_Throw program o ops cpu ram msg cpu' ram' :
  exec program o ops cpu ram = Throw msg cpu' ram' ->
  ram' = ram /\ same_but_SP_CF cpu cpu'
  /\ (CF (F cpu') = CF (F cpu) \/ msg = DivisionByZero /\ CF (F cpu') = true)
  /\ SP_after_throw (Some o) cpu cpu'.
Proof.
  intros H. unfold same_but_SP_CF, SP_after_throw.
  destruct o; unfold exec, binary, unary, jump_if, resolveAt in H;
    repeat case_match; simplify_eq; simpl; tauto.
Qed.

(** C7 (as amended): when [step] raises an [AsmError], the memory, R0-R7,
    BP, IP, the halted indicator and the flags ZF, NF and OF are as before
    the call; the carry flag is as before unless the error is a division by
    zero, which sets it; SP is as before for every opcode other than PUSH,
    CALL and POP, and after a failing PUSH or CALL it is either as before or
    lower by 4 (the decrement precedes the overflow and range checks). *)
Theorem failed_step_state program cpu ram ln msg cpu' ram' :
  step program cpu ram = Raise (AsmError ln msg) cpu' ram' ->
  ram' = ram
  /\ same_but_SP_CF cpu cpu'
  /\ (CF (F cpu') = CF (F cpu) \/ msg = DivisionByZero /\ CF (F cpu') = true)
  /\ exists i, fetch program cpu = Some i /\ ln = line i
               /\ SP_after_throw (decode (op i)) cpu cpu'.
Proof.
  unfold step. intros H.
  destruct (halted cpu || (Z.of_nat (length (ast program)) <=? IP cpu)); [discriminate|].
  destruct (fetch program cpu) as [i|]; [|discriminate].
  apply conclude_Raise in H as [H ->]. unfold dispatch in H.
  destruct (decode (op i)) as [o|] eqn:Hd.
  - apply exec_Throw in H as (-> & Hs & Hcf & Hsp).
    split; [reflexivity|]. split; [exact Hs|]. split; [exact Hcf|].
    exists i. rewrite Hd. auto.
  - simplify_eq. split; [reflexivity|].
    split; [unfold same_but_SP_CF; tauto|]. split; [left; reflexivity|].
    exists i. rewrite Hd. simpl. auto.
Qed.

Lemma failed_step_state_witness :
  exists cpu',
    step (program_of [instr "DIV" [OReg (GP 0%fin); OImm 0] 7]) reset createRAM
      = Raise (AsmError 7 DivisionByZero) cpu' createRAM
    /\ same_but_SP_CF reset cpu'
    /\ (CF (F cpu') = CF (F reset) \/ DivisionByZero = DivisionByZero /\ CF (F cpu') = true).
Proof.
  eexists.
  assert (E : step (program_of [instr "DIV" [OReg (GP 0%fin); OImm 0] 7]) reset createRAM
              = Raise (AsmError 7 DivisionByZero)
                  (set_F reset (mkFlags false false true false)) createRAM)
    by (vm_compute; reflexivity).
  split; [exact E|].
  destruct (failed_step_state _ _ _ _ _ _ _ E) as (_ & H1 & H2 & _).
  split; [exact H1 | exact H2].
Defined.

(** ** CALL and RET *)

Lemma setInt32_Some_in_view ram a v ram' :
  DataView.setInt32 ram (Some a) v = Some ram' ->
  0 <= a /\ a + 4 <= DataView.byteLength ram.
Proof.
  unfold DataView.setInt32, DataView.ToIndex. intros H.
  destruct (Z.ltb_spec a 0); [discriminate|]. simpl in H.
  destruct (Z.ltb_spec (DataView.byteLength ram) (a + 4)); [discriminate|]. lia.
Qed.

(** A rounded value that is small was small before the rounding. *)
Lemma fl_small_inv z : Z.abs (Num.fl z) < 2 ^ 53 -> Num.fl z = z.
Proof.
  intros H. destruct (Z.lt_ge_cases (Z.abs z) (2 ^ 53)) as [Hz|Hz].
  - apply fl_small, Hz.
  - pose proof (fl_large z Hz).
    destruct (Z.sgn_spec z) as [[? Hs]|[[? Hs]|[? Hs]]]; rewrite Hs in *; lia.
Qed.

Lemma call_completion program ops cpu ram :
  (exists msg c, exec program CALL ops cpu ram = Throw msg c ram)
  \/ exists target ram',
       exec program CALL ops cpu ram
         = Return (set_IP (set_SP cpu (Num.sub (SP cpu) 4)) target) ram'
       /\ DataView.setInt32 ram (Some (Num.sub (SP cpu) 4)) (Num.add (IP cpu) 1) = Some ram'.
Proof.
  unfold exec, resolveAt. repeat case_match; simpl in *; eauto 10.
Qed.

Lemma ret_completion program ops cpu ram :
  exec program RET ops cpu ram =
    if RAM_SIZE - 4 <=? SP cpu then Throw StackUnderflow cpu ram
    else match DataView.getInt32 ram (Some (SP cpu)) with
         | None => Throw RangeError cpu ram
         | Some ip => Return (set_SP (set_IP cpu ip) (Num.add (SP cpu) 4)) ram
         end.
Proof. reflexivity. Qed.

(** C8 (counterexample): after [MOV SP, #4096] the CALL at index 1
    completes, lowers SP to 4092 and stores 2 there; the RET executed next,
    with SP at that slot and the slot untouched, raises the stack-underflow
    error instead of returning. *)
Lemma call_ret_top_of_memory_counterexample :
  let program := program_of [instr "MOV" [OReg RegSP; OImm 4096] 1;
                             instr "CALL" [OImm 2] 2;
                             instr "RET" [] 3] in
  exists cpu1 cpu2 ram2,
    step program reset createRAM = Ok cpu1 createRAM
    /\ IP cpu1 = 1 /\ SP cpu1 = 4096
    /\ step program cpu1 createRAM = Ok cpu2 ram2
    /\ IP cpu2 = 2 /\ SP cpu2 = 4092
    /\ DataView.getInt32 ram2 (Some (SP cpu2)) = Some (IP cpu1 + 1)
    /\ step program cpu2 ram2 = Raise (AsmError 3 StackUnderflow) cpu2 ram2.
Proof.
  eexists _, _, _. split; [vm_compute; reflexivity|].
  split; [reflexivity|]. split; [reflexivity|].
  split; [vm_compute; reflexivity|].
  split; [reflexivity|]. split; [reflexivity|].
  split; vm_compute; reflexivity.
Qed.

(** C8 (as amended): on the 4096-byte memory, a CALL at instruction index
    k = IP (with k + 1 below 2^31) lowers SP by 4 and stores k + 1 at the
    new SP; when the SP before the CALL was below 4096, a RET executed later
    with SP at that slot and the slot's word unmodified completes, sets IP
    to k + 1 and brings SP back to its value before the CALL.  Whatever the
    SP was, a RET that completes there has these effects. *)
Theorem call_ret_symmetry program cpu ram i cpu1 ram1 cpu2 ram2 j :
  halted cpu = false ->
  fetch program cpu = Some i ->
  op i = "CALL"%string ->
  DataView.byteLength ram = RAM_SIZE ->
  IP cpu + 1 < 2 ^ 31 ->
  step program cpu ram = Ok cpu1 ram1 ->
  halted cpu2 = false ->
  fetch program cpu2 = Some j ->
  op j = "RET"%string ->
  SP cpu2 = SP cpu1 ->
  DataView.getInt32 ram2 (Some (SP cpu2)) = DataView.getInt32 ram1 (Some (SP cpu1)) ->
  (SP cpu1 = SP cpu - 4
   /\ DataView.getInt32 ram1 (Some (SP cpu1)) = Some (IP cpu + 1))
  /\ (SP cpu < RAM_SIZE ->
      step program cpu2 ram2 = Ok (set_SP (set_IP cpu2 (IP cpu + 1)) (SP cpu)) ram2)
  /\ (forall cpu3 ram3,
        step program cpu2 ram2 = Ok cpu3 ram3 ->
        IP cpu3 = IP cpu + 1 /\ SP cpu3 = SP cpu /\ ram3 = ram2).
Proof.
  intros Hh Hf Hop Hlen Hk Hcall Hh2 Hf2 Hop2 Hsp Hslot.
  pose proof (fetch_in_range _ _ _ Hf) as Hip.
  rewrite (step_running _ _ _ _ Hh Hf) in Hcall. unfold dispatch in Hcall.
  rewrite Hop in Hcall. change (decode "CALL") with (Some CALL) in Hcall.
  cbv iota beta in Hcall.
  destruct (call_completion program (operands i) cpu ram)
    as [(msg & c & E)|(target & ram' & E & Hset)];
    rewrite E in Hcall; simpl in Hcall; [discriminate|].
  injection Hcall as <- <-.
  apply setInt32_Some_in_view in Hset as Hview. rewrite Hlen in Hview. unfold RAM_SIZE in *.
  assert (Hsub : Num.sub (SP cpu) 4 = SP cpu - 4).
  { unfold Num.sub in *. apply fl_small_inv. lia. }
  rewrite Hsub in *.
  assert (Hret : Num.add (IP cpu) 1 = IP cpu + 1).
  { unfold Num.add. apply fl_small. lia. }
  assert (Hword : DataView.getInt32 ram' (Some (SP cpu - 4)) = Some (IP cpu + 1)).
  { rewrite (getInt32_setInt32 _ _ _ _ Hset), Hret.
    rewrite toInt32_id by lia. reflexivity. }
  simpl in Hsp, Hslot. simpl.
  assert (Hstep2 : step program cpu2 ram2 =
                   if 4096 - 4 <=? SP cpu2 then Raise (AsmError (line j) StackUnderflow) cpu2 ram2
                   else Ok (set_SP (set_IP cpu2 (IP cpu + 1)) (SP cpu)) ram2).
  { rewrite (step_running _ _ _ _ Hh2 Hf2). unfold dispatch.
    rewrite Hop2. change (decode "RET") with (Some RET). cbv iota beta.
    rewrite ret_completion.
    unfold RAM_SIZE. destruct (4096 - 4 <=? SP cpu2); [reflexivity|].
    rewrite Hslot, Hword. simpl. rewrite Hsp.
    unfold Num.add. rewrite fl_small by lia. do 3 f_equal. lia. }
  rewrite Hstep2. split; [split; [reflexivity | exact Hword]|]. split.
  - intros Hlt. destruct (Z.leb_spec (4096 - 4) (SP cpu2)); [lia | reflexivity].
  - intros cpu3 ram3. destruct (4096 - 4 <=? SP cpu2); [discriminate|].
    intros H. injection H as <- <-. auto.
Qed.

Lemma call_ret_symmetry_witness :
  let program := program_of [instr "CALL" [OImm 1] 1; instr "RET" [] 2] in
  exists cpu1 ram1,
    step program reset createRAM = Ok cpu1 ram1
    /\ step program cpu1 ram1 = Ok (set_SP (set_IP cpu1 (IP reset + 1)) (SP reset)) ram1.
Proof.
  intros program.
  assert (E : exists cpu1 ram1, step program reset createRAM = Ok cpu1 ram1
                /\ halted cpu1 = false
                /\ fetch program cpu1 = Some (instr "RET" [] 2)).
  { eexists _, _. split; [vm_compute; reflexivity|]. split; reflexivity. }
  destruct E as (cpu1 & ram1 & E & Hh & Hf).
  exists cpu1, ram1. split; [exact E|].
  destruct (call_ret_symmetry program reset createRAM (instr "CALL" [OImm 1] 1)
              cpu1 ram1 cpu1 ram1 (instr "RET" [] 2))
    as (_ & H & _); try reflexivity; try assumption.
  apply H. reflexivity.
Defined.

(** ** Breakpoints *)

Lemma run_loop_executed program breakpoints fuel steps cpu ram :
  Forall (fun c => (IP c ∉ breakpoints) /\ halted c = false)
         (snd (run_loop program breakpoints fuel steps cpu ram)).
Proof.
  revert steps cpu ram. induction fuel as [|fuel IH]; intros steps cpu ram; simpl.
  - constructor.
  - destruct (halted cpu) eqn:Hh; [constructor|].
    destruct (decide (IP cpu ∈ breakpoints)) as [Hin|Hout]; [constructor|].
    destruct (step program cpu ram) as [cpu' ram'| |] eqn:Hs.
    + specialize (IH (steps + 1) cpu' ram').
      destruct (run_loop program breakpoints fuel (steps + 1) cpu' ram') as [r log].
      simpl in *. constructor; auto.
    + simpl. repeat constructor; auto.
    + simpl. repeat constructor; auto.
Qed.

Lemma run_loop_reaches program breakpoints n cpu ram c m :
  iterates program breakpoints n cpu ram c m ->
  forall fuel steps,
    (n <= fuel)%nat -> IP c ∈ breakpoints ->
    fst (run_loop program breakpoints fuel steps cpu ram) = Stopped (steps + Z.of_nat n) c m
    /\ length (snd (run_loop program breakpoints fuel steps cpu ram)) = n.
Proof.
  induction 1 as [cpu ram | n cpu ram cpu1 ram1 c m Hh Hout Hs _ IH];
    intros fuel steps Hfuel Hin.
  - rewrite Z.add_0_r. destruct fuel as [|fuel]; simpl; [auto|].
    destruct (halted cpu); [auto|].
    destruct (decide (IP cpu ∈ breakpoints)); [auto | contradiction].
  - destruct fuel as [|fuel]; [lia|]. simpl. rewrite Hh.
    destruct (decide (IP cpu ∈ breakpoints)); [contradiction|].
    rewrite Hs. specialize (IH fuel (steps + 1) ltac:(lia) Hin).
    destruct (run_loop program breakpoints fuel (steps + 1) cpu1 ram1) as [r log].
    simpl in *. destruct IH as [-> ->]. split; [f_equal; lia | reflexivity].
Qed.

Lemma run_loop_stopped program breakpoints fuel steps cpu ram s c m :
  fst (run_loop program breakpoints fuel steps cpu ram) = Stopped s c m ->
  halted c = true \/ IP c ∈ breakpoints \/ s = steps + Z.of_nat fuel.
Proof.
  revert steps cpu ram. induction fuel as [|fuel IH]; intros steps cpu ram; simpl.
  - intros H. simplify_eq. right; right; lia.
  - destruct (halted cpu) eqn:Hh; [simpl; intros H; simplify_eq; auto|].
    destruct (decide (IP cpu ∈ breakpoints)) as [Hin|Hout];
      [simpl; intros H; simplify_eq; auto|].
    destruct (step program cpu ram) as [cpu' ram'| |] eqn:Hs; simpl; try discriminate.
    specialize (IH (steps + 1) cpu' ram').
    destruct (run_loop program breakpoints fuel (steps + 1) cpu' ram') as [r log].
    simpl in *. intros H. destruct (IH H) as [?|[?|?]]; auto. right; right; lia.
Qed.

(** C9: [run] calls [step] only on states whose instruction pointer is not
    a breakpoint (and which are not halted); when the loop comes, after [n]
    turns with [n <= maxSteps], to a state whose instruction pointer is a
    breakpoint A, [run] stops there: it returns [n] steps and that very
    state, with IP = A and the instruction at A not executed; and whenever
    [run] stops short of [maxSteps] on a CPU that is not halted, its
    instruction pointer is a breakpoint. *)
Theorem run_respects_breakpoints program breakpoints maxSteps cpu ram :
  Forall (fun c => (IP c ∉ breakpoints) /\ halted c = false)
         (run_executed program cpu ram maxSteps breakpoints)
  /\ (forall n c m,
        iterates program breakpoints n cpu ram c m ->
        Z.of_nat n <= maxSteps ->
        IP c ∈ breakpoints ->
        run program cpu ram maxSteps breakpoints = Stopped (Z.of_nat n) c m
        /\ length (run_executed program cpu ram maxSteps breakpoints) = n)
  /\ (forall steps c m,
        run program cpu ram maxSteps breakpoints = Stopped steps c m ->
        halted c = false -> steps < maxSteps ->
        IP c ∈ breakpoints).
Proof.
  unfold run, run_executed. split; [|split].
  - apply run_loop_executed.
  - intros n c m Hit Hn Hin.
    apply (run_loop_reaches _ _ _ _ _ _ _ Hit (Z.to_nat maxSteps) 0); [lia | exact Hin].
  - intros steps c m H Hh Hlt.
    destruct (run_loop_stopped _ _ _ _ _ _ _ _ _ H) as [?|[?|?]]; [congruence | assumption | lia].
Qed.

(** A breakpoint on the HALT at address 2 of a three-instruction program:
    [run] stops after two steps with IP = 2 and the CPU not halted. *)
Lemma run_respects_breakpoints_witness :
  let program := program_of [instr "NOP" [] 1; instr "INC" [OReg (GP 0%fin)] 2;
                             instr "HALT" [] 3] in
  exists c m,
    run program reset createRAM 10000 {[ 2 ]} = Stopped 2 c m
    /\ IP c = 2 /\ halted c = false.
Proof.
  intros program.
  assert (E : exists c m, iterates program {[ 2 ]} 2 reset createRAM c m
                          /\ IP c = 2 /\ halted c = false).
  { eexists _, _. split; [|split].
    - eapply iterates_S; [reflexivity | set_solver | vm_compute; reflexivity |].
      eapply iterates_S; [reflexivity | simpl; set_solver | vm_compute; reflexivity |].
      apply iterates_O.
    - reflexivity.
    - reflexivity. }
  destruct E as (c & m & Hit & Hip & Hh). exists c, m.
  destruct (run_respects_breakpoints program {[ 2 ]} 10000 reset createRAM) as (_ & H & _).
  destruct (H 2%nat c m Hit ltac:(lia) ltac:(rewrite Hip; set_solver)) as [Hrun _].
  split; [exact Hrun | split; assumption].
Defined.

(** ** Stack underflow *)

Lemma pop_dispatch program i cpu ram :
  pops i ->
  dispatch program i cpu ram =
    if RAM_SIZE - 4 <=? SP cpu then Throw StackUnderflow cpu ram
    else match DataView.getInt32 ram (Some (SP cpu)) with
         | None => Throw RangeError cpu ram
         | Some value =>
             if String.eqb (op i) "RET"
             then Return (set_SP (set_IP cpu value) (Num.add (SP cpu) 4)) ram
             else match operands i !! 0%nat with
                  | Some (OReg r) =>
                      Break (write_reg (set_SP cpu (Num.add (SP cpu) 4)) r value) ram
                  | _ => Throw (DestinationMustBeRegister "POP")
                           (set_SP cpu (Num.add (SP cpu) 4)) ram
                  end
         end.
Proof.
  unfold dispatch. intros [Hop | [Hop Hlen]]; rewrite Hop.
  - reflexivity.
  - change (decode "POP") with (Some POP). cbv iota beta. unfold exec.
    rewrite Hlen. reflexivity.
Qed.

(** C10: POP and RET raise the stack-underflow error exactly when SP is
    4092 (capacity minus 4) or more at entry.  So with the SP that [reset]
    sets they fail, and a POP or RET that completes had SP below 4092: none
    reads the word at 4092..4095, although a word read at 4092 through a
    memory operand is within bounds. *)
Theorem stack_underflow_iff program cpu ram i :
  halted cpu = false ->
  fetch program cpu = Some i ->
  pops i ->
  ((exists cpu' ram', step program cpu ram = Raise (AsmError (line i) StackUnderflow) cpu' ram')
     <-> RAM_SIZE - 4 <= SP cpu)
  /\ (SP cpu = SP reset ->
      step program cpu ram = Raise (AsmError (line i) StackUnderflow) cpu ram)
  /\ (forall cpu' ram', step program cpu ram = Ok cpu' ram' -> SP cpu < RAM_SIZE - 4)
  /\ (DataView.byteLength ram = RAM_SIZE ->
      resolveOperand program (OMem (RAM_SIZE - 4) None) cpu ram
        = inr (word_at ram (RAM_SIZE - 4))).
Proof.
  intros Hh Hf Hp. rewrite (step_running _ _ _ _ Hh Hf), (pop_dispatch _ _ _ _ Hp).
  split; [|split; [|split]].
  - destruct (Z.leb_spec (RAM_SIZE - 4) (SP cpu)) as [Hge|Hlt].
    + split; [intros _; exact Hge | intros _; simpl; eauto].
    + split; [|lia]. intros (cpu' & ram' & H). exfalso.
      repeat case_match; simpl in H; discriminate.
  - intros Hsp. rewrite Hsp. reflexivity.
  - intros cpu' ram' H.
    destruct (Z.leb_spec (RAM_SIZE - 4) (SP cpu)) as [Hge|Hlt]; [discriminate | exact Hlt].
  - intros Hlen.
    rewrite (resolveOperand_mem program cpu ram (OMem (RAM_SIZE - 4) None) (RAM_SIZE - 4))
      by reflexivity.
    change (out_of_bounds (Some (RAM_SIZE - 4))) with false. cbv iota.
    rewrite getInt32_word_at by (rewrite ?Hlen; unfold RAM_SIZE; lia). reflexivity.
Qed.

Lemma stack_underflow_iff_witness :
  step (program_of [instr "POP" [OReg (GP 0%fin)] 1]) reset createRAM
    = Raise (AsmError 1 StackUnderflow) reset createRAM
  /\ resolveOperand (program_of [instr "POP" [OReg (GP 0%fin)] 1])
       (OMem (RAM_SIZE - 4) None) reset createRAM
     = inr (word_at createRAM (RAM_SIZE - 4)).
Proof.
  destruct (stack_underflow_iff (program_of [instr "POP" [OReg (GP 0%fin)] 1])
              reset createRAM (instr "POP" [OReg (GP 0%fin)] 1))
    as (_ & H1 & _ & H2);
    [reflexivity | reflexivity | right; split; reflexivity |].
  split; [apply H1; reflexivity | apply H2; reflexivity].
Defined.

(** ** Pass 2 of the assembler *)

(** C1 (refuted on the code): pass 2 skips a line only when it ends with a
    colon, while pass 1 treats every line that contains a colon as a label
    definition.  The source [labelled_data_source] is accepted, and the
    skeleton of HALT (line 4) receives the tokens of the data line
    [nums: .WORD 1, 2, 3] as its operands; on the sample's own shape
    ([sum_array_head]) pass 2 runs out of skeletons and [assemble] throws a
    [TypeError]. *)
Theorem data_line_reaches_pass2 :
  pass2_skips "nums: .WORD 1, 2, 3" = false
  /\ (exists p,
        assemble labelled_data_source = inr p
        /\ ast p = [mkInstruction "HALT" [OLabel ".WORD"; OImm 1; OImm 2; OImm 3] 4 "HALT";
                    mkInstruction ".END" [] 5 ".END"]
        /\ labels p !! "nums"%string = Some 0)
  /\ assemble sum_array_head = inl HostTypeError.
Proof.
  split; [reflexivity|]. split.
  - eexists. split; [vm_compute; reflexivity|]. split; [reflexivity|].
    vm_compute. reflexivity.
  - vm_compute. reflexivity.
Qed.

(** * Further properties of the engine *)

(** ** Compare and branch *)

Lemma fl_eq_0 z : Num.fl z = 0 <-> z = 0.
Proof.
  split; [|intros ->; reflexivity].
  intros H. rewrite <- H. symmetry. apply fl_small_inv. rewrite H. reflexivity.
Qed.

Lemma fl_eqb_0 z : (Num.fl z =? 0) = (z =? 0).
Proof.
  destruct (Z.eqb_spec z 0) as [->|Hz]; [reflexivity|].
  apply Z.eqb_neq. intros H. apply (proj1 (fl_eq_0 z)) in H. contradiction.
Qed.

Lemma fl_ltb_0 z : (Num.fl z <? 0) = (z <? 0).
Proof.
  pose proof (fl_lt_iff z 0 ltac:(reflexivity)) as H.
  destruct (Z.ltb_spec (Num.fl z) 0), (Z.ltb_spec z 0); try reflexivity; lia.
Qed.

(** X1: a completed [CMP a, b] sets the zero flag exactly when a = b and
    the negative flag exactly when a < b (on the exact integers, whatever
    their size), keeps carry and overflow, changes no register and no memory,
    and advances the instruction pointer. *)
Theorem cmp_flags program cpu ram i x y a b :
  halted cpu = false ->
  fetch program cpu = Some i ->
  op i = "CMP"%string ->
  operands i = [x; y] ->
  resolveOperand program x cpu ram = inr a ->
  resolveOperand program y cpu ram = inr b ->
  step program cpu ram =
    Ok (set_IP (set_F cpu (mkFlags (a =? b) (a <? b) (CF (F cpu)) (OF (F cpu))))
               (Num.add (IP cpu) 1)) ram.
Proof.
  intros Hh Hf Hop Hops Ha Hb.
  rewrite (step_running _ _ _ _ Hh Hf). unfold dispatch. rewrite Hop, Hops.
  change (decode "CMP") with (Some CMP). cbv iota beta.
  unfold exec, resolveAt. cbn -[resolveOperand Num.sub Num.add setFlags].
  rewrite Ha, Hb. unfold setFlags, Num.sub. rewrite fl_eqb_0, fl_ltb_0.
  simpl. do 4 f_equal.
  - destruct (Z.eqb_spec (a - b) 0), (Z.eqb_spec a b); try reflexivity; lia.
  - destruct (Z.ltb_spec (a - b) 0), (Z.ltb_spec a b); try reflexivity; lia.
Qed.

Lemma cmp_flags_witness :
  step (program_of [instr "CMP" [OReg (GP 0%fin); OImm 5] 1]) reset createRAM
  = Ok (set_IP (set_F reset (mkFlags (0 =? 5) (0 <? 5) (CF (F reset)) (OF (F reset))))
               (Num.add (IP reset) 1)) createRAM.
Proof.
  apply (cmp_flags (program_of [instr "CMP" [OReg (GP 0%fin); OImm 5] 1]) reset createRAM
           (instr "CMP" [OReg (GP 0%fin); OImm 5] 1) (OReg (GP 0%fin)) (OImm 5) 0 5);
    reflexivity.
Defined.

Lemma jump_if_step program i cond ops cpu ram target :
  ops = [target] ->
  conclude i (jump_if program cond ops cpu ram) =
    match resolveOperand program target cpu ram with
    | inr t => Ok (set_IP cpu (if cond then t else Num.add (IP cpu) 1)) ram
    | inl e => if cond then Raise (AsmError (line i) e) cpu ram
               else Ok (set_IP cpu (Num.add (IP cpu) 1)) ram
    end.
Proof.
  intros ->. unfold jump_if, resolveAt. simpl lookup.
  destruct cond, (resolveOperand program target cpu ram); reflexivity.
Qed.

(** X2: after [CMP a, b] executed with the overflow flag clear, the next
    conditional jump is taken exactly when its relation holds between a and
    b: JZ a = b, JNZ a <> b, JG a > b, JGE a >= b, JL a < b, JLE a <= b;
    taken, it sets IP to its target, otherwise IP advances by one. *)
Theorem cmp_then_branch program cpu ram i x y a b j o t target :
  halted cpu = false ->
  fetch program cpu = Some i ->
  op i = "CMP"%string ->
  operands i = [x; y] ->
  resolveOperand program x cpu ram = inr a ->
  resolveOperand program y cpu ram = inr b ->
  OF (F cpu) = false ->
  exists cpu1,
    step program cpu ram = Ok cpu1 ram
    /\ (fetch program cpu1 = Some j ->
        decode (op j) = Some o ->
        In o compare_jumps ->
        operands j = [t] ->
        resolveOperand program t cpu1 ram = inr target ->
        step program cpu1 ram
          = Ok (set_IP cpu1 (if branch_relation o a b then target
                             else Num.add (IP cpu1) 1)) ram).
Proof.
  intros Hh Hf Hop Hops Ha Hb Hof.
  set (cpu1 := set_IP (set_F cpu (mkFlags (a =? b) (a <? b) (CF (F cpu)) (OF (F cpu))))
                      (Num.add (IP cpu) 1)).
  exists cpu1. split; [eapply cmp_flags; eassumption|].
  intros Hf1 Hd Ho Hops1 Ht.
  assert (Hh1 : halted cpu1 = false) by exact Hh.
  assert (Hz : ZF (F cpu1) = (a =? b)) by reflexivity.
  assert (Hn : NF (F cpu1) = (a <? b)) by reflexivity.
  assert (Hv : OF (F cpu1) = false) by exact Hof.
  clearbody cpu1.
  rewrite (step_running _ _ _ _ Hh1 Hf1). unfold dispatch. rewrite Hd.
  simpl in Ho.
  destruct Ho as [<-|[<-|[<-|[<-|[<-|[<-|[]]]]]]]; unfold exec;
    rewrite (jump_if_step _ _ _ _ _ _ t Hops1), Ht, ?Hz, ?Hn, ?Hv;
    unfold branch_relation; do 2 f_equal;
    destruct (Z.eqb_spec a b), (Z.ltb_spec a b), (Z.ltb_spec b a), (Z.leb_spec b a),
      (Z.leb_spec a b); simpl; try reflexivity; lia.
Qed.

Lemma cmp_then_branch_witness :
  let program := program_of [instr "CMP" [OReg (GP 0%fin); OImm 5] 1;
                             instr "JL" [OImm 7] 2] in
  exists cpu1,
    step program reset createRAM = Ok cpu1 createRAM
    /\ step program cpu1 createRAM = Ok (set_IP cpu1 7) createRAM.
Proof.
  intros program.
  destruct (cmp_then_branch program reset createRAM
              (instr "CMP" [OReg (GP 0%fin); OImm 5] 1) (OReg (GP 0%fin)) (OImm 5) 0 5
              (instr "JL" [OImm 7] 2) JL (OImm 7) 7)
    as (cpu1 & H1 & H2); try reflexivity.
  exists cpu1. split; [exact H1|].
  assert (E : step program reset createRAM
              = Ok (set_IP (set_F reset (mkFlags false true false false)) 1) createRAM)
    by (vm_compute; reflexivity).
  rewrite E in H1. injection H1 as <-.
  apply H2; try reflexivity. simpl. tauto.
Defined.

(** X3: a completed jump (JMP or any conditional jump) changes nothing but
    the instruction pointer: memory, registers, SP, BP, flags and the halted
    indicator are as before, and the new IP is either the old one plus one or
    the resolved value of the first operand. *)
Theorem jumps_change_only_IP program cpu ram i o cpu' ram' :
  halted cpu = false ->
  fetch program cpu = Some i ->
  decode (op i) = Some o ->
  In o all_jumps ->
  step program cpu ram = Ok cpu' ram' ->
  ram' = ram
  /\ cpu' = set_IP cpu (IP cpu')
  /\ (IP cpu' = Num.add (IP cpu) 1
      \/ resolveAt program (operands i) 0 cpu ram = inr (IP cpu')).
Proof.
  intros Hh Hf Hd Ho H.
  rewrite (step_running _ _ _ _ Hh Hf) in H. unfold dispatch in H. rewrite Hd in H.
  simpl in Ho.
  destruct Ho as [<-|[<-|[<-|[<-|[<-|[<-|[<-|[<-|[<-|[]]]]]]]]]];
    unfold exec, jump_if in H;
    repeat case_match; simpl in H; simplify_eq; simpl; auto.
Qed.

Lemma jumps_change_only_IP_witness :
  createRAM = createRAM
  /\ set_IP reset 3 = set_IP reset (IP (set_IP reset 3))
  /\ (IP (set_IP reset 3) = Num.add (IP reset) 1
      \/ resolveAt (program_of [instr "JMP" [OImm 3] 1])
           (operands (instr "JMP" [OImm 3] 1)) 0 reset createRAM
         = inr (IP (set_IP reset 3))).
Proof.
  apply (jumps_change_only_IP (program_of [instr "JMP" [OImm 3] 1]) reset createRAM
           (instr "JMP" [OImm 3] 1) JMP (set_IP reset 3) createRAM);
    [reflexivity | reflexivity | reflexivity | simpl; tauto | vm_compute; reflexivity].
Defined.

(** ** PUSH and POP *)

(** X4: on the 4096-byte memory with 4 <= SP < 4096, [PUSH src] lowers SP
    by 4 and stores the value at the new SP, touching no byte outside those
    four; a [POP dst] executed next gives [dst] that value (reduced to 32
    bits), leaves the memory alone and, unless [dst] is SP itself, brings SP
    back to its value before the PUSH. *)
Theorem push_pop_round_trip program cpu ram i s v j r :
  halted cpu = false ->
  fetch program cpu = Some i ->
  op i = "PUSH"%string ->
  operands i = [s] ->
  resolveOperand program s cpu ram = inr v ->
  DataView.byteLength ram = RAM_SIZE ->
  4 <= SP cpu < RAM_SIZE ->
  exists cpu1 ram1,
    step program cpu ram = Ok cpu1 ram1
    /\ SP cpu1 = SP cpu - 4
    /\ DataView.getInt32 ram1 (Some (SP cpu - 4)) = Some (Num.toInt32 v)
    /\ (forall k : nat, Z.of_nat k < SP cpu - 4 \/ SP cpu <= Z.of_nat k ->
          ram1 !! k = ram !! k)
    /\ (fetch program cpu1 = Some j ->
        op j = "POP"%string ->
        operands j = [OReg r] ->
        exists cpu2,
          step program cpu1 ram1 = Ok cpu2 ram1
          /\ read_reg cpu2 r = Num.toInt32 v
          /\ (r <> RegSP -> SP cpu2 = SP cpu)).
Proof.
  intros Hh Hf Hop Hops Hs Hlen Hsp. unfold RAM_SIZE in *.
  assert (Hsub : Num.sub (SP cpu) 4 = SP cpu - 4) by (apply fl_small; lia).
  destruct (setInt32_in_view ram (SP cpu - 4) v) as [ram1 Hset]; [lia | lia |].
  set (cpu1 := set_IP (set_SP cpu (SP cpu - 4)) (Num.add (IP cpu) 1)).
  exists cpu1, ram1.
  assert (Hword : DataView.getInt32 ram1 (Some (SP cpu - 4)) = Some (Num.toInt32 v))
    by (eapply getInt32_setInt32; eassumption).
  split; [|split; [reflexivity|split; [exact Hword|split]]].
  - rewrite (step_running _ _ _ _ Hh Hf). unfold dispatch. rewrite Hop, Hops.
    change (decode "PUSH") with (Some PUSH). cbv iota beta.
    unfold exec, resolveAt. cbn -[resolveOperand Num.sub Num.add DataView.setInt32].
    rewrite Hs, Hsub.
    destruct (Z.ltb_spec (SP cpu - 4) 0); [lia|]. rewrite Hset. reflexivity.
  - intros k Hk. eapply setInt32_other; [eassumption | lia].
  - intros Hf1 Hop1 Hops1.
    assert (Hh1 : halted cpu1 = false) by exact Hh.
    exists (set_IP (write_reg (set_SP cpu1 (Num.add (SP cpu1) 4)) r (Num.toInt32 v))
              (Num.add (IP (write_reg (set_SP cpu1 (Num.add (SP cpu1) 4)) r (Num.toInt32 v))) 1)).
    split; [|split].
    + assert (Hp : pops j) by (right; rewrite Hops1; auto).
      rewrite (step_running _ _ _ _ Hh1 Hf1), (pop_dispatch _ _ _ _ Hp).
      change (SP cpu1) with (SP cpu - 4). unfold RAM_SIZE.
      destruct (Z.leb_spec (4096 - 4) (SP cpu - 4)); [lia|].
      rewrite Hword, Hop1, Hops1. reflexivity.
    + rewrite read_reg_set_IP, read_write_reg.
      destruct r; try reflexivity. apply toInt32_id, toInt32_range.
    + intros Hr. destruct r; try contradiction; simpl;
        unfold Num.add; rewrite fl_small by lia; lia.
Qed.

Lemma push_pop_round_trip_witness :
  let program := program_of [instr "PUSH" [OImm 42] 1; instr "POP" [OReg (GP 1%fin)] 2] in
  exists cpu1 ram1 cpu2,
    step program reset createRAM = Ok cpu1 ram1
    /\ step program cpu1 ram1 = Ok cpu2 ram1
    /\ read_reg cpu2 (GP 1%fin) = Num.toInt32 42
    /\ SP cpu2 = SP reset.
Proof.
  intros program.
  destruct (push_pop_round_trip program reset createRAM (instr "PUSH" [OImm 42] 1)
              (OImm 42) 42 (instr "POP" [OReg (GP 1%fin)] 2) (GP 1%fin))
    as (cpu1 & ram1 & H1 & _ & _ & _ & H2); try reflexivity.
  { change (4 <= 4092 < 4096). lia. }
  assert (E : exists ram', step program reset createRAM
                = Ok (set_IP (set_SP reset 4088) 1) ram')
    by (eexists; vm_compute; reflexivity).
  destruct E as (ram' & E). rewrite E in H1. injection H1 as <- <-.
  destruct H2 as (cpu2 & G1 & G2 & G3); try reflexivity.
  exists (set_IP (set_SP reset 4088) 1), ram', cpu2.
  split; [exact E|]. split; [exact G1|]. split; [exact G2|]. apply G3. discriminate.
Defined.

(** ** Halting *)

Lemma halted_write_reg cpu r v : halted (write_reg cpu r v) = halted cpu.
Proof. destruct r; reflexivity. Qed.

Lemma halted_setFlags cpu x operation : halted (setFlags cpu x operation) = halted cpu.
Proof. destruct operation; reflexivity. Qed.

Lemma exec_sets_halted program o ops cpu ram c m :
  exec program o ops cpu ram = Break c m \/ exec program o ops cpu ram = Return c m ->
  halted cpu = false -> halted c = true ->
  o = HALT \/ (o = SYS /\ resolveAt program ops 0 cpu ram = inr 3).
Proof.
  intros H Hh Hc.
  destruct o; unfold exec, binary, unary, jump_if in H; destruct H as [H|H];
    repeat case_match; simplify_eq; simpl in Hc;
    rewrite ?halted_setFlags, ?halted_write_reg in Hc; simpl in Hc;
    try congruence; auto.
  all: right; split; [reflexivity|]; f_equal; lia.
Qed.

(** X5: a step that turns a running CPU into a halted one either found the
    instruction pointer at or past the end of the program, or executed HALT,
    or executed SYS with code 3. *)
Theorem halted_only_by program cpu ram cpu' ram' :
  step program cpu ram = Ok cpu' ram' ->
  halted cpu = false ->
  halted cpu' = true ->
  Z.of_nat (length (ast program)) <= IP cpu
  \/ exists i, fetch program cpu = Some i
               /\ (decode (op i) = Some HALT
                   \/ (decode (op i) = Some SYS
                       /\ resolveAt program (operands i) 0 cpu ram = inr 3)).
Proof.
  unfold step. intros H Hh Hh'. rewrite Hh in H. simpl in H.
  destruct (Z.leb_spec (Z.of_nat (length (ast program))) (IP cpu)); [left; assumption|].
  right. destruct (fetch program cpu) as [i|]; [|discriminate].
  exists i. split; [reflexivity|]. unfold dispatch in H.
  destruct (decode (op i)) as [o|]; [|discriminate].
  apply conclude_Ok in H as [(c & Hc & ->)|Hc].
  - destruct (exec_sets_halted _ _ _ _ _ _ _ (or_introl Hc) Hh Hh') as [->|[-> ?]]; auto.
  - destruct (exec_sets_halted _ _ _ _ _ _ _ (or_intror Hc) Hh Hh') as [->|[-> ?]]; auto.
Qed.

Lemma halted_only_by_witness :
  Z.of_nat (length (ast (program_of [instr "HALT" [] 1]))) <= IP reset
  \/ exists i, fetch (program_of [instr "HALT" [] 1]) reset = Some i
               /\ (decode (op i) = Some HALT
                   \/ (decode (op i) = Some SYS
                       /\ resolveAt (program_of [instr "HALT" [] 1]) (operands i) 0
                            reset createRAM = inr 3)).
Proof.
  apply (halted_only_by (program_of [instr "HALT" [] 1]) reset createRAM
           (set_halted reset true) createRAM); reflexivity.
Defined.

(** ** The step count of [run] *)

Lemma run_loop_count program breakpoints fuel steps cpu ram :
  match run_loop program breakpoints fuel steps cpu ram with
  | (Stopped s _ _, log) =>
      steps <= s <= steps + Z.of_nat fuel /\ Z.of_nat (length log) = s - steps
  | (Thrown _ s _ _, log) =>
      steps <= s < steps + Z.of_nat fuel /\ Z.of_nat (length log) = s - steps + 1
  | (RunUnmodelled, _) => True
  end.
Proof.
  revert steps cpu ram. induction fuel as [|fuel IH]; intros steps cpu ram; simpl.
  - lia.
  - destruct (halted cpu); [simpl; lia|].
    destruct (decide (IP cpu ∈ breakpoints)); [simpl; lia|].
    destruct (step program cpu ram) as [cpu' ram'| |]; [|simpl; lia|exact I].
    specialize (IH (steps + 1) cpu' ram').
    destruct (run_loop program breakpoints fuel (steps + 1) cpu' ram') as [[s c m|e s c m|] log];
      simpl in *; lia.
Qed.

(** X6: the count that [run] returns lies between 0 and [maxSteps] and is
    the number of calls of [step] it made; when a step throws, the count of
    completed steps is below [maxSteps] and one less than the calls made. *)
Theorem run_step_count program cpu ram maxSteps breakpoints :
  match run program cpu ram maxSteps breakpoints with
  | Stopped steps _ _ =>
      0 <= steps <= Z.max 0 maxSteps
      /\ Z.of_nat (length (run_executed program cpu ram maxSteps breakpoints)) = steps
  | Thrown _ steps _ _ =>
      0 <= steps < maxSteps
      /\ Z.of_nat (length (run_executed program cpu ram maxSteps breakpoints)) = steps + 1
  | RunUnmodelled => True
  end.
Proof.
  unfold run, run_executed.
  pose proof (run_loop_count program breakpoints (Z.to_nat maxSteps) 0 cpu ram) as H.
  destruct (run_loop program breakpoints (Z.to_nat maxSteps) 0 cpu ram) as [[s c m|e s c m|] log];
    simpl; lia.
Qed.

(** ** A stopped CPU *)

(** X7: on a CPU that is halted, or whose instruction pointer is at or
    past the end of the program, [step] only sets the halted indicator;
    stepping again changes nothing more, and [run] then returns 0 steps and
    the same state, whatever [maxSteps] and the breakpoints. *)
Theorem stopped_cpu_stays program cpu ram :
  halted cpu = true \/ Z.of_nat (length (ast program)) <= IP cpu ->
  step program cpu ram = Ok (set_halted cpu true) ram
  /\ step program (set_halted cpu true) ram = Ok (set_halted cpu true) ram
  /\ forall maxSteps breakpoints,
       run program (set_halted cpu true) ram maxSteps breakpoints
       = Stopped 0 (set_halted cpu true) ram.
Proof.
  intros H.
  assert (E : halted cpu || (Z.of_nat (length (ast program)) <=? IP cpu) = true).
  { destruct H as [->|H]; [reflexivity|].
    apply orb_true_iff. right. apply Z.leb_le, H. }
  split; [|split].
  - unfold step. rewrite E. reflexivity.
  - reflexivity.
  - intros maxSteps breakpoints. unfold run.
    destruct (Z.to_nat maxSteps); reflexivity.
Qed.

Lemma stopped_cpu_stays_witness :
  step (program_of []) reset createRAM = Ok (set_halted reset true) createRAM
  /\ step (program_of []) (set_halted reset true) createRAM
     = Ok (set_halted reset true) createRAM.
Proof.
  destruct (stopped_cpu_stays (program_of []) reset createRAM) as (H1 & H2 & _).
  - right. simpl. lia.
  - split; [exact H1 | exact H2].
Defined.

(** ** Bracketed general registers *)

(** X8: the token [[Rk]] for a general register Rk is parsed to a memory
    operand with the number k as its value, and resolving it reads the word
    at the absolute address k: the content of Rk plays no part (only [[SP]]
    and [[BP]], whose table values are negative, are register-indirect). *)
Theorem bracketed_general_register_is_absolute program (k : fin 8) lineNum cpu ram :
  DataView.byteLength ram = RAM_SIZE ->
  parseOperand (bracketed_register k) lineNum = inr (OMem (Z.of_nat (fin_to_nat k)) None)
  /\ resolveOperand program (OMem (Z.of_nat (fin_to_nat k)) None) cpu ram
     = inr (word_at ram (Z.of_nat (fin_to_nat k))).
Proof.
  intros Hlen. split.
  - repeat (inv_fin k; [reflexivity | intros k]). inv_fin k.
  - pose proof (fin_to_nat_lt k) as Hk.
    rewrite (resolveOperand_mem program cpu ram _ (Z.of_nat (fin_to_nat k))).
    + assert (E : out_of_bounds (Some (Z.of_nat (fin_to_nat k))) = false).
      { unfold out_of_bounds, RAM_SIZE.
        destruct (Z.ltb_spec (Z.of_nat (fin_to_nat k)) 0),
          (Z.leb_spec (4096 - 3) (Z.of_nat (fin_to_nat k))); simpl; try reflexivity; lia. }
      rewrite E. rewrite getInt32_word_at by (rewrite ?Hlen; unfold RAM_SIZE; lia).
      reflexivity.
    + simpl. unfold mem_address.
      destruct (Z.ltb_spec (Z.of_nat (fin_to_nat k)) 0); [lia | reflexivity].
Qed.

Lemma bracketed_general_register_is_absolute_witness :
  parseOperand "[R1]" 1 = inr (OMem 1 None)
  /\ resolveOperand (program_of []) (OMem 1 None) (set_R reset 1%fin 4000) createRAM
     = inr (word_at createRAM 1).
Proof.
  apply (bracketed_general_register_is_absolute (program_of []) 1%fin 1
           (set_R reset 1%fin 4000) createRAM).
  reflexivity.
Defined.

(** ** MOV and LOAD *)

Lemma read_write_reg_ne cpu r r' v : r' <> r -> read_reg (write_reg cpu r v) r' = read_reg cpu r'.
Proof.
  intros Hne. destruct r, r'; try reflexivity; try congruence.
  simpl. apply vlookup_insert_ne. congruence.
Qed.

(** X9: a completed MOV or LOAD has a register as its first operand; that
    register receives the resolved value of the second operand (reduced to
    32 bits for R0-R7, as it is for SP and BP), every other register, the
    flags and the memory are unchanged, and IP advances by one. *)
Theorem move_changes_only_destination program cpu ram i o cpu' ram' :
  halted cpu = false ->
  fetch program cpu = Some i ->
  decode (op i) = Some o ->
  In o move_opcodes ->
  step program cpu ram = Ok cpu' ram' ->
  exists r s v,
    operands i = [OReg r; s]
    /\ resolveOperand program s cpu ram = inr v
    /\ read_reg cpu' r = match r with GP _ => Num.toInt32 v | _ => v end
    /\ (forall r', r' <> r -> read_reg cpu' r' = read_reg cpu r')
    /\ F cpu' = F cpu
    /\ halted cpu' = false
    /\ IP cpu' = Num.add (IP cpu) 1
    /\ ram' = ram.
Proof.
  intros Hh Hf Hd Ho H.
  rewrite (step_running _ _ _ _ Hh Hf) in H. unfold dispatch in H. rewrite Hd in H.
  assert (E : exists r s v, operands i = [OReg r; s]
                /\ resolveOperand program s cpu ram = inr v
                /\ cpu' = set_IP (write_reg cpu r v) (Num.add (IP (write_reg cpu r v)) 1)
                /\ ram' = ram).
  { simpl in Ho. destruct Ho as [<-|[<-|[]]]; unfold exec, resolveAt in H;
      destruct (operands i) as [|o1 [|o2 [|o3 ops]]]; simpl in H; try discriminate;
      destruct (resolveOperand program o2 cpu ram) as [e|v] eqn:Ev; simpl in H;
      try discriminate; destruct o1; simpl in H; try discriminate;
      simplify_eq; eauto 10. }
  destruct E as (r & s & v & Hops & Hv & -> & ->).
  exists r, s, v. repeat split; try assumption.
  - rewrite read_reg_set_IP. apply read_write_reg.
  - intros r' Hne. rewrite read_reg_set_IP. apply read_write_reg_ne, Hne.
  - simpl. apply F_write_reg.
  - simpl. rewrite halted_write_reg. exact Hh.
  - simpl. destruct r; reflexivity.
Qed.

Lemma move_changes_only_destination_witness :
  exists r s v,
    operands (instr "MOV" [OReg (GP 0%fin); OImm 7] 1) = [OReg r; s]
    /\ resolveOperand (program_of [instr "MOV" [OReg (GP 0%fin); OImm 7] 1]) s
         reset createRAM = inr v
    /\ read_reg (set_IP (set_R reset 0%fin 7) 1) r
       = match r with GP _ => Num.toInt32 v | _ => v end.
Proof.
  destruct (move_changes_only_destination
              (program_of [instr "MOV" [OReg (GP 0%fin); OImm 7] 1]) reset createRAM
              (instr "MOV" [OReg (GP 0%fin); OImm 7] 1) MOV
              (set_IP (set_R reset 0%fin 7) 1) createRAM)
    as (r & s & v & H1 & H2 & H3 & _);
    [reflexivity | reflexivity | reflexivity | simpl; tauto | vm_compute; reflexivity |].
  exists r, s, v. split; [exact H1|]. split; [exact H2 | exact H3].
Defined.

(** * Further properties of the assembler *)

(** ** The data image *)

Lemma getInt32_ext ram ram' a :
  length ram' = length ram ->
  (forall k, 0 <= k < 4 -> ram' !! Z.to_nat (a + k) = ram !! Z.to_nat (a + k)) ->
  DataView.getInt32 ram' (Some a) = DataView.getInt32 ram (Some a).
Proof.
  intros Hlen H. unfold DataView.getInt32, DataView.byteLength, DataView.ToIndex.
  rewrite Hlen. destruct (a <? 0); [reflexivity|]. simpl.
  pose proof (H 0 ltac:(lia)) as H0. rewrite Z.add_0_r in H0.
  rewrite H0, (H 1), (H 2), (H 3) by lia. reflexivity.
Qed.

(** The four [dataSection[dataPtr++] = ...] of one [.WORD] value are the
    little-endian store of the value. *)
Lemma emit_word_setInt32 val st :
  0 <= dataPtr st ->
  dataPtr st + 4 <= Z.of_nat (length (st_dataSection st)) ->
  dataPtr st + 4 < 2 ^ 53 ->
  exists st',
    emit_values 4 [Some val] st = Some st'
    /\ DataView.setInt32 (st_dataSection st) (Some (dataPtr st)) val
       = Some (st_dataSection st')
    /\ dataPtr st' = dataPtr st + 4
    /\ st_ast st' = st_ast st /\ st_labels st' = st_labels st
    /\ currentAddress st' = currentAddress st
    /\ inDataSection st' = inDataSection st
    /\ st_textStart st' = st_textStart st.
Proof.
  intros H0 H1 H2. eexists. split; [reflexivity|].
  unfold emit_byte. cbn -[Num.add Num.toInt32 Z.pow Z.div Z.modulo].
  unfold Num.add.
  rewrite (fl_small (dataPtr st + 1)) by lia.
  rewrite (fl_small (dataPtr st + 1 + 1)) by lia.
  rewrite (fl_small (dataPtr st + 1 + 1 + 1)) by lia.
  rewrite (fl_small (dataPtr st + 1 + 1 + 1 + 1)) by lia.
  split; [|split; [lia | auto 10]].
  unfold DataView.setInt32, DataView.ToIndex, DataView.byteLength. cbv zeta.
  destruct (Z.ltb_spec (dataPtr st) 0); [lia|]. simpl mbind.
  destruct (Z.ltb_spec (Z.of_nat (length (st_dataSection st))) (dataPtr st + 4)); [lia|].
  unfold DataView.byte_of. f_equal.
  change (8 * 3) with 24. change (8 * 2) with 16. change (8 * 1) with 8.
  change (8 * 0) with 0. rewrite Z.pow_0_r, Z.div_1_r.
  replace (dataPtr st + 1 + 1 + 1) with (dataPtr st + 3) by lia.
  replace (dataPtr st + 1 + 1) with (dataPtr st + 2) by lia.
  reflexivity.
Qed.

Lemma emit_values_cons width v rest st :
  emit_values width (Some v :: rest) st
  = emit_values width [Some v] st ≫= emit_values width rest.
Proof. destruct width as [|[|w]]; reflexivity. Qed.

(** X10: emitting the values of a [.WORD] directive into the data image at
    [dataPtr], when they fit in its 1024 bytes, advances [dataPtr] by four
    per value and leaves, at [dataPtr + 4k], the k-th value as a little-endian
    signed word; no byte outside the emitted range changes. *)
Theorem word_values_round_trip (vals : list Z) st :
  0 <= dataPtr st ->
  dataPtr st + 4 * Z.of_nat (length vals) <= 1024 ->
  length (st_dataSection st) = 1024%nat ->
  exists st',
    emit_values 4 (Some <$> vals) st = Some st'
    /\ dataPtr st' = dataPtr st + 4 * Z.of_nat (length vals)
    /\ length (st_dataSection st') = 1024%nat
    /\ (forall (k : nat) v, vals !! k = Some v ->
          DataView.getInt32 (st_dataSection st') (Some (dataPtr st + 4 * Z.of_nat k))
          = Some (Num.toInt32 v))
    /\ (forall j : nat,
          Z.of_nat j < dataPtr st \/ dataPtr st + 4 * Z.of_nat (length vals) <= Z.of_nat j ->
          st_dataSection st' !! j = st_dataSection st !! j).
Proof.
  revert st. induction vals as [|v vals IH]; intros st H0 H1 Hlen.
  - exists st. simpl. split; [reflexivity|]. split; [lia|]. split; [exact Hlen|].
    split; [intros k v Hk; rewrite lookup_nil in Hk; discriminate | reflexivity].
  - simpl length in H1. rewrite fmap_cons, emit_values_cons.
    destruct (emit_word_setInt32 v st H0 ltac:(lia) ltac:(lia))
      as (st1 & E1 & Hset & Hp1 & _).
    rewrite E1. simpl mbind.
    pose proof (setInt32_length _ _ _ _ Hset) as Hlen1.
    destruct (IH st1 ltac:(lia) ltac:(lia) ltac:(congruence))
      as (st' & E & Hp & Hlen' & Hwords & Hrest).
    exists st'. split; [exact E|]. split; [simpl length; lia|]. split; [exact Hlen'|]. split.
    + intros [|k] w Hk; simpl in Hk.
      * simplify_eq. rewrite Z.mul_0_r, Z.add_0_r.
        rewrite <- (getInt32_setInt32 _ _ _ _ Hset).
        apply getInt32_ext; [congruence|].
        intros i Hi. apply Hrest. left. lia.
      * specialize (Hwords k w Hk). rewrite <- Hwords. f_equal. f_equal. lia.
    + intros j Hj. simpl length in Hj.
      rewrite Hrest by lia. eapply setInt32_other; [exact Hset | lia].
Qed.

Lemma word_values_round_trip_witness :
  exists st',
    emit_values 4 (Some <$> [1; -2; 3]) initial_state = Some st'
    /\ dataPtr st' = 12
    /\ DataView.getInt32 (st_dataSection st') (Some 4) = Some (Num.toInt32 (-2)).
Proof.
  destruct (word_values_round_trip [1; -2; 3] initial_state)
    as (st' & H1 & H2 & _ & H3 & _);
    [reflexivity | simpl; lia | reflexivity |].
  exists st'. split; [exact H1|]. split; [exact H2|].
  apply (H3 1%nat (-2)). reflexivity.
Defined.

(** ** The size of the data image *)

Lemma emit_byte_length b st :
  length (st_dataSection (emit_byte b st)) = length (st_dataSection st).
Proof. unfold emit_byte. simpl. apply length_insert. Qed.

Lemma emit_values_length width values st st' :
  emit_values width values st = Some st' ->
  length (st_dataSection st') = length (st_dataSection st).
Proof.
  revert st. induction values as [|[v|] values IH]; intros st H; simpl in H.
  - congruence.
  - apply IH in H. rewrite H. destruct width as [|[|w]]; rewrite ?emit_byte_length; reflexivity.
  - discriminate.
Qed.

Lemma pass1_line_length lineNum l st st' :
  pass1_line lineNum l st = inr st' ->
  length (st_dataSection st') = length (st_dataSection st).
Proof.
  unfold pass1_line, pass1_directive, pass1_label_or_instruction.
  intros H. repeat case_match; simplify_eq; simpl; try reflexivity;
    try (erewrite emit_values_length by eassumption; reflexivity).
Qed.

Lemma pass1_length ls lineNum st st' :
  pass1 ls lineNum st = inr st' ->
  length (st_dataSection st') = length (st_dataSection st).
Proof.
  revert lineNum st. induction ls as [|l ls IH]; intros lineNum st H; simpl in H.
  - congruence.
  - destruct (pass1_line lineNum l st) as [e|st1] eqn:E; [discriminate|].
    rewrite (IH _ _ H). eapply pass1_line_length, E.
Qed.

(** X11: the data image of every assembled program has exactly 1024 bytes
    (emissions past the end are dropped, never appended). *)
Theorem data_image_size source p :
  assemble source = inr p -> length (dataSection p) = 1024%nat.
Proof.
  unfold assemble. intros H.
  destruct (pass1 _ 1 initial_state) as [e|st] eqn:E1; [discriminate|].
  destruct (pass2 _ 1 0 (st_ast st)) as [e|a]; [discriminate|].
  simplify_eq. simpl. rewrite (pass1_length _ _ _ _ E1). reflexivity.
Qed.

Lemma data_image_size_witness :
  exists p, assemble labelled_data_source = inr p /\ length (dataSection p) = 1024%nat.
Proof.
  assert (E : exists p, assemble labelled_data_source = inr p)
    by (eexists; vm_compute; reflexivity).
  destruct E as [p E]. exists p. split; [exact E|].
  exact (data_image_size labelled_data_source p E).
Defined.

(** ** Source lines of the instructions *)

Lemma emit_values_fields width values st st' :
  emit_values width values st = Some st' ->
  st_ast st' = st_ast st /\ st_labels st' = st_labels st
  /\ currentAddress st' = currentAddress st /\ inDataSection st' = inDataSection st
  /\ st_textStart st' = st_textStart st.
Proof.
  revert st. induction values as [|[v|] values IH]; intros st H; simpl in H.
  - simplify_eq. auto.
  - apply IH in H. destruct width as [|[|w]]; exact H.
  - discriminate.
Qed.

Lemma pass1_line_ast lineNum l st st' :
  pass1_line lineNum l st = inr st' ->
  st_ast st' = st_ast st \/ st_ast st' = st_ast st ++ [skeleton_of lineNum l].
Proof.
  unfold pass1_line, pass1_directive, pass1_label_or_instruction, skeleton_of.
  intros H. repeat case_match; simplify_eq; simpl; auto;
    left;
    match goal with
    | G : emit_values _ _ _ = Some _ |- _ => apply emit_values_fields in G as [G _]; exact G
    end.
Qed.

Lemma pass1_ast ls lineNum st st' :
  pass1 ls lineNum st = inr st' ->
  exists added : list (Z * string),
    st_ast st' = st_ast st ++ ((fun nl => skeleton_of nl.1 nl.2) <$> added)
    /\ Forall (fun nl => lineNum <= nl.1
                         /\ ls !! Z.to_nat (nl.1 - lineNum) = Some nl.2) added
    /\ StronglySorted Z.lt (fst <$> added).
Proof.
  revert lineNum st. induction ls as [|l ls IH]; intros lineNum st H; simpl in H.
  - simplify_eq. exists []. simpl. rewrite app_nil_r. repeat constructor.
  - destruct (pass1_line lineNum l st) as [e|st1] eqn:E; [discriminate|].
    destruct (IH _ _ H) as (added & Hast & Hall & Hsorted).
    assert (Hshift : Forall (fun nl : Z * string => lineNum <= nl.1
                       /\ (l :: ls) !! Z.to_nat (nl.1 - lineNum) = Some nl.2) added).
    { eapply Forall_impl; [exact Hall|]. intros [n s] [Hn Hs]; simpl in *.
      split; [lia|].
      replace (Z.to_nat (n - lineNum)) with (S (Z.to_nat (n - (lineNum + 1)))) by lia.
      exact Hs. }
    destruct (pass1_line_ast _ _ _ _ E) as [E1|E1].
    + exists added. rewrite Hast, E1. auto.
    + exists ((lineNum, l) :: added). rewrite Hast, E1, <- app_assoc. simpl.
      split; [reflexivity|]. split.
      * constructor; [|exact Hshift]. simpl. split; [lia|].
        rewrite Z.sub_diag. reflexivity.
      * constructor; [exact Hsorted|].
        apply Forall_fmap. eapply Forall_impl; [exact Hall|].
        intros [n s] [Hn _]; simpl in *. lia.
Qed.

Lemma set_operands_fields a astIndex ops a' :
  set_operands a astIndex ops = Some a' ->
  op <$> a' = op <$> a /\ line <$> a' = line <$> a /\ source <$> a' = source <$> a.
Proof.
  unfold set_operands. destruct (a !! astIndex) as [i|] eqn:E; [|discriminate].
  intros H. simplify_eq. rewrite !list_fmap_insert. simpl.
  rewrite !list_insert_id; auto; rewrite list_lookup_fmap, E; reflexivity.
Qed.

Lemma pass2_fields ls lineNum astIndex a a' :
  pass2 ls lineNum astIndex a = inr a' ->
  op <$> a' = op <$> a /\ line <$> a' = line <$> a /\ source <$> a' = source <$> a.
Proof.
  revert lineNum astIndex a. induction ls as [|l ls IH]; intros lineNum astIndex a H;
    simpl in H.
  - simplify_eq. auto.
  - destruct (pass2_skips (Str.trim l)); [eapply IH, H|].
    destruct (parseOperands _ lineNum) as [e|ops]; [discriminate|].
    destruct (set_operands a astIndex ops) as [a1|] eqn:E; [|discriminate].
    destruct (IH _ _ _ H) as (H1 & H2 & H3).
    destruct (set_operands_fields _ _ _ _ E) as (G1 & G2 & G3).
    rewrite H1, H2, H3. auto.
Qed.

(** X12: in an assembled program every instruction carries the 1-based
    number of an existing source line, its [source] is that line trimmed and
    its [op] the first token of it in upper case; the instructions are in the
    order of their lines. *)
Theorem instruction_source_lines text p :
  assemble text = inr p ->
  lines p = Str.split "010" text
  /\ Forall (fun i =>
       1 <= line i <= Z.of_nat (length (lines p))
       /\ exists l, lines p !! Z.to_nat (line i - 1) = Some l
                    /\ source i = Str.trim l
                    /\ op i = Str.toUpperCase
                                (default EmptyString (head (Str.splitWhitespace (source i)))))
       (ast p)
  /\ StronglySorted Z.lt (line <$> ast p).
Proof.
  unfold assemble. intros H.
  destruct (pass1 _ 1 initial_state) as [e|st] eqn:E1; [discriminate|].
  destruct (pass2 _ 1 0 (st_ast st)) as [e|a] eqn:E2; [discriminate|].
  simplify_eq. simpl. split; [reflexivity|].
  destruct (pass1_ast _ _ _ _ E1) as (added & Hast & Hall & Hsorted). simpl in Hast.
  destruct (pass2_fields _ _ _ _ _ E2) as (Hop & Hline & Hsrc).
  assert (Hl : line <$> a = fst <$> added).
  { rewrite Hline, Hast, <- list_fmap_compose. reflexivity. }
  split; [|rewrite Hl; exact Hsorted].
  apply Forall_lookup. intros k i Hk.
  assert (Hk1 : exists i0, st_ast st !! k = Some i0
                 /\ op i = op i0 /\ line i = line i0 /\ source i = source i0).
  { pose proof (f_equal (fun x => x !! k) Hop) as Gop.
    pose proof (f_equal (fun x => x !! k) Hline) as Gline.
    pose proof (f_equal (fun x => x !! k) Hsrc) as Gsrc.
    simpl in *. rewrite !list_lookup_fmap, Hk in *. simpl in *.
    destruct (st_ast st !! k) as [i0|]; simpl in *; [|discriminate].
    exists i0. split; [reflexivity|]. split; [|split]; congruence. }
  destruct Hk1 as (i0 & Hi0 & -> & -> & ->).
  rewrite Hast, list_lookup_fmap in Hi0.
  destruct (added !! k) as [[n l]|] eqn:Ea; simpl in Hi0; [|discriminate].
  simplify_eq. simpl.
  pose proof (Forall_lookup_1 _ _ _ _ Hall Ea) as [Hn Hlk]. simpl in *.
  pose proof (lookup_lt_Some _ _ _ Hlk).
  split; [lia|]. exists l. auto.
Qed.

Lemma instruction_source_lines_witness :
  exists p, assemble labelled_data_source = inr p
            /\ StronglySorted Z.lt (line <$> ast p).
Proof.
  assert (E : exists p, assemble labelled_data_source = inr p)
    by (eexists; vm_compute; reflexivity).
  destruct E as [p E]. exists p. split; [exact E|].
  destruct (instruction_source_lines labelled_data_source p E) as (_ & _ & H). exact H.
Defined.

(** ** Errors of the assembler *)

Lemma parseOperand_error token lineNum e :
  parseOperand token lineNum = inl e ->
  exists t, e = AsmError lineNum (InvalidImmediateValue t).
Proof.
  unfold parseOperand. intros H. repeat case_match; simplify_eq; eauto.
Qed.

Lemma parseOperands_error tokens lineNum e :
  parseOperands tokens lineNum = inl e ->
  exists t, e = AsmError lineNum (InvalidImmediateValue t).
Proof.
  induction tokens as [|t tokens IH]; simpl; [discriminate|].
  destruct (parseOperand t lineNum) as [e1|o] eqn:E1.
  - intros H. simplify_eq. eapply parseOperand_error, E1.
  - destruct (parseOperands tokens lineNum) as [e2|os]; [|discriminate].
    intros H. simplify_eq. apply IH. reflexivity.
Qed.

Lemma pass1_line_error lineNum l st e :
  pass1_line lineNum l st = inl e ->
  exists m, e = AsmError lineNum m /\ assembler_message m.
Proof.
  unfold pass1_line, pass1_directive, pass1_label_or_instruction.
  intros H. repeat case_match; simplify_eq; eexists; split; try reflexivity; exact I.
Qed.

Lemma pass1_error ls lineNum st e :
  pass1 ls lineNum st = inl e ->
  exists n m, e = AsmError n m /\ assembler_message m
              /\ lineNum <= n < lineNum + Z.of_nat (length ls).
Proof.
  revert lineNum st. induction ls as [|l ls IH]; intros lineNum st H; simpl in H.
  - discriminate.
  - destruct (pass1_line lineNum l st) as [e1|st1] eqn:E.
    + simplify_eq. destruct (pass1_line_error _ _ _ _ E) as (m & -> & Hm).
      exists lineNum, m. simpl length. repeat split; auto; lia.
    + destruct (IH _ _ H) as (n & m & -> & Hm & Hn).
      exists n, m. simpl length. repeat split; auto; lia.
Qed.

Lemma pass2_error ls lineNum astIndex a e :
  pass2 ls lineNum astIndex a = inl e ->
  e = HostTypeError
  \/ exists n m, e = AsmError n m /\ assembler_message m
                 /\ lineNum <= n < lineNum + Z.of_nat (length ls).
Proof.
  revert lineNum astIndex a. induction ls as [|l ls IH]; intros lineNum astIndex a H;
    simpl in H.
  - discriminate.
  - assert (Hrec : forall idx a0, pass2 ls (lineNum + 1) idx a0 = inl e ->
              e = HostTypeError
              \/ exists n m, e = AsmError n m /\ assembler_message m
                   /\ lineNum <= n < lineNum + Z.of_nat (length (l :: ls))).
    { intros idx a0 G. destruct (IH _ _ _ G) as [->|(n & m & -> & Hm & Hn)]; [auto|].
      right. exists n, m. simpl length. repeat split; auto; lia. }
    destruct (pass2_skips (Str.trim l)); [eapply Hrec, H|].
    destruct (parseOperands _ lineNum) as [e1|ops] eqn:E.
    + simplify_eq. destruct (parseOperands_error _ _ _ E) as (t & ->).
      right. exists lineNum, (InvalidImmediateValue t). simpl length.
      repeat split; auto; lia.
    + destruct (set_operands a astIndex ops); [eapply Hrec, H|].
      simplify_eq. auto.
Qed.

(** X13: when [assemble] fails, it throws either the [TypeError] of pass 2
    or an [AsmError] whose message is one of the assembler's own (invalid
    immediate, missing or invalid [.ORG] address, invalid [.WORD] or [.BYTE]
    value) and whose line is the 1-based number of an existing source
    line. *)
Theorem assembly_error_lines text e :
  assemble text = inl e ->
  e = HostTypeError
  \/ exists n m, e = AsmError n m /\ assembler_message m
                 /\ 1 <= n <= Z.of_nat (length (Str.split "010" text)).
Proof.
  unfold assemble. intros H.
  destruct (pass1 _ 1 initial_state) as [e1|st] eqn:E1.
  - simplify_eq. destruct (pass1_error _ _ _ _ E1) as (n & m & -> & Hm & Hn).
    right. exists n, m. repeat split; auto; lia.
  - destruct (pass2 _ 1 0 (st_ast st)) as [e2|a] eqn:E2; [|discriminate].
    simplify_eq. destruct (pass2_error _ _ _ _ _ E2) as [->|(n & m & -> & Hm & Hn)]; [auto|].
    right. exists n, m. repeat split; auto; lia.
Qed.

Lemma assembly_error_lines_witness :
  AsmError 1 (InvalidImmediateValue "#x") = HostTypeError
  \/ exists n m, AsmError 1 (InvalidImmediateValue "#x") = AsmError n m
                 /\ assembler_message m
                 /\ 1 <= n <= Z.of_nat (length (Str.split "010" "MOV R0, #x")).
Proof.
  apply (assembly_error_lines "MOV R0, #x"). vm_compute. reflexivity.
Defined.

(** * Properties of the memory utilities *)

(** X14: for every integer address, [checkBounds(addr)] (word size, 4096
    bytes) accepts exactly the addresses that the engine's guard
    [addr < 0 || addr >= RAM_SIZE - 3] lets through. *)
Theorem checkBounds_agrees_with_guard a :
  Memory.checkBounds a 4 RAM_SIZE = negb (out_of_bounds (Some a)).
Proof.
  unfold Memory.checkBounds, out_of_bounds, Num.add, RAM_SIZE. f_equal. f_equal.
  pose proof (fl_gt_iff (a + 4) 4096 ltac:(reflexivity)) as H.
  destruct (Z.ltb_spec 4096 (Num.fl (a + 4))), (Z.leb_spec (4096 - 3) a);
    try reflexivity; lia.
Qed.

Lemma setUint8_in_view ram a v :
  0 <= a < DataView.byteLength ram ->
  Memory.setUint8 ram (Some a) v = Some (<[Z.to_nat a := v `mod` 256]> ram).
Proof.
  intros H. unfold Memory.setUint8, DataView.ToIndex.
  destruct (Z.ltb_spec a 0); [lia|]. simpl.
  destruct (Z.ltb_spec (DataView.byteLength ram) (a + 1)); [lia | reflexivity].
Qed.

Lemma writeChars_spec codes : forall ram addr i,
  0 <= addr -> 0 <= i ->
  addr + i + Z.of_nat (length codes) + 1 <= DataView.byteLength ram ->
  DataView.byteLength ram < 2 ^ 53 ->
  exists ram',
    Memory.writeChars ram addr i codes = Memory.Written ram'
    /\ length ram' = length ram
    /\ (forall (k : nat) c, codes !! k = Some c ->
          ram' !! Z.to_nat (addr + i + Z.of_nat k) = Some (c `mod` 256))
    /\ ram' !! Z.to_nat (addr + i + Z.of_nat (length codes)) = Some 0
    /\ (forall j : nat,
          Z.of_nat j < addr + i \/ addr + i + Z.of_nat (length codes) < Z.of_nat j ->
          ram' !! j = ram !! j).
Proof.
  induction codes as [|c codes IH]; intros ram addr i Ha Hi Hfit Hbig; simpl in *.
  - unfold Num.add. rewrite fl_small by lia.
    rewrite setUint8_in_view by lia. eexists. split; [reflexivity|].
    split; [apply length_insert|]. split; [intros k c Hk; discriminate|]. split.
    + rewrite Z.add_0_r. apply list_lookup_insert_eq.
      unfold DataView.byteLength in *. lia.
    + intros j Hj. apply list_lookup_insert_ne. lia.
  - unfold Num.add. rewrite fl_small by lia.
    rewrite setUint8_in_view by lia.
    set (ram1 := <[Z.to_nat (addr + i) := c `mod` 256]> ram).
    assert (Hlen1 : length ram1 = length ram) by apply length_insert.
    destruct (IH ram1 addr (i + 1) Ha ltac:(lia)) as (ram' & E & Hlen & Hcodes & Hnul & Hother).
    { unfold DataView.byteLength in *. rewrite Hlen1. lia. }
    { unfold DataView.byteLength in *. rewrite Hlen1. lia. }
    exists ram'. split; [exact E|]. split; [congruence|]. split; [|split].
    + intros [|k] c' Hk; simpl in Hk.
      * simplify_eq. rewrite Z.add_0_r, Hother by lia.
        apply list_lookup_insert_eq. unfold DataView.byteLength in *. lia.
      * rewrite <- (Hcodes k c' Hk). f_equal. lia.
    + rewrite <- Hnul. f_equal. lia.
    + intros j Hj. rewrite Hother by lia. apply list_lookup_insert_ne. lia.
Qed.

Lemma getUint8_in_view ram a b :
  0 <= a -> ram !! Z.to_nat a = Some b -> DataView.getUint8 ram (Some a) = Some b.
Proof.
  intros Ha Hb. pose proof (lookup_lt_Some _ _ _ Hb).
  unfold DataView.getUint8, DataView.ToIndex, DataView.byteLength.
  destruct (Z.ltb_spec a 0); [lia|]. simpl.
  destruct (Z.ltb_spec (Z.of_nat (length ram)) (a + 1)); [lia | exact Hb].
Qed.

Lemma readChars_spec n : forall ram addr i codes,
  0 <= addr -> 0 <= i ->
  DataView.byteLength ram < 2 ^ 53 ->
  Forall (fun c => c <> 0) codes ->
  (forall (k : nat) c, codes !! k = Some c ->
     ram !! Z.to_nat (addr + i + Z.of_nat k) = Some c) ->
  ram !! Z.to_nat (addr + i + Z.of_nat (length codes)) = Some 0 ->
  Memory.readChars ram addr i n = Some (take n codes).
Proof.
  induction n as [|n IH]; intros ram addr i codes Ha Hi Hbig Hnz Hcodes Hnul; simpl.
  - reflexivity.
  - pose proof (lookup_lt_Some _ _ _ Hnul) as Hlt. unfold DataView.byteLength in *.
    unfold Num.add. rewrite fl_small by lia.
    destruct (Z.ltb_spec (addr + i) (Z.of_nat (length ram))); [|lia].
    destruct codes as [|c codes].
    + simpl in Hnul. rewrite Z.add_0_r in Hnul.
      rewrite (getUint8_in_view ram (addr + i) 0 ltac:(lia) Hnul). reflexivity.
    + pose proof (Hcodes 0%nat c eq_refl) as H0. rewrite Z.add_0_r in H0.
      rewrite (getUint8_in_view ram (addr + i) c ltac:(lia) H0). simpl.
      inversion Hnz as [|? ? Hc Hnz']; subst.
      destruct (Z.eqb_spec c 0); [contradiction|].
      rewrite (IH ram addr (i + 1) codes); try assumption; try lia; [reflexivity | |].
      * intros k c' Hk. rewrite <- (Hcodes (S k) c' Hk). f_equal. lia.
      * rewrite <- Hnul. f_equal. simpl length. lia.
Qed.

(** X15: on the 4096-byte memory, [writeString] of a string of character
    codes 1..255 that fits at [addr] (terminator included) succeeds, keeps
    the size of the memory and changes no byte outside [addr .. addr + length];
    [readString] at [addr] then returns the string, cut to [maxLength]
    characters. *)
Theorem string_round_trip ram addr str maxLength :
  DataView.byteLength ram = RAM_SIZE ->
  0 <= addr ->
  addr + Z.of_nat (length str) + 1 <= RAM_SIZE ->
  Forall (fun c => 1 <= c <= 255) str ->
  exists ram',
    Memory.writeString ram addr str = Memory.Written ram'
    /\ length ram' = length ram
    /\ (forall j : nat,
          Z.of_nat j < addr \/ addr + Z.of_nat (length str) < Z.of_nat j ->
          ram' !! j = ram !! j)
    /\ Memory.readString ram' addr maxLength = Some (take (Z.to_nat maxLength) str).
Proof.
  intros Hlen Ha Hfit Hcodes. unfold RAM_SIZE in *.
  destruct (writeChars_spec str ram addr 0 Ha ltac:(lia) ltac:(lia) ltac:(lia))
    as (ram' & E & Hlen' & Hbytes & Hnul & Hother).
  exists ram'. split; [|split; [exact Hlen'|split]].
  - unfold Memory.writeString, Memory.checkBounds, Num.add, RAM_SIZE.
    rewrite (fl_small (Z.of_nat (length str) + 1)) by lia.
    rewrite fl_small by lia.
    destruct (Z.ltb_spec addr 0); [lia|].
    destruct (Z.ltb_spec 4096 (addr + (Z.of_nat (length str) + 1))); [lia|]. exact E.
  - intros j Hj. apply Hother. lia.
  - unfold Memory.readString. apply readChars_spec; try lia.
    + unfold DataView.byteLength in *. rewrite Hlen'. lia.
    + eapply Forall_impl; [exact Hcodes|]. simpl. lia.
    + intros k c Hk. rewrite (Hbytes k c Hk). f_equal.
      pose proof (Forall_lookup_1 _ _ _ _ Hcodes Hk) as Hc. simpl in Hc.
      apply Z.mod_small. lia.
    + exact Hnul.
Qed.

Lemma string_round_trip_witness :
  exists ram',
    Memory.writeString createRAM 16 [72; 105] = Memory.Written ram'
    /\ Memory.readString ram' 16 256 = Some [72; 105].
Proof.
  destruct (string_round_trip createRAM 16 [72; 105] 256)
    as (ram' & H1 & _ & _ & H2);
    [reflexivity | lia | unfold RAM_SIZE; simpl; lia
    | repeat constructor; lia |].
  exists ram'. split; [exact H1 | exact H2].
Defined.

Lemma getInt32_Some_in_view ram a v :
  DataView.getInt32 ram (Some a) = Some v ->
  0 <= a /\ a + 4 <= DataView.byteLength ram.
Proof.
  unfold DataView.getInt32, DataView.ToIndex. intros H.
  destruct (Z.ltb_spec a 0); [discriminate|]. simpl in H.
  destruct (Z.ltb_spec (DataView.byteLength ram) (a + 4)); [discriminate|]. lia.
Qed.

Lemma fl_nonneg z : 0 <= z -> 0 <= Num.fl z.
Proof.
  intros Hz. pose proof (fl_lt_iff z 0 ltac:(reflexivity)). lia.
Qed.

Lemma stack_address_exact sp i :
  0 <= sp -> 0 <= i -> Num.add sp (Num.mul i 4) < 2 ^ 52 ->
  Num.add sp (Num.mul i 4) = sp + 4 * i.
Proof.
  intros Hsp Hi Hlt. unfold Num.add, Num.mul in *.
  pose proof (fl_nonneg (i * 4) ltac:(lia)) as H1.
  pose proof (fl_nonneg (sp + Num.fl (i * 4)) ltac:(lia)) as H2.
  assert (E : Num.fl (sp + Num.fl (i * 4)) = sp + Num.fl (i * 4))
    by (apply fl_small_inv; lia).
  rewrite E in *.
  rewrite (fl_small_inv (i * 4)) by lia. lia.
Qed.

Lemma stack_address_small sp i :
  0 <= sp -> 0 <= i -> sp + 4 * i < 2 ^ 52 ->
  Num.add sp (Num.mul i 4) = sp + 4 * i.
Proof.
  intros Hsp Hi Hlt. unfold Num.add, Num.mul.
  rewrite (fl_small (i * 4)) by lia. rewrite fl_small by lia. lia.
Qed.

Lemma stackEntries_spec n : forall ram sp i (k : nat) a v,
  0 <= sp -> 0 <= i -> DataView.byteLength ram < 2 ^ 52 ->
  (Memory.stackEntries ram sp i n !! k = Some (a, v)
   <-> (k < n)%nat /\ a = sp + 4 * (i + Z.of_nat k)
       /\ a + 4 <= DataView.byteLength ram /\ v = word_at ram a).
Proof.
  induction n as [|n IH]; intros ram sp i k a v Hsp Hi Hbig; simpl.
  - rewrite lookup_nil. split; [discriminate | lia].
  - destruct (Z.leb_spec (DataView.byteLength ram) (Num.add sp (Num.mul i 4))) as [Hge|Hlt].
    + rewrite lookup_nil. split; [discriminate|]. intros (_ & -> & Hfit & _). exfalso.
      rewrite stack_address_small in Hge by lia. lia.
    + rewrite stack_address_exact in * by lia.
      destruct (Z.le_gt_cases (sp + 4 * i + 4) (DataView.byteLength ram)) as [Hfit|Hout].
      * rewrite getInt32_word_at by lia.
        destruct k as [|k]; simpl.
        -- rewrite Z.add_0_r. split.
           ++ intros H. simplify_eq. repeat split; lia.
           ++ intros (_ & -> & _ & ->). reflexivity.
        -- rewrite (IH ram sp (i + 1) k a v Hsp ltac:(lia) Hbig).
           replace (sp + 4 * (i + 1 + Z.of_nat k)) with (sp + 4 * (i + Z.of_nat (S k))) by lia.
           split; intros (? & ? & ? & ?); repeat split; auto; lia.
      * destruct (DataView.getInt32 ram (Some (sp + 4 * i))) as [w|] eqn:E.
        -- apply getInt32_Some_in_view in E. lia.
        -- rewrite lookup_nil. split; [discriminate|]. intros (_ & -> & Hfit & _). lia.
Qed.

(** X16: the k-th entry of [getStackView(ram, sp, count)] exists exactly
    when sp is not negative, k < count and the word at sp + 4k lies inside
    the memory; it then holds that address and the little-endian word
    there. *)
Theorem stack_view_entries ram sp count (k : nat) a v :
  DataView.byteLength ram < 2 ^ 52 ->
  (Memory.getStackView ram sp count !! k = Some (a, v)
   <-> 0 <= sp /\ Z.of_nat k < count /\ a = sp + 4 * Z.of_nat k
       /\ a + 4 <= DataView.byteLength ram /\ v = word_at ram a).
Proof.
  intros Hbig. unfold Memory.getStackView.
  destruct (Z.lt_ge_cases sp 0) as [Hneg|Hsp].
  - split; [|lia]. intros H. exfalso.
    destruct (Z.to_nat count) as [|n]; simpl in H; [rewrite lookup_nil in H; discriminate|].
    assert (Haddr : Num.add sp (Num.mul 0 4) < 0).
    { unfold Num.add, Num.mul. change (0 * 4) with 0. rewrite (fl_small 0) by reflexivity.
      rewrite Z.add_0_r. apply fl_lt_iff; [reflexivity | exact Hneg]. }
    destruct (Z.leb_spec (DataView.byteLength ram) (Num.add sp (Num.mul 0 4)));
      [rewrite lookup_nil in H; discriminate|].
    unfold DataView.getInt32 in H at 1. unfold DataView.ToIndex in H.
    destruct (Z.ltb_spec (Num.add sp (Num.mul 0 4)) 0); [|lia].
    simpl in H. rewrite lookup_nil in H. discriminate.
  - rewrite (stackEntries_spec _ ram sp 0 k a v Hsp ltac:(lia) Hbig).
    rewrite Z.add_0_l. split; intros H; repeat split; try tauto; lia.
Qed.

Lemma stack_view_entries_witness :
  Memory.getStackView createRAM 4088 16 !! 1%nat = Some (4092, 0)
  <-> 0 <= 4088 /\ Z.of_nat 1 < 16 /\ 4092 = 4088 + 4 * Z.of_nat 1
      /\ 4092 + 4 <= DataView.byteLength createRAM /\ 0 = word_at createRAM 4092.
Proof.
  apply (stack_view_entries createRAM 4088 16 1 4092 0). reflexivity.
Defined.

(** * The stack range of PUSH and CALL *)

Lemma push_dispatch program i cpu ram :
  pushes i ->
  dispatch program i cpu ram =
    match resolveAt program (operands i) 0 cpu ram with
    | inl e => Throw e cpu ram
    | inr value =>
        let cpu1 := set_SP cpu (Num.sub (SP cpu) 4) in
        if SP cpu1 <? 0 then Throw StackOverflow cpu1 ram else
        if String.eqb (op i) "CALL" then
          match DataView.setInt32 ram (Some (SP cpu1)) (Num.add (IP cpu1) 1) with
          | None => Throw RangeError cpu1 ram
          | Some ram' => Return (set_IP cpu1 value) ram'
          end
        else
          match DataView.setInt32 ram (Some (SP cpu1)) value with
          | None => Throw RangeError cpu1 ram
          | Some ram' => Break cpu1 ram'
          end
    end.
Proof.
  unfold dispatch. intros [[Hop | Hop] Hlen]; rewrite Hop.
  - change (decode "PUSH") with (Some PUSH). cbv iota beta. unfold exec.
    rewrite Hlen. reflexivity.
  - change (decode "CALL") with (Some CALL). cbv iota beta. unfold exec.
    rewrite Hlen. reflexivity.
Qed.

Lemma setInt32_None_iff ram a v :
  DataView.setInt32 ram (Some a) v = None <-> a < 0 \/ DataView.byteLength ram < a + 4.
Proof.
  unfold DataView.setInt32, DataView.ToIndex.
  destruct (Z.ltb_spec a 0); simpl; [split; [lia | reflexivity]|].
  destruct (Z.ltb_spec (DataView.byteLength ram) (a + 4)); split; try lia; try reflexivity.
  discriminate.
Qed.

(** X22: on the 4096-byte memory, a PUSH or CALL whose operand resolves
    completes exactly when 4 <= SP <= 4096 at entry; it raises the
    stack-overflow error exactly when SP < 4, and with SP above 4096 it fails
    with the [RangeError] of the view instead.  So a PUSH with SP = 4096
    completes: it writes the top word 4092..4095. *)
Theorem push_stack_range program cpu ram i v :
  halted cpu = false ->
  fetch program cpu = Some i ->
  pushes i ->
  resolveAt program (operands i) 0 cpu ram = inr v ->
  DataView.byteLength ram = RAM_SIZE ->
  ((exists cpu' ram', step program cpu ram = Ok cpu' ram') <-> 4 <= SP cpu <= RAM_SIZE)
  /\ ((exists cpu' ram', step program cpu ram = Raise (AsmError (line i) StackOverflow) cpu' ram')
      <-> SP cpu < 4)
  /\ ((exists cpu' ram', step program cpu ram = Raise (AsmError (line i) RangeError) cpu' ram')
      <-> RAM_SIZE < SP cpu).
Proof.
  intros Hh Hf Hp Hv Hlen.
  rewrite (step_running _ _ _ _ Hh Hf), (push_dispatch _ _ _ _ Hp), Hv.
  cbv zeta. change (SP (set_SP cpu (Num.sub (SP cpu) 4))) with (Num.sub (SP cpu) 4).
  unfold Num.sub, RAM_SIZE in *.
  pose proof (fl_lt_iff (SP cpu - 4) 0 ltac:(reflexivity)) as H0.
  pose proof (fl_lt_iff (SP cpu - 4) 4093 ltac:(reflexivity)) as H1.
  destruct (Z.ltb_spec (Num.fl (SP cpu - 4)) 0) as [Hneg|Hpos].
  - simpl. split; [|split].
    + split; [intros (? & ? & ?); discriminate | lia].
    + split; [lia | eauto].
    + split; [intros (? & ? & ?); discriminate | lia].
  - pose proof (setInt32_None_iff ram (Num.fl (SP cpu - 4))) as Hn. rewrite Hlen in Hn.
    destruct (String.eqb (op i) "CALL");
      match goal with |- context [DataView.setInt32 ram ?a ?w] =>
        specialize (Hn w); destruct (DataView.setInt32 ram a w) as [ram'|] eqn:E end;
      simpl; (split; [|split]);
      (split; [intros (? & ? & ?); try discriminate; try lia | intros ?; try (exfalso; lia); eauto]).
    all: try (assert (HH : @None (list Z) = None) by reflexivity; apply Hn in HH; lia).
    all: try (destruct (Z.lt_ge_cases 4096 (SP cpu)); [|lia];
              assert (HH : Num.fl (SP cpu - 4) < 0 \/ 4096 < Num.fl (SP cpu - 4) + 4) by lia;
              apply Hn in HH; discriminate).
Qed.

Lemma push_stack_range_witness :
  (exists cpu' ram',
     step (program_of [instr "PUSH" [OImm 7] 1]) (set_SP reset 4096) createRAM = Ok cpu' ram')
  /\ ~ (exists cpu' ram',
          step (program_of [instr "PUSH" [OImm 7] 1]) (set_SP reset 4096) createRAM
          = Raise (AsmError 1 StackOverflow) cpu' ram').
Proof.
  destruct (push_stack_range (program_of [instr "PUSH" [OImm 7] 1]) (set_SP reset 4096)
              createRAM (instr "PUSH" [OImm 7] 1) 7)
    as (H1 & H2 & _);
    [reflexivity | reflexivity | split; [left; reflexivity | reflexivity]
    | reflexivity | reflexivity |].
  split.
  - apply H1. change (4 <= 4096 <= 4096). lia.
  - intros H. apply H2 in H. change (4096 < 4) in H. lia.
Defined.

(** * The operand of LEA *)

(** X23: the value that [LEA dst, src] gives the register [dst] does not
    depend on the registers or on the memory: executed in any two states, the
    instruction either completes in both, leaving the memory alone and the
    same value in [dst] (a label's address, an immediate, or for a register or
    a bracketed register operand the register's number), or raises the
    undefined-label error in both.  ([src] is not a bracketed label.) *)
Theorem lea_ignores_state program i r s cpu1 ram1 cpu2 ram2 :
  op i = "LEA"%string ->
  operands i = [OReg r; s] ->
  (forall name, s <> OMemLabel name) ->
  halted cpu1 = false -> fetch program cpu1 = Some i ->
  halted cpu2 = false -> fetch program cpu2 = Some i ->
  (exists c1 c2,
     step program cpu1 ram1 = Ok c1 ram1 /\ step program cpu2 ram2 = Ok c2 ram2
     /\ read_reg c1 r = read_reg c2 r)
  \/ (exists name,
        s = OLabel name /\ labels program !! name = None
        /\ step program cpu1 ram1 = Raise (AsmError (line i) (UndefinedLabel name)) cpu1 ram1
        /\ step program cpu2 ram2 = Raise (AsmError (line i) (UndefinedLabel name)) cpu2 ram2).
Proof.
  intros Hop Hops Hs Hh1 Hf1 Hh2 Hf2.
  rewrite (step_running _ _ _ _ Hh1 Hf1), (step_running _ _ _ _ Hh2 Hf2).
  unfold dispatch. rewrite Hop, Hops.
  change (decode "LEA") with (Some LEA). cbv iota beta. unfold exec. simpl.
  destruct s as [r'|v|v off|name|name]; simpl.
  - left. eexists _, _. split; [reflexivity|]. split; [reflexivity|].
    rewrite !read_reg_set_IP, !read_write_reg. reflexivity.
  - left. eexists _, _. split; [reflexivity|]. split; [reflexivity|].
    rewrite !read_reg_set_IP, !read_write_reg. reflexivity.
  - left. eexists _, _. split; [reflexivity|]. split; [reflexivity|].
    rewrite !read_reg_set_IP, !read_write_reg. reflexivity.
  - exfalso. exact (Hs name eq_refl).
  - destruct (labels program !! name) as [a|] eqn:E; simpl.
    + left. eexists _, _. split; [reflexivity|]. split; [reflexivity|].
      rewrite !read_reg_set_IP, !read_write_reg. reflexivity.
    + right. exists name. auto.
Qed.

Lemma lea_ignores_state_witness :
  let program := program_of [instr "LEA" [OReg (GP 0%fin); OMem (-1) (Some 8)] 1] in
  exists c1 c2,
    step program reset createRAM = Ok c1 createRAM
    /\ step program (set_SP reset 100) createRAM = Ok c2 createRAM
    /\ read_reg c1 (GP 0%fin) = read_reg c2 (GP 0%fin).
Proof.
  intros program.
  destruct (lea_ignores_state program
              (instr "LEA" [OReg (GP 0%fin); OMem (-1) (Some 8)] 1)
              (GP 0%fin) (OMem (-1) (Some 8)) reset createRAM (set_SP reset 100) createRAM)
    as [H | (name & Hn & _)];
    [reflexivity | reflexivity | discriminate | reflexivity | reflexivity
    | reflexivity | reflexivity | exact H | discriminate].
Defined.

(** * The engine and the memory utilities *)

Lemma getUint8_Some_iff ram a :
  (exists b, DataView.getUint8 ram (Some a) = Some b /\ ram !! Z.to_nat a = Some b)
  <-> 0 <= a < DataView.byteLength ram.
Proof.
  unfold DataView.getUint8, DataView.ToIndex, DataView.byteLength. split.
  - intros (b & Hg & Hb). apply lookup_lt_Some in Hb.
    destruct (Z.ltb_spec a 0); [discriminate | lia].
  - intros Ha. destruct (Z.ltb_spec a 0); [lia|]. simpl.
    destruct (Z.ltb_spec (Z.of_nat (length ram)) (a + 1)); [lia|].
    destruct (lookup_lt_is_Some_2 ram (Z.to_nat a) ltac:(lia)) as [b Hb]. eauto.
Qed.

(** The scan of [SYS 2] succeeds exactly when [readString] returns a string
    that was ended by a zero byte or by the limit, not by the end of the
    memory. *)
Lemma print_str_readChars n : forall ram a i,
  DataView.byteLength ram < 2 ^ 53 ->
  print_str ram a i n = true
  <-> exists s, Memory.readChars ram a i n = Some s
                /\ (length s = n \/ a + i + Z.of_nat (length s) < DataView.byteLength ram).
Proof.
  induction n as [|n IH]; intros ram a i Hbig; simpl.
  - split; [intros _; exists []; auto | reflexivity].
  - unfold Num.add.
    assert (Hc : Z.abs (DataView.byteLength ram) < 2 ^ 53)
      by (unfold DataView.byteLength in *; lia).
    pose proof (fl_lt_iff (a + i) (DataView.byteLength ram) Hc) as Hlt.
    pose proof (fl_lt_iff (a + i) 0 ltac:(reflexivity)) as Hneg.
    destruct (Z.ltb_spec (Num.fl (a + i)) (DataView.byteLength ram)) as [Hin|Hout].
    + destruct (Z.lt_ge_cases (Num.fl (a + i)) 0) as [Hn|Hp].
      * assert (E : DataView.getUint8 ram (Some (Num.fl (a + i))) = None).
        { unfold DataView.getUint8, DataView.ToIndex.
          destruct (Z.ltb_spec (Num.fl (a + i)) 0); [reflexivity | lia]. }
        rewrite E. simpl. split; [discriminate | intros (s & Hs & _); discriminate].
      * assert (Hx : Num.fl (a + i) = a + i).
        { apply fl_small_inv. unfold DataView.byteLength in *. lia. }
        rewrite Hx in *.
        destruct (proj2 (getUint8_Some_iff ram (a + i)) ltac:(lia)) as (b & E & _).
        rewrite E. simpl. destruct (Z.eqb_spec b 0) as [->|Hb].
        -- split; [intros _; exists []; simpl; split; [reflexivity | lia] | reflexivity].
        -- rewrite (IH ram a (i + 1) Hbig). split.
           ++ intros (s & Hs & Hl). exists (b :: s). rewrite Hs. simpl.
              split; [reflexivity | lia].
           ++ intros (s & Hs & Hl).
              destruct (Memory.readChars ram a (i + 1) n) as [s'|]; [|discriminate].
              simpl in Hs. simplify_eq. exists s'. split; [reflexivity|]. simpl in Hl. lia.
    + assert (E : DataView.getUint8 ram (Some (Num.fl (a + i))) = None).
      { unfold DataView.getUint8, DataView.ToIndex.
        destruct (Z.ltb_spec (Num.fl (a + i)) 0); [reflexivity|]. simpl.
        destruct (Z.ltb_spec (DataView.byteLength ram) (Num.fl (a + i) + 1)); [reflexivity | lia]. }
      rewrite E. split; [discriminate|]. intros (s & Hs & Hl). simplify_eq. simpl in Hl. lia.
Qed.

Lemma sys_print_step program cpu ram i :
  halted cpu = false ->
  fetch program cpu = Some i ->
  op i = "SYS"%string ->
  length (operands i) = 1%nat ->
  resolveAt program (operands i) 0 cpu ram = inr 2 ->
  step program cpu ram
  = if print_str ram (R cpu !!! 1%fin) 0 256
    then Ok (set_IP cpu (Num.add (IP cpu) 1)) ram
    else Raise (AsmError (line i) RangeError) cpu ram.
Proof.
  intros Hh Hf Hop Hlen Hv.
  rewrite (step_running _ _ _ _ Hh Hf). unfold dispatch. rewrite Hop.
  change (decode "SYS") with (Some SYS). cbv iota beta. unfold exec.
  rewrite Hlen, Hv. simpl negb. cbv iota.
  change (2 =? 1) with false. change (2 =? 2) with true. cbv iota.
  destruct (print_str ram (R cpu !!! 1%fin) 0 256); reflexivity.
Qed.

(** X24: on the 4096-byte memory, [SYS 2] either completes, changing only
    the instruction pointer, or raises a [RangeError] with the state as it
    was; it completes exactly when [readString(ram, R1, 256)] returns a string
    that has 256 characters or ends before the end of the memory.  Where
    [readString] stops at the end of the memory, [SYS 2] fails. *)
Theorem sys_print_str program cpu ram i :
  halted cpu = false ->
  fetch program cpu = Some i ->
  op i = "SYS"%string ->
  length (operands i) = 1%nat ->
  resolveAt program (operands i) 0 cpu ram = inr 2 ->
  DataView.byteLength ram = RAM_SIZE ->
  (step program cpu ram = Ok (set_IP cpu (Num.add (IP cpu) 1)) ram
   \/ step program cpu ram = Raise (AsmError (line i) RangeError) cpu ram)
  /\ (step program cpu ram = Ok (set_IP cpu (Num.add (IP cpu) 1)) ram
      <-> exists s, Memory.readString ram (R cpu !!! 1%fin) 256 = Some s
                    /\ (length s = 256%nat
                        \/ R cpu !!! 1%fin + Z.of_nat (length s) < RAM_SIZE)).
Proof.
  intros Hh Hf Hop Hlen Hv Hram.
  rewrite (sys_print_step _ _ _ _ Hh Hf Hop Hlen Hv).
  pose proof (print_str_readChars 256 ram (R cpu !!! 1%fin) 0
                ltac:(rewrite Hram; reflexivity)) as H.
  rewrite Z.add_0_r, Hram in H. unfold Memory.readString.
  change (Z.to_nat 256) with 256%nat.
  destruct (print_str ram (R cpu !!! 1%fin) 0 256); simpl.
  - split; [left; reflexivity|]. split; [intros _; apply H; reflexivity | reflexivity].
  - split; [right; reflexivity|]. split; [discriminate|].
    intros Hs. apply H in Hs. discriminate.
Qed.

Lemma sys_print_str_witness :
  let program := program_of [instr "SYS" [OImm 2] 1] in
  step program (set_R reset 1%fin 4095) (<[4095%nat := 65]> createRAM)
  = Raise (AsmError 1 RangeError) (set_R reset 1%fin 4095) (<[4095%nat := 65]> createRAM)
  /\ Memory.readString (<[4095%nat := 65]> createRAM) 4095 256 = Some [65].
Proof.
  intros program.
  destruct (sys_print_str program (set_R reset 1%fin 4095) (<[4095%nat := 65]> createRAM)
              (instr "SYS" [OImm 2] 1))
    as (H1 & H2); [reflexivity | reflexivity | reflexivity | reflexivity | reflexivity
                  | reflexivity |].
  assert (E : Memory.readString (<[4095%nat := 65]> createRAM) 4095 256 = Some [65])
    by (vm_compute; reflexivity).
  split; [|exact E].
  destruct H1 as [H1 | H1]; [|exact H1].
  exfalso. apply H2 in H1 as (s & Hs & Hl).
  change (R (set_R reset 1%fin 4095) !!! 1%fin) with 4095 in Hs, Hl.
  rewrite E in Hs. injection Hs as <-. simpl in Hl. unfold RAM_SIZE in Hl. lia.
Defined.

(** X25: a string that [writeString] has put into the 4096-byte memory at
    [addr] (character codes 1..255, terminator included in the fit) is one
    that [SYS 2] prints without an error when R1 holds [addr]: the step
    completes and changes only the instruction pointer. *)
Theorem written_string_prints program cpu ram i addr str :
  DataView.byteLength ram = RAM_SIZE ->
  0 <= addr ->
  addr + Z.of_nat (length str) + 1 <= RAM_SIZE ->
  Forall (fun c => 1 <= c <= 255) str ->
  halted cpu = false ->
  fetch program cpu = Some i ->
  op i = "SYS"%string ->
  length (operands i) = 1%nat ->
  R cpu !!! 1%fin = addr ->
  exists ram',
    Memory.writeString ram addr str = Memory.Written ram'
    /\ (resolveAt program (operands i) 0 cpu ram' = inr 2 ->
        step program cpu ram' = Ok (set_IP cpu (Num.add (IP cpu) 1)) ram').
Proof.
  intros Hlen Ha Hfit Hcodes Hh Hf Hop Hops HR. unfold RAM_SIZE in *.
  destruct (writeChars_spec str ram addr 0 Ha ltac:(lia) ltac:(lia) ltac:(lia))
    as (ram' & E & Hlen' & Hbytes & Hnul & Hother).
  exists ram'. split.
  - unfold Memory.writeString, Memory.checkBounds, Num.add, RAM_SIZE.
    rewrite (fl_small (Z.of_nat (length str) + 1)) by lia.
    rewrite fl_small by lia.
    destruct (Z.ltb_spec addr 0); [lia|].
    destruct (Z.ltb_spec 4096 (addr + (Z.of_nat (length str) + 1))); [lia|]. exact E.
  - intros Hv. rewrite (sys_print_step _ _ _ _ Hh Hf Hop Hops Hv), HR.
    assert (Hbig : DataView.byteLength ram' < 2 ^ 53)
      by (unfold DataView.byteLength in *; rewrite Hlen'; lia).
    assert (Hread : Memory.readChars ram' addr 0 256 = Some (take 256 str)).
    { apply readChars_spec; try lia.
      - eapply Forall_impl; [exact Hcodes|]. simpl. lia.
      - intros k c Hk. rewrite (Hbytes k c Hk). f_equal.
        pose proof (Forall_lookup_1 _ _ _ _ Hcodes Hk) as Hc. simpl in Hc.
        apply Z.mod_small. lia.
      - exact Hnul. }
    assert (Hp : print_str ram' addr 0 256 = true).
    { apply (print_str_readChars 256 ram' addr 0 Hbig).
      exists (take 256 str). split; [exact Hread|].
      rewrite length_take. unfold DataView.byteLength in *. rewrite Hlen'.
      destruct (Nat.le_gt_cases 256 (length str)); [left; lia | right; lia]. }
    rewrite Hp. reflexivity.
Qed.

Lemma written_string_prints_witness :
  let program := program_of [instr "SYS" [OImm 2] 1] in
  exists ram',
    Memory.writeString createRAM 16 [72; 105] = Memory.Written ram'
    /\ step program (set_R reset 1%fin 16) ram'
       = Ok (set_IP (set_R reset 1%fin 16) (Num.add 0 1)) ram'.
Proof.
  intros program.
  destruct (written_string_prints program (set_R reset 1%fin 16) createRAM
              (instr "SYS" [OImm 2] 1) 16 [72; 105])
    as (ram' & H1 & H2);
    [reflexivity | lia | unfold RAM_SIZE; simpl; lia | repeat constructor; lia
    | reflexivity | reflexivity | reflexivity | reflexivity | reflexivity |].
  exists ram'. split; [exact H1 | apply H2; reflexivity].
Defined.

(** * The runner: loading the data image *)

Lemma emit_byte_bytes b st :
  Forall is_byte (st_dataSection st) -> Forall is_byte (st_dataSection (emit_byte b st)).
Proof.
  intros H. unfold emit_byte. simpl.
  destruct (decide (Z.to_nat (dataPtr st) < length (st_dataSection st))%nat) as [Hlt|Hge].
  - apply Forall_insert; [exact H|]. unfold is_byte. apply Z.mod_pos_bound. lia.
  - rewrite list_insert_ge by lia. exact H.
Qed.

Lemma emit_values_bytes width values st st' :
  emit_values width values st = Some st' ->
  Forall is_byte (st_dataSection st) -> Forall is_byte (st_dataSection st').
Proof.
  revert st. induction values as [|[v|] values IH]; intros st H Hb; simpl in H.
  - congruence.
  - apply IH in H; [exact H|]. destruct width as [|[|w]]; repeat apply emit_byte_bytes; exact Hb.
  - discriminate.
Qed.

Lemma pass1_line_bytes lineNum l st st' :
  pass1_line lineNum l st = inr st' ->
  Forall is_byte (st_dataSection st) -> Forall is_byte (st_dataSection st').
Proof.
  unfold pass1_line, pass1_directive, pass1_label_or_instruction.
  intros H Hb. repeat case_match; simplify_eq; simpl; try exact Hb;
    try (eapply emit_values_bytes; [eassumption | exact Hb]).
Qed.

Lemma pass1_bytes ls lineNum st st' :
  pass1 ls lineNum st = inr st' ->
  Forall is_byte (st_dataSection st) -> Forall is_byte (st_dataSection st').
Proof.
  revert lineNum st. induction ls as [|l ls IH]; intros lineNum st H Hb; simpl in H.
  - congruence.
  - destruct (pass1_line lineNum l st) as [e|st1] eqn:E; [discriminate|].
    eapply IH; [exact H|]. eapply pass1_line_bytes; eassumption.
Qed.

(** The copy loop, with [done] already copied and [rest] still to be
    overwritten. *)
Lemma copyData_spec (bytes : list Z) : forall (done rest : list Z) (i : Z),
  i = Z.of_nat (length done) ->
  (length bytes <= length rest)%nat ->
  Forall is_byte bytes ->
  AsmRunner.copyData (done ++ rest) i bytes = Some (done ++ bytes ++ drop (length bytes) rest).
Proof.
  induction bytes as [|b bytes IH]; intros done rest i Hi Hlen Hb; simpl.
  - rewrite drop_0. reflexivity.
  - destruct rest as [|r rest]; [simpl in Hlen; lia|]. simpl in Hlen.
    inversion Hb as [|? ? Hb0 Hb']; subst.
    rewrite setUint8_in_view
      by (unfold DataView.byteLength; rewrite length_app; simpl; lia).
    rewrite Nat2Z.id.
    replace (<[length done:=b `mod` 256]> (done ++ r :: rest))
      with ((done ++ [b]) ++ rest).
    2:{ rewrite insert_app_r_alt by lia. rewrite Nat.sub_diag. simpl.
        rewrite <- app_assoc. simpl. f_equal. f_equal. symmetry. apply Z.mod_small. exact Hb0. }
    simpl. rewrite (IH (done ++ [b]) rest); [|rewrite length_app; simpl; lia|lia|exact Hb'].
    rewrite <- app_assoc. reflexivity.
Qed.

(** X26: for every program that [assemble] returns, the copy loop of
    [handleAssemble] succeeds and gives a 4096-byte memory that consists of
    the 1024 bytes of the data image followed by zeros; a word read anywhere
    in 0..1020 of that memory is the word at the same place of the data
    image. *)
Theorem data_image_loaded source p :
  assemble source = inr p ->
  exists ram,
    AsmRunner.initialRAM p = Some ram
    /\ ram = dataSection p ++ replicate 3072 0
    /\ DataView.byteLength ram = RAM_SIZE
    /\ forall a, 0 <= a <= 1020 ->
         DataView.getInt32 ram (Some a) = DataView.getInt32 (dataSection p) (Some a).
Proof.
  unfold assemble. intros H.
  destruct (pass1 _ 1 initial_state) as [e|st] eqn:E1; [discriminate|].
  destruct (pass2 _ 1 0 (st_ast st)) as [e|a]; [discriminate|].
  simplify_eq. unfold AsmRunner.initialRAM. simpl dataSection.
  pose proof (pass1_length _ _ _ _ E1) as Hlen.
  change (length (st_dataSection initial_state)) with 1024%nat in Hlen.
  assert (Hb : Forall is_byte (st_dataSection st)).
  { eapply pass1_bytes; [exact E1|]. apply Forall_replicate. unfold is_byte. lia. }
  set (zeros := replicate 3072 0).
  assert (Hz : length zeros = 3072%nat) by apply length_replicate.
  exists (st_dataSection st ++ zeros).
  split; [|split; [reflexivity|split]].
  - pose proof (copyData_spec (st_dataSection st) [] createRAM 0 eq_refl) as Hc.
    simpl in Hc. rewrite Hc; [|rewrite Hlen; vm_compute; lia|exact Hb].
    f_equal. f_equal. rewrite Hlen. reflexivity.
  - unfold DataView.byteLength. rewrite length_app, Hlen, Hz. reflexivity.
  - clearbody zeros. intros a0 Ha. unfold DataView.getInt32, DataView.ToIndex, DataView.byteLength.
    destruct (Z.ltb_spec a0 0); [lia|]. simpl.
    rewrite length_app, Hlen, Hz.
    destruct (Z.ltb_spec (Z.of_nat (1024 + 3072)) (a0 + 4)); [lia|].
    destruct (Z.ltb_spec (Z.of_nat 1024) (a0 + 4)); [lia|].
    rewrite !lookup_app_l by lia. reflexivity.
Qed.

Lemma data_image_loaded_witness :
  exists p ram,
    assemble labelled_data_source = inr p
    /\ AsmRunner.initialRAM p = Some ram
    /\ DataView.getInt32 ram (Some 4) = DataView.getInt32 (dataSection p) (Some 4).
Proof.
  assert (E : exists p, assemble labelled_data_source = inr p)
    by (eexists; vm_compute; reflexivity).
  destruct E as [p E].
  destruct (data_image_loaded labelled_data_source p E) as (ram & H1 & _ & _ & H2).
  exists p, ram. split; [exact E|]. split; [exact H1 | apply H2; lia].
Defined.

(** * The runner: the selection that shows an error *)

Lemma lineOffset_shift ls : forall n c,
  AsmRunner.lineOffset ls n c = c + AsmRunner.lineOffset ls n 0.
Proof.
  induction ls as [|l ls IH]; intros [|n] c; simpl; try lia.
  rewrite (IH n (c + _ + 1)), (IH n (0 + _ + 1)). lia.
Qed.

Lemma lineOffset_ge ls : forall n c, c <= AsmRunner.lineOffset ls n c.
Proof.
  induction ls as [|l ls IH]; intros [|n] c; simpl; try lia.
  pose proof (IH n (c + Z.of_nat (String.length l) + 1)). lia.
Qed.

Lemma split_nonempty c s : Str.split c s <> [].
Proof. destruct s as [|a s]; simpl; [discriminate|]. repeat case_match; discriminate. Qed.

(** Where the n-th piece of [code.split('\n')] lies in [code]. *)
Lemma split_line_offsets code : forall (n : nat) l,
  Str.split "010" code !! n = Some l ->
  exists k : nat,
    AsmRunner.lineOffset (Str.split "010" code) n 0 = Z.of_nat k
    /\ String.substring k (String.length l) code = l
    /\ (k + String.length l <= String.length code)%nat
    /\ (k = 0%nat \/ exists j, k = S j /\ String.get j code = Some "010"%char)
    /\ String.get (k + String.length l) code
       = if (k + String.length l =? String.length code)%nat then None else Some "010"%char.
Proof.
  induction code as [|a code IH]; intros n l Hl.
  - simpl in Hl. destruct n; simpl in Hl; simplify_eq.
    exists 0%nat. simpl. auto 10.
  - simpl in Hl. simpl Str.split. destruct (Ascii.eqb_spec a "010"%char) as [->|Hne].
    + destruct n as [|n]; simpl in Hl.
      * simplify_eq. exists 0%nat. simpl. split; [reflexivity|]. split; [reflexivity|].
        split; [lia|]. split; [left; reflexivity | reflexivity].
      * destruct (IH n l Hl) as (k & Hk & Hsub & Hle & Hpre & Hpost).
        exists (S k). simpl AsmRunner.lineOffset. rewrite lineOffset_shift, Hk.
        split; [simpl; lia|]. split; [exact Hsub|]. split; [simpl; lia|].
        split.
        -- right. exists k. split; [reflexivity|].
           destruct Hpre as [->|(j & -> & Hj)]; [reflexivity | exact Hj].
        -- exact Hpost.
    + destruct (Str.split "010" code) as [|w ws] eqn:E;
        [exfalso; exact (split_nonempty _ _ E)|].
      destruct n as [|n]; simpl in Hl.
      * simplify_eq. destruct (IH 0%nat w eq_refl) as (k & Hk & Hsub & Hle & Hpre & Hpost).
        simpl in Hk. assert (k = 0%nat) as -> by lia.
        exists 0%nat. split; [reflexivity|]. simpl. rewrite Hsub.
        split; [reflexivity|]. split; [simpl in Hle; lia|]. split; [left; reflexivity|].
        exact Hpost.
      * destruct (IH (S n) l Hl) as (k & Hk & Hsub & Hle & Hpre & Hpost).
        simpl in Hk. rewrite lineOffset_shift in Hk.
        assert (Hk1 : (1 <= k)%nat) by (pose proof (lineOffset_ge ws n 0); lia).
        destruct k as [|k]; [lia|].
        exists (S (S k)). simpl AsmRunner.lineOffset. rewrite lineOffset_shift.
        split; [simpl String.length; lia|]. split; [exact Hsub|]. split; [simpl; lia|].
        split.
        -- right. exists (S k). split; [reflexivity|].
           destruct Hpre as [?|(j & Hj & Hg)]; [discriminate|].
           injection Hj as <-. exact Hg.
        -- exact Hpost.
Qed.

(** X27: when [assemble] throws an [AsmError], the range that
    [highlightErrorLine] selects for the error's line number is exactly the
    source line of that number: the text between the two offsets is that
    line, the selection starts at the beginning of the text or right after a
    newline, and ends at the end of the text or at a newline.  The same holds
    for any line number between 1 and the number of lines. *)
Theorem error_line_selected code lineNum :
  (exists msg, assemble code = inl (AsmError lineNum msg))
  \/ 1 <= lineNum <= Z.of_nat (length (Str.split "010" code)) ->
  exists (l : string) (s : nat),
    Str.split "010" code !! Z.to_nat (lineNum - 1) = Some l
    /\ AsmRunner.errorSelection code lineNum
       = (Z.of_nat s, Z.of_nat s + Z.of_nat (String.length l))
    /\ String.substring s (String.length l) code = l
    /\ (s = 0%nat \/ exists j, s = S j /\ String.get j code = Some "010"%char)
    /\ ((s + String.length l)%nat = String.length code
        \/ String.get (s + String.length l) code = Some "010"%char).
Proof.
  intros H.
  assert (Hrange : 1 <= lineNum <= Z.of_nat (length (Str.split "010" code))).
  { destruct H as [[msg H] | H]; [|exact H]. unfold assemble in H.
    destruct (pass1 _ 1 initial_state) as [e1|st] eqn:E1.
    - simplify_eq. destruct (pass1_error _ _ _ _ E1) as (n & m & Hn & _ & Hr).
      injection Hn as -> ->. lia.
    - destruct (pass2 _ 1 0 (st_ast st)) as [e2|a] eqn:E2; [|discriminate].
      simplify_eq. destruct (pass2_error _ _ _ _ _ E2) as [?|(n & m & Hn & _ & Hr)];
        [discriminate|].
      injection Hn as -> ->. lia. }
  destruct (lookup_lt_is_Some_2 (Str.split "010" code) (Z.to_nat (lineNum - 1)) ltac:(lia))
    as [l Hl].
  destruct (split_line_offsets code _ l Hl) as (k & Hk & Hsub & Hle & Hpre & Hpost).
  exists l, k. split; [exact Hl|]. split; [|split; [exact Hsub|split; [exact Hpre|]]].
  - unfold AsmRunner.errorSelection. cbv zeta. rewrite Hk, Hl.
    destruct (Z.ltb_spec (lineNum - 1) 0); [lia | reflexivity].
  - destruct (Nat.eqb_spec (k + String.length l) (String.length code)); auto.
Qed.

Lemma error_line_selected_witness :
  let code := ("NOP" ++ newline ++ "MOV R0, #x")%string in
  exists (l : string) (s : nat),
    Str.split "010" code !! Z.to_nat (2 - 1) = Some l
    /\ AsmRunner.errorSelection code 2
       = (Z.of_nat s, Z.of_nat s + Z.of_nat (String.length l))
    /\ String.substring s (String.length l) code = l.
Proof.
  intros code.
  destruct (error_line_selected code 2) as (l & s & H1 & H2 & H3 & _).
  - left. exists (InvalidImmediateValue "#x"). vm_compute. reflexivity.
  - exists l, s. auto.
Defined.

(** * The memory dump *)

(** ** Strings *)

Lemma str_length_app (a b : string) :
  String.length (a ++ b) = (String.length a + String.length b)%nat.
Proof. induction a as [|c a IH]; simpl; [reflexivity | rewrite IH; reflexivity]. Qed.

Lemma str_app_cons x (a b : string) : (String x a ++ b)%string = String x (a ++ b).
Proof. reflexivity. Qed.

Lemma str_app_assoc (a b c : string) : ((a ++ b) ++ c = a ++ (b ++ c))%string.
Proof.
  induction a as [|x a IH]; [reflexivity|]. rewrite !str_app_cons. f_equal. exact IH.
Qed.

Lemma str_app_nil_r (a : string) : (a ++ EmptyString)%string = a.
Proof. induction a as [|x a IH]; [reflexivity|]. rewrite str_app_cons. f_equal. exact IH. Qed.

Lemma substring_skip (a b : string) (k n : nat) :
  String.substring (String.length a + k) n (a ++ b) = String.substring k n b.
Proof. induction a as [|x a IH]; [reflexivity|]. rewrite str_app_cons. exact IH. Qed.

Lemma substring_prefix (a b : string) :
  String.substring 0 (String.length a) (a ++ b) = a.
Proof.
  induction a as [|x a IH]; [destruct b; reflexivity|].
  rewrite str_app_cons. simpl. f_equal. exact IH.
Qed.

Lemma toUpperCase_app (a b : string) :
  Str.toUpperCase (a ++ b) = (Str.toUpperCase a ++ Str.toUpperCase b)%string.
Proof.
  induction a as [|x a IH]; [reflexivity|].
  rewrite str_app_cons. simpl. rewrite str_app_cons. f_equal. exact IH.
Qed.

Lemma toUpperCase_length (a : string) : String.length (Str.toUpperCase a) = String.length a.
Proof. induction a as [|x a IH]; simpl; [reflexivity | rewrite IH; reflexivity]. Qed.

Lemma hex_value_from_app (a b : string) : forall acc,
  hex_value_from (a ++ b) acc = hex_value_from a acc ≫= hex_value_from b.
Proof.
  induction a as [|x a IH]; intros acc; [reflexivity|].
  rewrite str_app_cons. simpl.
  destruct (hex_digit_value x); simpl; [apply IH | reflexivity].
Qed.

Lemma upper_hex_digit d :
  0 <= d < 16 -> hex_digit_value (Str.upper (Memory.hex_digit d)) = Some d.
Proof.
  intros H.
  assert (d = 0 \/ d = 1 \/ d = 2 \/ d = 3 \/ d = 4 \/ d = 5 \/ d = 6 \/ d = 7 \/ d = 8
          \/ d = 9 \/ d = 10 \/ d = 11 \/ d = 12 \/ d = 13 \/ d = 14 \/ d = 15) as Hd by lia.
  repeat (destruct Hd as [->|Hd]; [vm_compute; reflexivity|]). subst. vm_compute. reflexivity.
Qed.

Lemma digits16_spec fuel : forall n acc,
  (1 <= fuel)%nat ->
  0 <= n < 16 ^ Z.of_nat fuel ->
  exists d,
    Memory.digits16 fuel n acc = (d ++ acc)%string
    /\ (forall a, hex_value_from (Str.toUpperCase d) a
                  = Some (a * 16 ^ Z.of_nat (String.length d) + n))
    /\ (1 <= String.length d)%nat
    /\ (forall k : nat, (1 <= k)%nat -> n < 16 ^ Z.of_nat k -> (String.length d <= k)%nat).
Proof.
  induction fuel as [|fuel IH]; intros n acc Hfuel Hn.
  - lia.
  - simpl Memory.digits16.
    pose proof (Z.mod_pos_bound n 16 ltac:(lia)) as Hm.
    pose proof (Z.div_mod n 16 ltac:(lia)) as Hdm.
    destruct (Z.eqb_spec (n `div` 16) 0) as [Hz|Hnz].
    + exists (String (Memory.hex_digit (n `mod` 16)) EmptyString). split; [reflexivity|].
      split; [|split; [simpl; lia | intros k Hk _; simpl; lia]].
      intros a. simpl. rewrite upper_hex_digit by lia. simpl. f_equal. lia.
    + assert (Hq : 0 <= n `div` 16 < 16 ^ Z.of_nat fuel).
      { split; [apply Z.div_pos; lia|]. apply Z.div_lt_upper_bound; [lia|].
        rewrite Nat2Z.inj_succ, Z.pow_succ_r in Hn by lia. lia. }
      assert (Hf : (1 <= fuel)%nat).
      { destruct fuel; [|lia]. change (16 ^ Z.of_nat 0) with 1 in Hq. lia. }
      destruct (IH (n `div` 16) (String (Memory.hex_digit (n `mod` 16)) acc) Hf Hq)
        as (d & Hd & Hv & Hl & Hk).
      exists (d ++ String (Memory.hex_digit (n `mod` 16)) EmptyString)%string.
      split; [rewrite Hd, str_app_assoc; reflexivity|]. split; [|split].
      * intros a. rewrite toUpperCase_app, hex_value_from_app, Hv. simpl.
        rewrite upper_hex_digit by lia. simpl. f_equal.
        rewrite str_length_app. simpl String.length.
        rewrite Nat2Z.inj_add, Z.pow_add_r by lia. change (16 ^ Z.of_nat 1) with 16. lia.
      * rewrite str_length_app. simpl. lia.
      * intros k Hk1 Hlt. rewrite str_length_app. simpl String.length.
        destruct k as [|[|k]]; [lia | |].
        -- change (16 ^ Z.of_nat 1) with 16 in Hlt.
           assert (n `div` 16 = 0) by (apply Z.div_small; lia). contradiction.
        -- assert (String.length d <= S k)%nat; [|lia].
           apply Hk; [lia|]. apply Z.div_lt_upper_bound; [lia|].
           rewrite (Nat2Z.inj_succ (S k)), Z.pow_succ_r in Hlt by lia. lia.
Qed.

Lemma toString16_nonneg v :
  0 <= v ->
  exists d,
    Memory.toString16 v = d
    /\ (forall a, hex_value_from (Str.toUpperCase d) a
                  = Some (a * 16 ^ Z.of_nat (String.length d) + v))
    /\ (1 <= String.length d)%nat
    /\ (forall k : nat, (1 <= k)%nat -> v < 16 ^ Z.of_nat k -> (String.length d <= k)%nat).
Proof.
  intros Hv. unfold Memory.toString16. cbv zeta.
  destruct (Z.ltb_spec v 0); [lia|]. rewrite Z.abs_eq by lia.
  destruct (digits16_spec (S (Z.to_nat (Z.log2 v))) v EmptyString) as (d & Hd & H1 & H2 & H3).
  - lia.
  - split; [lia|]. rewrite Nat2Z.inj_succ, Z2Nat.id by apply Z.log2_nonneg.
    destruct (Z.eq_dec v 0) as [->|Hnz]; [reflexivity|].
    pose proof (Z.log2_spec v ltac:(lia)) as [_ Hlt].
    eapply Z.lt_le_trans; [exact Hlt|].
    assert (0 <= Z.log2 v) by apply Z.log2_nonneg.
    transitivity (2 ^ (4 * Z.succ (Z.log2 v))).
    + apply Z.pow_le_mono_r; lia.
    + rewrite Z.pow_mul_r by lia. reflexivity.
  - exists d. rewrite Hd, str_app_nil_r. auto.
Qed.

Lemma hex_value_from_zeros k : forall s,
  hex_value_from (Memory.repeat_char k "0" ++ s) 0 = hex_value_from s 0.
Proof.
  induction k as [|k IH]; intros s; [reflexivity|].
  simpl Memory.repeat_char. rewrite str_app_cons. simpl. apply IH.
Qed.

Lemma repeat_char_length k c : String.length (Memory.repeat_char k c) = k.
Proof. induction k as [|k IH]; simpl; [reflexivity | rewrite IH; reflexivity]. Qed.

Lemma hex_value_nonempty s :
  (1 <= String.length s)%nat -> hex_value s = hex_value_from s 0.
Proof. destruct s; simpl; [lia | reflexivity]. Qed.

Lemma padStart_spec v (padding : nat) :
  0 <= v ->
  let h := Memory.padStart (Str.toUpperCase (Memory.toString16 v)) padding in
  hex_value h = Some v
  /\ (padding <= String.length h)%nat
  /\ ((1 <= padding)%nat -> v < 16 ^ Z.of_nat padding -> String.length h = padding).
Proof.
  intros Hv h. destruct (toString16_nonneg v Hv) as (d & Hd & H1 & H2 & H3).
  subst h. rewrite Hd. unfold Memory.padStart.
  set (h := (Memory.repeat_char (padding - String.length (Str.toUpperCase d)) "0"
             ++ Str.toUpperCase d)%string).
  assert (Hlen : String.length h = (padding - String.length d + String.length d)%nat).
  { unfold h. rewrite str_length_app, repeat_char_length, toUpperCase_length. reflexivity. }
  split; [|split].
  - rewrite hex_value_nonempty by lia.
    unfold h. rewrite hex_value_from_zeros, H1. f_equal; lia.
  - rewrite Hlen. lia.
  - intros Hp Hlt. rewrite Hlen. specialize (H3 padding Hp Hlt). lia.
Qed.


Lemma dumpRow_spec ram addr n : forall j line ascii,
  0 <= addr -> 0 <= j -> DataView.byteLength ram < 2 ^ 53 ->
  Memory.dumpRow ram addr j n line ascii
  = Some ((line ++ hex_column (take n (drop (Z.to_nat (addr + j)) ram)))%string,
          (ascii ++ char_column (take n (drop (Z.to_nat (addr + j)) ram)))%string).
Proof.
  induction n as [|n IH]; intros j line ascii Ha Hj Hbig; simpl Memory.dumpRow.
  - rewrite take_0. simpl. rewrite !str_app_nil_r. reflexivity.
  - unfold Num.add.
    assert (Hc : Z.abs (DataView.byteLength ram) < 2 ^ 53)
      by (unfold DataView.byteLength in *; lia).
    pose proof (fl_lt_iff (addr + j) (DataView.byteLength ram) Hc) as Hlt.
    destruct (Z.ltb_spec (Num.fl (addr + j)) (DataView.byteLength ram)) as [Hin|Hout].
    + rewrite fl_small by (unfold DataView.byteLength in *; lia).
      destruct (lookup_lt_is_Some_2 ram (Z.to_nat (addr + j))) as [b Hb];
        [unfold DataView.byteLength in *; lia|].
      rewrite (getUint8_in_view ram (addr + j) b ltac:(lia) Hb). simpl.
      rewrite (IH (j + 1)) by lia.
      replace (Z.to_nat (addr + (j + 1))) with (S (Z.to_nat (addr + j))) by lia.
      rewrite (drop_S _ _ _ Hb). simpl.
      rewrite !str_app_assoc. reflexivity.
    + rewrite drop_ge by (unfold DataView.byteLength in *; lia).
      rewrite take_nil. simpl. rewrite !str_app_nil_r. reflexivity.
Qed.

Lemma dumpLines_S ram start length i fuel :
  Memory.dumpLines ram start length i (S fuel)
  = if i <? length then
      if DataView.byteLength ram <=? Num.add start i then Some []
      else
        row ← Memory.dumpRow ram (Num.add start i) 0 16
                (Memory.toHex (Num.add start i) 4 ++ ": ")%string EmptyString;
        rest ← Memory.dumpLines ram start length (Num.add i 16) fuel;
        Some ((Memory.padHex row.1 ++ " |" ++ row.2 ++ "|")%string :: rest)
    else Some [].
Proof. reflexivity. Qed.

Lemma dumpLines_spec ram start length fuel : forall i,
  0 <= start -> DataView.byteLength ram < 2 ^ 51 ->
  0 <= i < 2 ^ 52 -> length - i <= Z.of_nat fuel ->
  exists lines,
    Memory.dumpLines ram start length i fuel = Some lines
    /\ forall (k : nat) line,
         lines !! k = Some line
         <-> i + 16 * Z.of_nat k < length
             /\ start + i + 16 * Z.of_nat k < DataView.byteLength ram
             /\ line = dump_line (start + i + 16 * Z.of_nat k)
                         (take 16 (drop (Z.to_nat (start + i + 16 * Z.of_nat k)) ram)).
Proof.
  induction fuel as [|fuel IH]; intros i Hs Hbig Hi Hfuel; [|rewrite dumpLines_S].
  - exists []. split; [reflexivity|]. intros k line. rewrite lookup_nil.
    split; [discriminate | lia].
  - destruct (Z.ltb_spec i length) as [Hlt|Hge].
    2:{ exists []. split; [reflexivity|]. intros k line. rewrite lookup_nil.
        split; [discriminate | lia]. }
    assert (Hc : Z.abs (DataView.byteLength ram) < 2 ^ 53)
      by (unfold DataView.byteLength in *; lia).
    pose proof (fl_lt_iff (start + i) (DataView.byteLength ram) Hc) as Hcmp.
    unfold Num.add.
    destruct (Z.leb_spec (DataView.byteLength ram) (Num.fl (start + i))) as [Hout|Hin].
    { exists []. split; [reflexivity|]. intros k line. rewrite lookup_nil.
      split; [discriminate | lia]. }
    assert (Hx : Num.fl (start + i) = start + i)
      by (apply fl_small; unfold DataView.byteLength in *; lia).
    rewrite !Hx.
    rewrite (fl_small (i + 16)) by lia.
    rewrite dumpRow_spec by lia. simpl mbind.
    destruct (IH (i + 16) Hs Hbig ltac:(unfold DataView.byteLength in *; lia) ltac:(lia))
      as (rest & E & Hrest).
    rewrite E. simpl. eexists. split; [reflexivity|].
    intros [|k] line.
    + change (Z.of_nat 0) with 0. rewrite Z.mul_0_r, !Z.add_0_r. simpl. split.
      * intros H. simplify_eq. split; [lia|]. split; [lia|]. reflexivity.
      * intros (_ & _ & ->). reflexivity.
    + simpl lookup. rewrite (Hrest k line).
      replace (start + (i + 16) + 16 * Z.of_nat k) with (start + i + 16 * Z.of_nat (S k)) by lia.
      replace (i + 16 + 16 * Z.of_nat k) with (i + 16 * Z.of_nat (S k)) by lia.
      reflexivity.
Qed.

Lemma toHex8_byte b :
  is_byte b ->
  String.length (Memory.toHex8 b) = 2%nat /\ hex_value (Memory.toHex8 b) = Some b.
Proof.
  intros [H0 H1]. destruct (padStart_spec b 2 H0) as (Hv & _ & Hl).
  split; [apply Hl; [lia | exact H1] | exact Hv].
Qed.

Lemma toHex_address a :
  0 <= a < 65536 ->
  exists h, Memory.toHex a 4 = String "0" (String "x" h)
            /\ String.length h = 4%nat /\ hex_value h = Some a.
Proof.
  intros [H0 H1]. destruct (padStart_spec a 4 H0) as (Hv & _ & Hl).
  eexists. split; [reflexivity|]. split; [apply Hl; [lia | exact H1] | exact Hv].
Qed.

Lemma printable_length b : String.length (Memory.printable b) = 1%nat.
Proof. unfold Memory.printable. case_match; reflexivity. Qed.

Lemma hex_column_length bytes :
  Forall is_byte bytes -> String.length (hex_column bytes) = (3 * length bytes)%nat.
Proof.
  induction 1 as [|b bytes Hb _ IH]; [reflexivity|].
  simpl hex_column. rewrite !str_length_app, IH, (proj1 (toHex8_byte b Hb)). simpl. lia.
Qed.

Lemma char_column_length bytes : String.length (char_column bytes) = length bytes.
Proof.
  induction bytes as [|b bytes IH]; [reflexivity|].
  simpl char_column. rewrite str_length_app, IH, printable_length. reflexivity.
Qed.

Lemma substring_exact (a b : string) (n : nat) :
  n = String.length a -> String.substring 0 n (a ++ b) = a.
Proof. intros ->. apply substring_prefix. Qed.

Lemma hex_column_field bytes : forall (j : nat) b rest,
  Forall is_byte bytes -> bytes !! j = Some b ->
  String.substring (3 * j) 2 (hex_column bytes ++ rest) = Memory.toHex8 b.
Proof.
  induction bytes as [|x bytes IH]; intros j b rest Hall Hj; [discriminate|].
  inversion Hall as [|? ? Hx Hall']; subst.
  pose proof (proj1 (toHex8_byte x Hx)) as Hlen.
  simpl hex_column. destruct j as [|j]; simpl in Hj.
  - simplify_eq. rewrite !str_app_assoc. apply substring_exact. symmetry. exact Hlen.
  - rewrite str_app_assoc.
    replace (3 * S j)%nat with (String.length (Memory.toHex8 x ++ " ") + 3 * j)%nat
      by (rewrite str_length_app, Hlen; simpl; lia).
    rewrite substring_skip. apply IH; assumption.
Qed.

Lemma dump_line_fields addr bytes :
  0 <= addr < 65536 -> Forall is_byte bytes -> (length bytes <= 16)%nat ->
  hex_value (String.substring 2 4 (dump_line addr bytes)) = Some addr
  /\ (forall (j : nat) b, bytes !! j = Some b ->
        hex_value (String.substring (8 + 3 * j) 2 (dump_line addr bytes)) = Some b)
  /\ String.length (dump_line addr bytes)
     = (if (length bytes =? 16)%nat then 75 else 58 + length bytes)%nat.
Proof.
  intros Ha Hall Hm. unfold dump_line, Memory.padHex.
  destruct (toHex_address addr Ha) as (h & Eh & Hlen & Hv). rewrite Eh.
  pose proof (hex_column_length bytes Hall) as Hhex.
  split; [|split].
  - rewrite !str_app_cons, !str_app_assoc. simpl String.substring.
    rewrite substring_exact by (symmetry; exact Hlen). exact Hv.
  - intros j b Hj. rewrite !str_app_cons, !str_app_assoc.
    change (String.substring (8 + 3 * j) 2 (String "0" (String "x" ?s)))
      with (String.substring (6 + 3 * j) 2 s).
    replace (6 + 3 * j)%nat with (String.length h + (2 + 3 * j))%nat by lia.
    rewrite substring_skip.
    change (String.substring (2 + 3 * j) 2 (": " ++ ?s))
      with (String.substring (3 * j) 2 s).
    rewrite (hex_column_field bytes j b _ Hall Hj). apply toHex8_byte.
    eapply Forall_lookup_1; eassumption.
  - repeat (rewrite str_length_app || rewrite repeat_char_length
            || rewrite char_column_length || rewrite Hhex
            || (progress simpl String.length) || rewrite Hlen).
    destruct (Nat.eqb_spec (length bytes) 16); lia.
Qed.

(** X28: for a value that is not negative, the text of [toHex] after its
    [0x] and the text of [toHex8] are hexadecimal numerals of that value, and
    [toHex] has exactly [padding] digits when the value is below
    16^[padding]; for a negative value neither text is a hexadecimal numeral
    (it holds a minus sign after the padding zeros, as in [0x000000-1]). *)
Theorem toHex_denotes value (padding : nat) :
  (0 <= value ->
   hex_value (Str.drop 2 (Memory.toHex value padding)) = Some value
   /\ hex_value (Memory.toHex8 value) = Some value
   /\ ((1 <= padding)%nat -> value < 16 ^ Z.of_nat padding ->
       String.length (Memory.toHex value padding) = (2 + padding)%nat))
  /\ (value < 0 ->
      hex_value (Str.drop 2 (Memory.toHex value padding)) = None
      /\ hex_value (Memory.toHex8 value) = None).
Proof.
  split.
  - intros Hv. destruct (padStart_spec value padding Hv) as (H1 & _ & H2).
    destruct (padStart_spec value 2 Hv) as (H3 & _ & _).
    split; [exact H1|]. split; [exact H3|].
    intros Hp Hlt. unfold Memory.toHex.
    change (S (S (String.length
                    (Memory.padStart (Str.toUpperCase (Memory.toString16 value)) padding)))
            = (2 + padding)%nat).
    rewrite (H2 Hp Hlt). reflexivity.
  - intros Hv.
    assert (H : forall p, hex_value (Memory.padStart (Str.toUpperCase (Memory.toString16 value)) p)
                          = None).
    { intros p. unfold Memory.toString16. cbv zeta.
      destruct (Z.ltb_spec value 0); [|lia].
      unfold Memory.padStart.
      rewrite hex_value_nonempty
        by (rewrite str_length_app; simpl String.length; lia).
      rewrite hex_value_from_zeros. reflexivity. }
    split; [apply (H padding) | apply (H 2%nat)].
Qed.

Lemma toHex_denotes_witness :
  hex_value (Str.drop 2 (Memory.toHex 4092 8)) = Some 4092
  /\ String.length (Memory.toHex 4092 8) = 10%nat
  /\ hex_value (Str.drop 2 (Memory.toHex (-1) 8)) = None.
Proof.
  destruct (toHex_denotes 4092 8) as [H _].
  destruct (H ltac:(lia)) as (H1 & _ & H2).
  destruct (toHex_denotes (-1) 8) as [_ G].
  destruct (G ltac:(lia)) as (G1 & _).
  split; [exact H1|]. split; [apply H2; [lia | reflexivity] | exact G1].
Defined.

Lemma dumpRow_negative ram addr n line ascii :
  addr < 0 -> Memory.dumpRow ram addr 0 (S n) line ascii = None.
Proof.
  intros Hneg.
  change (Memory.dumpRow ram addr 0 (S n) line ascii)
    with (if Num.add addr 0 <? DataView.byteLength ram then
            byte ← DataView.getUint8 ram (Some (Num.add addr 0));
            Memory.dumpRow ram addr (0 + 1) n
              (line ++ (Memory.toHex8 byte ++ " "))%string (ascii ++ Memory.printable byte)%string
          else Some (line, ascii)).
  unfold Num.add. rewrite Z.add_0_r.
  pose proof (proj2 (fl_lt_iff addr 0 ltac:(reflexivity)) Hneg) as Hfl.
  destruct (Z.ltb_spec (Num.fl addr) (DataView.byteLength ram));
    [|unfold DataView.byteLength in *; lia].
  assert (E : DataView.getUint8 ram (Some (Num.fl addr)) = None).
  { unfold DataView.getUint8, DataView.ToIndex.
    destruct (Z.ltb_spec (Num.fl addr) 0); [reflexivity | lia]. }
  rewrite E. reflexivity.
Qed.

(** X29: on a 4096-byte memory, [getMemoryDump] throws a [RangeError] when
    [start] is negative and [length] positive.  For [start >= 0] it returns
    one line for each k with 16k < [length] and [start] + 16k inside the
    memory; that line shows the address [start] + 16k in hexadecimal at
    columns 2..5 and, at columns 8 + 3j, the byte at [start] + 16k + j for
    every j < 16 inside the memory -- a full row of 16 bytes even where
    [length] is not a multiple of 16.  A full row has 75 characters; a row
    cut by the end of the memory after m bytes has 58 + m, so that its
    character column starts one place earlier. *)
Theorem memory_dump_rows ram start size :
  DataView.byteLength ram = RAM_SIZE ->
  Forall is_byte ram ->
  (start < 0 -> 0 < size -> Memory.getMemoryDump ram start size = None)
  /\ (0 <= start ->
      exists lines,
        Memory.getMemoryDump ram start size = Some lines
        /\ forall k : nat,
             let addr := start + 16 * Z.of_nat k in
             (is_Some (lines !! k) <-> 16 * Z.of_nat k < size /\ addr < RAM_SIZE)
             /\ forall line, lines !! k = Some line ->
                  hex_value (String.substring 2 4 line) = Some addr
                  /\ (forall j : nat, (j < 16)%nat -> addr + Z.of_nat j < RAM_SIZE ->
                        hex_value (String.substring (8 + 3 * j) 2 line)
                        = ram !! Z.to_nat (addr + Z.of_nat j))
                  /\ Z.of_nat (String.length line)
                     = if RAM_SIZE - addr <? 16 then 58 + (RAM_SIZE - addr) else 75).
Proof.
  intros Hlen Hbytes. unfold Memory.getMemoryDump. split.
  - intros Hneg Hpos.
    destruct (Z.to_nat size) as [|fuel] eqn:E; [lia|].
    rewrite dumpLines_S. destruct (Z.ltb_spec 0 size); [|lia].
    unfold Num.add. rewrite Z.add_0_r.
    pose proof (proj2 (fl_lt_iff start 0 ltac:(reflexivity)) Hneg) as Hfl.
    destruct (Z.leb_spec (DataView.byteLength ram) (Num.fl start));
      [unfold DataView.byteLength in *; lia|].
    rewrite dumpRow_negative; [reflexivity | exact Hfl].
  - intros Hs.
    destruct (dumpLines_spec ram start size (Z.to_nat size) 0 Hs
                ltac:(rewrite Hlen; reflexivity) ltac:(lia) ltac:(lia))
      as (lines & E & Hlines).
    exists lines. split; [exact E|]. intros k. cbv zeta.
    rewrite Hlen in Hlines. unfold RAM_SIZE in *. split.
    + split.
      * intros [line Hl]. apply Hlines in Hl. lia.
      * intros [H1 H2]. eexists. apply Hlines. split; [lia|]. split; [lia | reflexivity].
    + intros line Hl. apply Hlines in Hl as (H1 & H2 & ->).
      rewrite !Z.add_0_r in *.
      set (addr := start + 16 * Z.of_nat k) in *.
      set (bytes := take 16 (drop (Z.to_nat addr) ram)).
      assert (Hall : Forall is_byte bytes) by (apply Forall_take, Forall_drop, Hbytes).
      assert (Hm : length bytes = Nat.min 16 (length ram - Z.to_nat addr))
        by (unfold bytes; rewrite length_take, length_drop; reflexivity).
      unfold DataView.byteLength in Hlen.
      destruct (dump_line_fields addr bytes ltac:(lia) Hall ltac:(lia)) as (F1 & F2 & F3).
      split; [exact F1|]. split.
      * intros j Hj Hin.
        destruct (lookup_lt_is_Some_2 ram (Z.to_nat (addr + Z.of_nat j)) ltac:(lia)) as [b Hb].
        rewrite Hb. apply F2. unfold bytes.
        rewrite lookup_take_lt by lia. rewrite lookup_drop. rewrite <- Hb. f_equal. lia.
      * rewrite F3. destruct (Z.ltb_spec (4096 - addr) 16), (Nat.eqb_spec (length bytes) 16); lia.
Qed.

Lemma memory_dump_rows_witness :
  exists lines,
    Memory.getMemoryDump createRAM 4085 20 = Some lines
    /\ (is_Some (lines !! 0%nat) <-> 16 * Z.of_nat 0 < 20 /\ 4085 + 16 * Z.of_nat 0 < RAM_SIZE)
    /\ Memory.getMemoryDump createRAM (-1) 20 = None.
Proof.
  destruct (memory_dump_rows createRAM 4085 20) as [_ H];
    [reflexivity | apply Forall_replicate; unfold is_byte; lia |].
  destruct (H ltac:(lia)) as (lines & E & Hk).
  destruct (memory_dump_rows createRAM (-1) 20) as [G _];
    [reflexivity | apply Forall_replicate; unfold is_byte; lia |].
  exists lines. split; [exact E|]. split; [exact (proj1 (Hk 0%nat))|].
  apply G; lia.
Defined.

(** * Properties of deep equality *)

Import Deep.

Lemma well_formed_array xs : well_formed (Array xs) <-> Forall well_formed xs.
Proof.
  induction xs as [|x xs IH]; simpl.
  - split; constructor.
  - rewrite Forall_cons. simpl in IH. rewrite IH. reflexivity.
Qed.

Lemma well_formed_object ps :
  well_formed (Object ps) <-> NoDup (fst <$> ps) /\ Forall (fun p => well_formed (snd p)) ps.
Proof.
  simpl. apply and_iff_compat_l.
  induction ps as [|p ps IH].
  - split; constructor.
  - rewrite Forall_cons, IH. reflexivity.
Qed.

(** *** Unfolding [deepEqual] *)

Lemma deepEqual_array_nil f ys :
  deepEqualWith f (Array []) (Array ys) = (length ys =? 0)%nat.
Proof. destruct f, ys; reflexivity. Qed.

Lemma deepEqual_array_cons_nil f x xs :
  deepEqualWith f (Array (x :: xs)) (Array []) = false.
Proof. destruct f; reflexivity. Qed.

Lemma deepEqual_array_cons f x xs y ys :
  deepEqualWith f (Array (x :: xs)) (Array (y :: ys))
  = deepEqualWith f x y && deepEqualWith f (Array xs) (Array ys).
Proof.
  cbn [deepEqualWith isNaN strictEquals nullish typeof typeof_eqb andb orb negb length].
  rewrite andb_false_r. cbn [Nat.eqb].
  destruct (length xs =? length ys)%nat; cbn [negb].
  - destruct (deepEqualWith f x y); reflexivity.
  - rewrite andb_false_r. reflexivity.
Qed.

Lemma deepEqual_arrays f xs ys :
  deepEqualWith f (Array xs) (Array ys) = true
  <-> Forall2 (fun x y => deepEqualWith f x y = true) xs ys.
Proof.
  revert ys. induction xs as [|x xs IH]; intros ys.
  - rewrite deepEqual_array_nil. destruct ys as [|y ys]; simpl.
    + split; [constructor | reflexivity].
    + split; [discriminate | inversion 1].
  - destruct ys as [|y ys].
    + rewrite deepEqual_array_cons_nil. split; [discriminate | inversion 1].
    + rewrite deepEqual_array_cons, andb_true_iff, IH. split.
      * intros [? ?]. constructor; assumption.
      * inversion 1; subst. auto.
Qed.

Lemma object_loop f b ps :
  (fix loop (ps : list (string * Value)) {struct ps} : bool :=
     match ps with
     | [] => true
     | (key, x) :: ps' =>
         if negb (includes (keys b) key) then false
         else if negb (deepEqualWith f x (get b key)) then false
         else loop ps'
     end) ps
  = forallb (property_matches f b) ps.
Proof.
  induction ps as [|[key x] ps IH]; [reflexivity|].
  rewrite IH. unfold property_matches. simpl.
  destruct (includes (keys b) key), (deepEqualWith f x (get b key)); reflexivity.
Qed.

Lemma array_loop f b xs : forall i,
  (fix loop (i : nat) (xs : list Value) {struct xs} : bool :=
     match xs with
     | [] => true
     | x :: xs' =>
         if negb (includes (keys b) (pretty i)) then false
         else if negb (deepEqualWith f x (get b (pretty i))) then false
         else loop (S i) xs'
     end) i xs
  = forallb (property_matches f b) (imap (fun j x => (pretty (i + j)%nat, x)) xs).
Proof.
  induction xs as [|x xs IH]; intros i; [reflexivity|].
  rewrite IH. unfold property_matches. simpl. rewrite Nat.add_0_r.
  destruct (includes (keys b) (pretty i)), (deepEqualWith f x (get b (pretty i)));
    simpl; try reflexivity.
  f_equal. apply imap_ext. intros j y _. simpl. do 2 f_equal. lia.
Qed.

(** Two composite values that are not both arrays are compared through
    their properties. *)
Lemma deepEqual_properties f a b :
  composite a = true -> composite b = true -> both_arrays a b = false ->
  deepEqualWith f a b
  = (length (properties a) =? length (keys b))%nat
    && forallb (property_matches f b) (properties a).
Proof.
  intros Ha Hb Hab. destruct a as [| | | | | |xs|ps]; try discriminate;
    destruct b as [| | | | | |ys|qs]; try discriminate.
  - cbn [deepEqualWith isNaN strictEquals nullish typeof typeof_eqb andb orb negb].
    rewrite andb_false_r. cbn [negb].
    rewrite (array_loop f (Object qs) xs 0).
    cbn [properties]. rewrite length_imap.
    destruct (length xs =? length (keys (Object qs)))%nat; reflexivity.
  - cbn [deepEqualWith isNaN strictEquals nullish typeof typeof_eqb andb orb negb].
    rewrite andb_false_r. cbn [negb].
    rewrite (object_loop f (Array ys) ps). cbn [properties].
    destruct (length ps =? length (keys (Array ys)))%nat; reflexivity.
  - cbn [deepEqualWith isNaN strictEquals nullish typeof typeof_eqb andb orb negb].
    rewrite andb_false_r. cbn [negb].
    rewrite (object_loop f (Object qs) ps). cbn [properties].
    destruct (length ps =? length (keys (Object qs)))%nat; reflexivity.
Qed.

(** *** Keys and lookups *)

Lemma includes_spec ks key : includes ks key = true <-> key ∈ ks.
Proof.
  unfold includes. rewrite existsb_exists. split.
  - intros (k & Hk & E). apply String.eqb_eq in E. subst. apply list_elem_of_In, Hk.
  - intros H. exists key. split; [apply list_elem_of_In, H | apply String.eqb_refl].
Qed.

Lemma find_key_NoDup (ps : list (string * Value)) key x :
  NoDup (fst <$> ps) -> (key, x) ∈ ps ->
  find (fun p => String.eqb (fst p) key) ps = Some (key, x).
Proof.
  induction ps as [|[k y] ps IH]; intros Hnd Hin.
  - inversion Hin.
  - simpl in *. apply NoDup_cons in Hnd as [Hk Hnd].
    destruct (String.eqb_spec k key) as [->|Hne].
    + apply elem_of_cons in Hin as [Hin|Hin]; [congruence|].
      exfalso. apply Hk. apply list_elem_of_fmap. exists (key, x). auto.
    + apply elem_of_cons in Hin as [Hin|Hin]; [congruence|]. auto.
Qed.

Lemma get_property b key x :
  NoDup (keys b) -> (key, x) ∈ properties b -> get b key = x.
Proof.
  intros Hnd Hin. unfold get. rewrite (find_key_NoDup _ key x Hnd Hin). reflexivity.
Qed.

Lemma indexed_keys (xs : list Value) : forall s,
  fst <$> imap (fun (j : nat) (x : Value) => (pretty (s + j)%nat, x)) xs
  = pretty <$> seq s (length xs).
Proof.
  induction xs as [|x xs IH]; intros s; simpl; [reflexivity|].
  rewrite Nat.add_0_r. f_equal. rewrite <- IH. f_equal.
  apply imap_ext. intros j y _. simpl. f_equal. f_equal. lia.
Qed.

Lemma keys_array xs : keys (Array xs) = pretty <$> seq 0 (length xs).
Proof. unfold keys, properties. rewrite <- indexed_keys. reflexivity. Qed.

Lemma keys_NoDup v : well_formed v -> NoDup (keys v).
Proof.
  destruct v; intros Hwf; try apply NoDup_nil_2.
  - rewrite keys_array. apply NoDup_fmap; [apply _ | apply NoDup_seq].
  - apply well_formed_object in Hwf as [Hnd _]. exact Hnd.
Qed.

Lemma properties_well_formed v :
  well_formed v -> Forall (fun p => well_formed (snd p)) (properties v).
Proof.
  destruct v; intros Hwf; try constructor.
  - apply well_formed_array in Hwf. simpl.
    apply Forall_forall. intros p Hp.
    apply list_elem_of_lookup in Hp as [j Hj]. rewrite list_lookup_imap in Hj.
    destruct (items !! j) as [x|] eqn:E; simpl in Hj; [|discriminate].
    simplify_eq. simpl. eapply Forall_lookup_1; eassumption.
  - apply well_formed_object in Hwf as [_ H]. exact H.
Qed.

Lemma keys_length v : length (keys v) = length (properties v).
Proof. unfold keys. apply length_fmap. Qed.

(** *** Primitive values *)

Lemma deepEqual_primitive_l f a b :
  composite a = false ->
  deepEqualWith f a b = (f && isNaN a && isNaN b) || strictEquals a b.
Proof.
  intros Ha. destruct a; try discriminate; destruct f, b; simpl;
    try reflexivity;
    repeat match goal with |- context [if ?c then _ else _] => destruct c end; reflexivity.
Qed.

Lemma deepEqual_primitive_r f a b :
  composite b = false ->
  deepEqualWith f a b = (f && isNaN a && isNaN b) || strictEquals a b.
Proof.
  intros Hb. destruct (composite a) eqn:Ha; [|apply deepEqual_primitive_l, Ha].
  destruct a; try discriminate; destruct f, b; try discriminate; reflexivity.
Qed.

Lemma strictEquals_sym a b : strictEquals a b = strictEquals b a.
Proof.
  destruct a, b; simpl; try reflexivity.
  - destruct b, b0; reflexivity.
  - apply Z.eqb_sym.
  - apply String.eqb_sym.
Qed.

(** *** Symmetry *)

Lemma symmetric_properties f a b :
  composite a = true -> composite b = true -> both_arrays a b = false ->
  well_formed a -> well_formed b ->
  Forall (fun p => symmetric_at f (snd p)) (properties a) ->
  deepEqualWith f a b = true -> deepEqualWith f b a = true.
Proof.
  intros Ha Hb Hab Hwa Hwb IH H.
  assert (Hba : both_arrays b a = false)
    by (destruct a, b; try discriminate; reflexivity).
  rewrite deepEqual_properties in H by assumption.
  rewrite deepEqual_properties by assumption.
  apply andb_true_iff in H as [Hlen Hall]. apply Nat.eqb_eq in Hlen.
  rewrite forallb_forall in Hall.
  pose proof (keys_NoDup a Hwa) as Hna. pose proof (keys_NoDup b Hwb) as Hnb.
  pose proof (properties_well_formed a Hwa) as Hpa.
  pose proof (properties_well_formed b Hwb) as Hpb.
  assert (Hsub : forall k, k ∈ keys a -> k ∈ keys b).
  { intros k Hk. unfold keys in Hk. apply list_elem_of_fmap in Hk as ([k' x] & -> & Hp).
    specialize (Hall (k', x) (proj1 (list_elem_of_In _ _) Hp)).
    unfold property_matches in Hall. apply andb_true_iff in Hall as [Hin _].
    apply includes_spec, Hin. }
  assert (Hperm : keys a ≡ₚ keys b).
  { apply submseteq_length_Permutation; [apply NoDup_submseteq; assumption|].
    rewrite keys_length in Hlen. rewrite !keys_length. lia. }
  apply andb_true_iff. split.
  - apply Nat.eqb_eq. rewrite keys_length in Hlen |- *. lia.
  - apply forallb_forall. intros [k y] Hq. apply list_elem_of_In in Hq.
    unfold property_matches. simpl. apply andb_true_iff.
    assert (Hk : k ∈ keys a).
    { rewrite Hperm. unfold keys. apply list_elem_of_fmap. exists (k, y). auto. }
    split; [apply includes_spec, Hk|].
    unfold keys in Hk. apply list_elem_of_fmap in Hk as ([k' x] & E & Hp). simpl in E. subst k'.
    rewrite (get_property a k x Hna Hp).
    pose proof (Hall (k, x) (proj1 (list_elem_of_In _ _) Hp)) as Hx.
    unfold property_matches in Hx. simpl in Hx. apply andb_true_iff in Hx as [_ Hx].
    rewrite (get_property b k y Hnb Hq) in Hx.
    rewrite Forall_forall in IH, Hpa, Hpb.
    apply (IH (k, x) Hp y); [apply (Hpa (k, x) Hp) | apply (Hpb (k, y) Hq) | exact Hx].
Qed.

Lemma symmetric_everywhere f a : symmetric_at f a.
Proof.
  induction a as [| | | | | |xs IH|ps IH] using Value_induction; intros v Hwa Hwb H;
    try (rewrite deepEqual_primitive_l in H by reflexivity;
         rewrite deepEqual_primitive_r by reflexivity;
         rewrite (strictEquals_sym v), <- H; f_equal;
         destruct f; simpl; try reflexivity; destruct (isNaN v); reflexivity).
  - destruct (composite v) eqn:Hb.
    + destruct v as [| | | | | |ys|qs]; try discriminate.
      * apply deepEqual_arrays. apply deepEqual_arrays in H.
        apply well_formed_array in Hwa, Hwb.
        clear Hb. revert ys Hwb H. induction xs as [|x xs IHxs]; intros ys Hwb H.
        -- inversion H; subst. constructor.
        -- inversion H as [|? y ? ys' Hxy Hrest]; subst.
           inversion IH as [|? ? IHx IHrest]; subst.
           inversion Hwa as [|? ? Wx Wxs]; subst.
           inversion Hwb as [|? ? Wy Wys]; subst.
           constructor; [apply IHx; assumption | apply IHxs; assumption].
      * apply symmetric_properties; try assumption; try reflexivity.
        simpl. apply Forall_forall. intros p Hp.
        apply list_elem_of_lookup in Hp as [j Hj]. rewrite list_lookup_imap in Hj.
        destruct (xs !! j) as [x|] eqn:E; simpl in Hj; [|discriminate].
        simplify_eq. simpl. eapply Forall_lookup_1; eassumption.
    + rewrite deepEqual_primitive_r in H by assumption.
      rewrite andb_false_r in H. simpl in H. destruct v; discriminate.
  - destruct (composite v) eqn:Hb.
    + apply symmetric_properties; try assumption; try reflexivity.
    + rewrite deepEqual_primitive_r in H by assumption.
      rewrite andb_false_r in H. simpl in H. destruct v; discriminate.
Qed.

(** X18: [deepEqual] is symmetric on values whose objects hold each key
    once: exchanging the arguments never changes the answer, for the utility
    copy and for the runners' copy alike. *)
Theorem deepEqual_symmetric a b :
  well_formed a -> well_formed b ->
  deepEqual a b = deepEqual b a /\ deepEqualWorker a b = deepEqualWorker b a.
Proof.
  intros Ha Hb.
  assert (G : forall f, deepEqualWith f a b = deepEqualWith f b a).
  { intros f.
    destruct (deepEqualWith f a b) eqn:E1, (deepEqualWith f b a) eqn:E2; try reflexivity.
    - rewrite (symmetric_everywhere f a b Ha Hb E1) in E2. discriminate.
    - rewrite (symmetric_everywhere f b a Hb Ha E2) in E1. discriminate. }
  split; apply G.
Qed.

Lemma deepEqual_symmetric_witness :
  deepEqual (Object [("a"%string, Number 1); ("b"%string, Null)])
            (Object [("b"%string, Null); ("a"%string, Number 1)])
  = deepEqual (Object [("b"%string, Null); ("a"%string, Number 1)])
              (Object [("a"%string, Number 1); ("b"%string, Null)]).
Proof.
  apply (deepEqual_symmetric
           (Object [("a"%string, Number 1); ("b"%string, Null)])
           (Object [("b"%string, Null); ("a"%string, Number 1)]));
    (apply well_formed_object; split;
     [apply (bool_decide_unpack _); vm_compute; exact I | repeat constructor]).
Defined.

(** *** Reflexivity *)

Lemma nan_free_array xs : nan_free (Array xs) <-> Forall nan_free xs.
Proof.
  induction xs as [|x xs IH]; simpl.
  - split; constructor.
  - rewrite Forall_cons. simpl in IH. rewrite IH. reflexivity.
Qed.

Lemma nan_free_object ps : nan_free (Object ps) <-> Forall (fun p => nan_free (snd p)) ps.
Proof.
  induction ps as [|p ps IH]; simpl.
  - split; constructor.
  - rewrite Forall_cons. simpl in IH. rewrite IH. reflexivity.
Qed.

Lemma strictEquals_refl a :
  composite a = false -> isNaN a = false -> strictEquals a a = true.
Proof.
  destruct a; try discriminate; intros _ _; simpl; try reflexivity.
  - apply Bool.eqb_reflx.
  - apply Z.eqb_refl.
  - apply String.eqb_refl.
Qed.

Lemma reflexive_everywhere f a :
  well_formed a -> f = true \/ nan_free a -> deepEqualWith f a a = true.
Proof.
  induction a as [| | | | | |xs IH|ps IH] using Value_induction; intros Hw Hf;
    try (rewrite deepEqual_primitive_l by reflexivity;
         rewrite strictEquals_refl by reflexivity; apply orb_true_r).
  - destruct Hf as [->|[]]. reflexivity.
  - apply deepEqual_arrays. apply well_formed_array in Hw.
    assert (Hn : f = true \/ Forall nan_free xs)
      by (destruct Hf as [?|Hn%nan_free_array]; auto).
    clear Hf. induction xs as [|x xs IHxs]; [constructor|].
    inversion IH as [|? ? IHx IHrest]; subst. inversion Hw as [|? ? Wx Wxs]; subst.
    constructor.
    + apply IHx; [assumption|]. destruct Hn as [?|Hn]; [auto|].
      inversion Hn; subst. auto.
    + apply IHxs; try assumption. destruct Hn as [?|Hn]; [auto|].
      inversion Hn; subst. auto.
  - rewrite deepEqual_properties by reflexivity.
    apply andb_true_iff. split; [apply Nat.eqb_eq; symmetry; apply keys_length|].
    apply forallb_forall. intros [k x] Hp. apply list_elem_of_In in Hp.
    unfold property_matches. simpl. apply andb_true_iff. split.
    + apply includes_spec. unfold keys. apply list_elem_of_fmap. exists (k, x). auto.
    + rewrite (get_property (Object ps) k x (keys_NoDup _ Hw) Hp).
      rewrite Forall_forall in IH. apply (IH (k, x) Hp).
      * pose proof (properties_well_formed _ Hw) as G. rewrite Forall_forall in G.
        apply (G (k, x) Hp).
      * destruct Hf as [?|Hn]; [auto|]. right.
        apply nan_free_object in Hn. rewrite Forall_forall in Hn. apply (Hn (k, x) Hp).
Qed.

(** X17: every value is deeply equal to itself for the utility copy,
    [NaN] included; for the runners' copy the same holds for values that
    contain no [NaN]. *)
Theorem deepEqual_reflexive a :
  well_formed a ->
  deepEqual a a = true /\ (nan_free a -> deepEqualWorker a a = true).
Proof.
  intros Hw. split.
  - apply reflexive_everywhere; auto.
  - intros Hn. apply reflexive_everywhere; auto.
Qed.

Lemma deepEqual_reflexive_witness :
  deepEqual (Object [("a"%string, Array [Number 1; NaN]); ("b"%string, Null)])
            (Object [("a"%string, Array [Number 1; NaN]); ("b"%string, Null)]) = true.
Proof.
  apply (deepEqual_reflexive
           (Object [("a"%string, Array [Number 1; NaN]); ("b"%string, Null)])).
  apply well_formed_object. split.
  - apply (bool_decide_unpack _). vm_compute. exact I.
  - repeat constructor.
Defined.

(** *** The two copies *)

Lemma forallb_impl {A} (p q : A -> bool) (l : list A) :
  (forall x, x ∈ l -> p x = true -> q x = true) ->
  forallb p l = true -> forallb q l = true.
Proof.
  intros H. rewrite !forallb_forall. intros Hp x Hx.
  apply H; [apply list_elem_of_In, Hx | apply Hp, Hx].
Qed.

Lemma worker_implies_utility a : forall b,
  deepEqualWith false a b = true -> deepEqualWith true a b = true.
Proof.
  induction a as [| | | | | |xs IH|ps IH] using Value_induction; intros v H;
    try (rewrite deepEqual_primitive_l in H by reflexivity;
         rewrite deepEqual_primitive_l by reflexivity;
         apply orb_true_iff in H as [H|H]; [discriminate H | rewrite H; apply orb_true_r]).
  - destruct (composite v) eqn:Hv.
    + destruct v as [| | | | | |ys|qs]; try discriminate.
      * apply deepEqual_arrays. apply deepEqual_arrays in H.
        clear Hv. revert ys H. induction xs as [|x xs IHxs]; intros ys H.
        -- inversion H; subst. constructor.
        -- inversion H as [|? y ? ys' Hxy Hrest]; subst.
           inversion IH as [|? ? IHx IHrest]; subst.
           constructor; [apply IHx; assumption | apply IHxs; assumption].
      * rewrite deepEqual_properties in H |- * by reflexivity.
        apply andb_true_iff in H as [Hlen Hall]. rewrite Hlen. simpl.
        eapply forallb_impl; [|exact Hall].
        intros [k x] Hp. unfold property_matches. simpl.
        rewrite !andb_true_iff. intros [Hin Hx]. split; [exact Hin|].
        apply list_elem_of_lookup in Hp as [j Hj]. rewrite list_lookup_imap in Hj.
        destruct (xs !! j) as [x'|] eqn:E; simpl in Hj; [|discriminate].
        simplify_eq. rewrite Forall_forall in IH.
        apply (IH x (list_elem_of_lookup_2 _ _ _ E)), Hx.
    + rewrite deepEqual_primitive_r in H by assumption. destruct v; discriminate.
  - destruct (composite v) eqn:Hv.
    + rewrite deepEqual_properties in H |- * by (assumption || reflexivity).
      apply andb_true_iff in H as [Hlen Hall]. rewrite Hlen. simpl.
      eapply forallb_impl; [|exact Hall].
      intros [k x] Hp. unfold property_matches. simpl.
      rewrite !andb_true_iff. intros [Hin Hx]. split; [exact Hin|].
      rewrite Forall_forall in IH. apply (IH (k, x) Hp), Hx.
    + rewrite deepEqual_primitive_r in H by assumption. destruct v; discriminate.
Qed.

Lemma utility_implies_worker a : forall b,
  nan_free a -> deepEqualWith true a b = true -> deepEqualWith false a b = true.
Proof.
  induction a as [| | | | | |xs IH|ps IH] using Value_induction; intros v Hn H;
    try (rewrite deepEqual_primitive_l in H by reflexivity;
         rewrite deepEqual_primitive_l by reflexivity;
         apply orb_true_iff in H as [H|H]; [discriminate H | rewrite H; apply orb_true_r]).
  - destruct Hn.
  - apply nan_free_array in Hn. destruct (composite v) eqn:Hv.
    + destruct v as [| | | | | |ys|qs]; try discriminate.
      * apply deepEqual_arrays. apply deepEqual_arrays in H.
        clear Hv. revert ys H. induction xs as [|x xs IHxs]; intros ys H.
        -- inversion H; subst. constructor.
        -- inversion H as [|? y ? ys' Hxy Hrest]; subst.
           inversion IH as [|? ? IHx IHrest]; subst.
           inversion Hn as [|? ? Nx Nxs]; subst.
           constructor; [apply IHx; assumption | apply IHxs; assumption].
      * rewrite deepEqual_properties in H |- * by reflexivity.
        apply andb_true_iff in H as [Hlen Hall]. rewrite Hlen. simpl.
        eapply forallb_impl; [|exact Hall].
        intros [k x] Hp. unfold property_matches. simpl.
        rewrite !andb_true_iff. intros [Hin Hx]. split; [exact Hin|].
        apply list_elem_of_lookup in Hp as [j Hj]. rewrite list_lookup_imap in Hj.
        destruct (xs !! j) as [x'|] eqn:E; simpl in Hj; [|discriminate].
        simplify_eq. rewrite Forall_forall in IH, Hn.
        apply (IH x (list_elem_of_lookup_2 _ _ _ E)); [|exact Hx].
        apply (Hn x (list_elem_of_lookup_2 _ _ _ E)).
    + rewrite deepEqual_primitive_r in H by assumption. destruct v; discriminate.
  - apply nan_free_object in Hn. destruct (composite v) eqn:Hv.
    + rewrite deepEqual_properties in H |- * by (assumption || reflexivity).
      apply andb_true_iff in H as [Hlen Hall]. rewrite Hlen. simpl.
      eapply forallb_impl; [|exact Hall].
      intros [k x] Hp. unfold property_matches. simpl.
      rewrite !andb_true_iff. intros [Hin Hx]. split; [exact Hin|].
      rewrite Forall_forall in IH, Hn. apply (IH (k, x) Hp); [|exact Hx].
      apply (Hn (k, x) Hp).
    + rewrite deepEqual_primitive_r in H by assumption. destruct v; discriminate.
Qed.

(** X20: whatever the runners' copy of [deepEqual] accepts, the utility
    copy accepts; the two agree whenever the first argument contains no
    [NaN]; and they differ on [NaN] against [NaN], which only the utility
    copy accepts. *)
Theorem worker_copy_differs_on_NaN_only :
  (forall a b, deepEqualWorker a b = true -> deepEqual a b = true)
  /\ (forall a b, nan_free a -> deepEqualWorker a b = deepEqual a b)
  /\ deepEqual NaN NaN = true /\ deepEqualWorker NaN NaN = false.
Proof.
  split; [exact worker_implies_utility|]. split; [|split; reflexivity].
  intros a b Hn. unfold deepEqualWorker, deepEqual.
  destruct (deepEqualWith false a b) eqn:E1, (deepEqualWith true a b) eqn:E2;
    try reflexivity.
  - rewrite (worker_implies_utility a b E1) in E2. discriminate.
  - rewrite (utility_implies_worker a b Hn E2) in E1. discriminate.
Qed.

Lemma worker_copy_differs_on_NaN_only_witness :
  deepEqualWorker (Array [Number 1]) (Array [Number 1])
  = deepEqual (Array [Number 1]) (Array [Number 1]).
Proof.
  destruct worker_copy_differs_on_NaN_only as (_ & H & _).
  apply H. simpl. tauto.
Defined.

(** *** Values without objects *)

Lemma object_free_array xs : object_free (Array xs) <-> Forall object_free xs.
Proof.
  induction xs as [|x xs IH]; simpl.
  - split; constructor.
  - rewrite Forall_cons. simpl in IH. rewrite IH. reflexivity.
Qed.

Lemma primitive_equal a b :
  composite a = false ->
  ((isNaN a && isNaN b) || strictEquals a b = true <-> a = b).
Proof.
  intros Ha. destruct a; try discriminate; destruct b; simpl;
    split; intros H; try discriminate; try reflexivity.
  - apply Bool.eqb_prop in H. congruence.
  - simplify_eq. apply Bool.eqb_reflx.
  - apply Z.eqb_eq in H. congruence.
  - simplify_eq. apply Z.eqb_refl.
  - apply String.eqb_eq in H. congruence.
  - simplify_eq. apply String.eqb_refl.
Qed.

(** X19: on values built from primitives and arrays alone, [deepEqual]
    answers true exactly when the two values are the same ([NaN] being the
    same as [NaN]). *)
Theorem deepEqual_decides_equality a : forall b,
  object_free a -> object_free b ->
  (deepEqual a b = true <-> a = b).
Proof.
  unfold deepEqual.
  induction a as [| | | | | |xs IH|ps IH] using Value_induction; intros v Ha Hb;
    try (rewrite deepEqual_primitive_l by reflexivity; apply primitive_equal; reflexivity).
  - destruct v as [| | | | | |ys|qs]; try (split; discriminate).
    + rewrite deepEqual_arrays.
      apply object_free_array in Ha, Hb.
      revert ys Hb. induction xs as [|x xs IHxs]; intros ys Hb.
      * split; [inversion 1; reflexivity | intros E; simplify_eq; constructor].
      * inversion IH as [|? ? IHx IHrest]; subst. inversion Ha as [|? ? Ox Oxs]; subst.
        split.
        -- inversion 1 as [|? y ? ys' Hxy Hrest]; subst.
           inversion Hb as [|? ? Oy Oys]; subst.
           apply (IHx y Ox Oy) in Hxy. subst.
           apply (IHxs IHrest Oxs ys' Oys) in Hrest. congruence.
        -- intros E. simplify_eq. inversion Hb as [|? ? Oy Oys]; subst.
           constructor; [apply IHx; auto|].
           apply (IHxs IHrest Oxs xs Oys). reflexivity.
    + destruct Hb.
  - destruct Ha.
Qed.

Lemma deepEqual_decides_equality_witness :
  deepEqual (Array [Number 1; Text "x"]) (Array [Number 1; Text "y"]) = true
  <-> Array [Number 1; Text "x"] = Array [Number 1; Text "y"].
Proof.
  apply (deepEqual_decides_equality (Array [Number 1; Text "x"])
           (Array [Number 1; Text "y"])); simpl; tauto.
Defined.

(** X21: an array is deeply equal to the plain object that has the
    array's indices, written in decimal, as keys and its elements as values:
    only a pair of two arrays is compared as arrays. *)
Theorem array_equals_index_object xs :
  well_formed (Array xs) ->
  deepEqual (Array xs) (Object (properties (Array xs))) = true.
Proof.
  intros Hw. unfold deepEqual.
  assert (Hwo : well_formed (Object (properties (Array xs)))).
  { apply well_formed_object. split; [apply (keys_NoDup _ Hw)|].
    apply (properties_well_formed _ Hw). }
  rewrite deepEqual_properties by reflexivity.
  apply andb_true_iff. split; [apply Nat.eqb_eq; rewrite keys_length; reflexivity|].
  apply forallb_forall. intros [k x] Hp. apply list_elem_of_In in Hp.
  unfold property_matches. simpl fst. simpl snd. apply andb_true_iff. split.
  - apply includes_spec. unfold keys. apply list_elem_of_fmap. exists (k, x). auto.
  - rewrite (get_property (Object (properties (Array xs))) k x (keys_NoDup _ Hwo) Hp).
    apply reflexive_everywhere; [|auto].
    pose proof (properties_well_formed _ Hw) as G. rewrite Forall_forall in G.
    apply (G (k, x) Hp).
Qed.

Lemma array_equals_index_object_witness :
  deepEqual (Array [Number 7; Null])
            (Object [("0"%string, Number 7); ("1"%string, Null)]) = true.
Proof.
  apply (array_equals_index_object [Number 7; Null]). simpl. tauto.
Defined.
